(** * Sucrase: the token-stream rewriting engine

    A shallow embedding of

      - [src/transformers/JSXTransformer.ts]  (JSX to factory calls, text
        normalisation, entity decoding),
      - [src/transformers/RootTransformer.ts] (pipeline construction, balanced
        walk, per-token dispatch, class rewrite, output assembly),
      - [sucrase-babylon/parser/lval.ts]      (binding atoms and lists),

    together with the properties the specification states about them. *)

From Stdlib Require Import NArith ZArith List Ascii String Lia Bool Arith.
From stdpp Require Import base list option.

Local Open Scope nat_scope.

(* ===================================================================== *)
(** * JavaScript strings *)
(* ===================================================================== *)

(** A JavaScript string is a sequence of UTF-16 code units. *)
Definition char := N.
Abbreviation jsstring := (list char).

Definition chr (a : ascii) : char := N_of_ascii a.
Definition str (s : string) : jsstring := List.map N_of_ascii (list_ascii_of_string s).

Definition c_amp : char := 38%N.
Definition c_semi : char := 59%N.
Definition c_hash : char := 35%N.
Definition c_x : char := 120%N.
Definition c_space : char := 32%N.
Definition c_tab : char := 9%N.
Definition c_lf : char := 10%N.
Definition c_cr : char := 13%N.
Definition c_quote : char := 34%N.
Definition c_backslash : char := 92%N.
Definition c_dash : char := 45%N.

Definition char_eqb (a b : char) : bool := N.eqb a b.

Fixpoint jsstring_eqb (a b : jsstring) : bool :=
  match a, b with
  | [], [] => true
  | x :: a', y :: b' => char_eqb x y && jsstring_eqb a' b'
  | _, _ => false
  end.

(** [s.slice(a, b)] for [0 <= a], [0 <= b]. *)
Definition slice (s : jsstring) (a b : nat) : jsstring := take (b - a) (drop a s).

(** [s.slice(a)] and [s.substr(a)] for [0 <= a]. *)
Definition substr (s : jsstring) (a : nat) : jsstring := drop a s.

(** [s.startsWith(p)]. *)
Fixpoint startsWith (s p : jsstring) : bool :=
  match p, s with
  | [], _ => true
  | y :: p', x :: s' => char_eqb x y && startsWith s' p'
  | _ :: _, [] => false
  end.

(** [s.indexOf(c)] for a one-character needle; [None] stands for [-1]. *)
Fixpoint indexOf (s : jsstring) (c : char) : option nat :=
  match s with
  | [] => None
  | x :: s' => if char_eqb x c then Some 0 else option_map S (indexOf s' c)
  end.

(** [s.includes(c)] for a one-character needle. *)
Definition includes (s : jsstring) (c : char) : bool :=
  match indexOf s c with Some _ => true | None => false end.

(** [parts.join(sep)]. *)
Fixpoint join (sep : jsstring) (parts : list jsstring) : jsstring :=
  match parts with
  | [] => []
  | [p] => p
  | p :: rest => p ++ sep ++ join sep rest
  end.

(** [c.repeat(n)] for a one-character string. *)
Definition repeat_char (c : char) (n : nat) : jsstring := replicate n c.

(** Decimal rendering of a number in a template literal. *)
Fixpoint digits_of (fuel n : nat) (acc : jsstring) : jsstring :=
  match fuel with
  | 0 => acc
  | S f =>
      let acc' := (48 + N.of_nat (n mod 10))%N :: acc in
      if n <? 10 then acc' else digits_of f (n / 10) acc'
  end.
Definition number_to_string (n : nat) : jsstring := digits_of (S n) n [].

(* ===================================================================== *)
(** * Outcomes of a call *)
(* ===================================================================== *)

(** What a JavaScript call can raise. *)
Inductive JSError : Type :=
  | RangeError
  | TypeError
  | SyntaxError (pos : nat)
  | Error (message : string).

(** A call returns, throws, or (in the model only) exhausts its fuel. *)
Inductive Result (A : Type) : Type :=
  | OK (a : A)
  | Throw (e : JSError)
  | OutOfFuel.
Arguments OK {A} a.
Arguments Throw {A} e.
Arguments OutOfFuel {A}.

Definition bind {A B : Type} (m : Result A) (k : A -> Result B) : Result B :=
  match m with
  | OK a => k a
  | Throw e => Throw e
  | OutOfFuel => OutOfFuel
  end.

Declare Scope result_scope.
Delimit Scope result_scope with result.
Notation "'let*' x ':=' m 'in' k" := (bind m (fun x => k))
  (at level 10, x name, m at level 100, k at level 200) : result_scope.
Notation "m ';;' k" := (bind m (fun _ => k))
  (at level 100, k at level 200, right associativity) : result_scope.
Local Open Scope result_scope.

Definition returns {A : Type} (m : Result A) : Prop := exists a, m = OK a.

(* ===================================================================== *)
(** * JSX text normalisation (JSXTransformer.ts, module-level functions) *)
(* ===================================================================== *)

Definition isDecimalDigit (c : char) : bool := ((48 <=? c) && (c <=? 57))%N.
Definition isHexDigit (c : char) : bool :=
  (isDecimalDigit c || ((97 <=? c) && (c <=? 102)) || ((65 <=? c) && (c <=? 70)))%N.

(** [/^\d+$/.test(s)] *)
Definition DECIMAL_NUMBER (s : jsstring) : bool :=
  match s with [] => false | _ => forallb isDecimalDigit s end.

(** [/^[\da-fA-F]+$/.test(s)] *)
Definition HEX_NUMBER (s : jsstring) : bool :=
  match s with [] => false | _ => forallb isHexDigit s end.

Definition digitValue (c : char) : N :=
  (if isDecimalDigit c then c - 48
   else if (97 <=? c) then c - 87
   else c - 55)%N.

(** [parseInt(s, radix)] on a string already checked to consist of digits of
    that radix. *)
Definition parseInt (s : jsstring) (radix : N) : N :=
  fold_left (fun acc c => (acc * radix + digitValue c)%N) s 0%N.

(** [String.fromCodePoint(cp)]: one code unit in the basic plane, a surrogate
    pair above it, a RangeError above U+10FFFF. *)
Definition fromCodePoint (cp : N) : Result jsstring :=
  (if cp <=? 65535 then OK [cp]
   else if cp <=? 1114111 then
     OK [55296 + (cp - 65536) / 1024; 56320 + (cp - 65536) mod 1024]
   else Throw RangeError)%N.

(** The [XHTMLEntities] object of [sucrase-babylon/plugins/jsx/xhtml] is a
    table from entity names to their replacement text; [None] is [undefined]. *)
Definition EntityTable := jsstring -> option jsstring.

(** The body of [if (ch === ";") { ... }] in [processEntity]: the value left in
    [entity] for the text [str] collected between [&] and [;]. *)
Definition decodeReference (table : EntityTable) (str : jsstring) : Result (option jsstring) :=
  if bool_decide (str !! 0 = Some c_hash) then
    if bool_decide (str !! 1 = Some c_x) then
      let str := substr str 2 in
      if HEX_NUMBER str then
        let* e := fromCodePoint (parseInt str 16) in OK (Some e)
      else OK None
    else
      let str := substr str 1 in
      if DECIMAL_NUMBER str then
        let* e := fromCodePoint (parseInt str 10) in OK (Some e)
      else OK None
  else OK (table str).

(** The [while (i < text.length && count++ < 10)] loop of [processEntity];
    [budget] is [10 - count].  Returns the final [entity] and [i]. *)
Fixpoint processEntity_scan (table : EntityTable) (budget : nat) (text : jsstring)
    (i : nat) (str : jsstring) : Result (option jsstring * nat) :=
  match budget with
  | 0 => OK (None, i)
  | S budget' =>
      match text !! i with
      | None => OK (None, i)
      | Some ch =>
          if char_eqb ch c_semi then
            let* entity := decodeReference table str in OK (entity, i + 1)
          else processEntity_scan table budget' text (i + 1) (str ++ [ch])
      end
  end.

(** [!entity] *)
Definition falsy (entity : option jsstring) : bool :=
  match entity with
  | None => true
  | Some [] => true
  | Some _ => false
  end.

Record EntityResult := { entity : jsstring; newI : nat }.

Definition processEntity (table : EntityTable) (text : jsstring) (indexAfterAmpersand : nat)
    : Result EntityResult :=
  let* scanned := processEntity_scan table 10 text indexAfterAmpersand [] in
  let '(entity, i) := scanned in
  if falsy entity then OK {| entity := [c_amp]; newI := indexAfterAmpersand |}
  else OK {| entity := default [] entity; newI := i |}.

(** [JSON.stringify] of a string (QuoteJSONString over code units). *)
Definition hexDigit (n : N) : char := (if n <? 10 then 48 + n else 87 + n)%N.

Definition unicodeEscape (c : char) : jsstring :=
  [c_backslash; 117%N; hexDigit (c / 4096); hexDigit ((c / 256) mod 16);
   hexDigit ((c / 16) mod 16); hexDigit (c mod 16)]%N.

Definition quoteJSONChar (c : char) : jsstring :=
  (if c =? 8 then [c_backslash; 98]
   else if c =? 9 then [c_backslash; 116]
   else if c =? 10 then [c_backslash; 110]
   else if c =? 12 then [c_backslash; 102]
   else if c =? 13 then [c_backslash; 114]
   else if c =? 34 then [c_backslash; c_quote]
   else if c =? 92 then [c_backslash; c_backslash]
   else if c <? 32 then unicodeEscape c
   else [c])%N.

Definition JSON_stringify (s : jsstring) : jsstring :=
  [c_quote] ++ concat (List.map quoteJSONChar s) ++ [c_quote].

(** The local variables of [formatJSXTextLiteral]. *)
Record LiteralState := {
  result : jsstring;
  whitespace : jsstring;
  isInInitialLineWhitespace : bool;
  seenNonWhitespace : bool
}.

Definition initialLiteralState : LiteralState :=
  {| result := []; whitespace := []; isInInitialLineWhitespace := false;
     seenNonWhitespace := false |}.

(** What the last branch of the loop body does to [result] before it looks at
    the character: the pending line break becomes one space, and the pending
    whitespace is flushed. *)
Definition flushed (st : LiteralState) : jsstring :=
  (if seenNonWhitespace st && isInInitialLineWhitespace st
   then result st ++ [c_space] else result st) ++ whitespace st.

(** The state after the last branch has appended [piece]. *)
Definition emit (st : LiteralState) (piece : jsstring) : LiteralState :=
  {| result := flushed st ++ piece; whitespace := [];
     isInInitialLineWhitespace := false; seenNonWhitespace := true |}.

(** The [for (let i = 0; i < text.length; i++)] loop of [formatJSXTextLiteral],
    from index [i] on. *)
Fixpoint formatJSXTextLiteral_loop (table : EntityTable) (fuel : nat) (text : jsstring)
    (i : nat) (st : LiteralState) : Result LiteralState :=
  match text !! i with
  | None => OK st
  | Some c =>
      match fuel with
      | 0 => OutOfFuel
      | S fuel' =>
          if char_eqb c c_space || char_eqb c c_tab || char_eqb c c_cr then
            formatJSXTextLiteral_loop table fuel' text (i + 1)
              (if isInInitialLineWhitespace st then st
               else {| result := result st; whitespace := whitespace st ++ [c];
                       isInInitialLineWhitespace := false;
                       seenNonWhitespace := seenNonWhitespace st |})
          else if char_eqb c c_lf then
            formatJSXTextLiteral_loop table fuel' text (i + 1)
              {| result := result st; whitespace := [];
                 isInInitialLineWhitespace := true;
                 seenNonWhitespace := seenNonWhitespace st |}
          else if char_eqb c c_amp then
            let* r := processEntity table text (i + 1) in
            formatJSXTextLiteral_loop table fuel' text (newI r - 1 + 1) (emit st (entity r))
          else
            formatJSXTextLiteral_loop table fuel' text (i + 1) (emit st [c])
      end
  end.

(** The text handed to [JSON.stringify] at the end of [formatJSXTextLiteral]. *)
Definition formatJSXTextLiteral_result (table : EntityTable) (text : jsstring)
    : Result jsstring :=
  let* st := formatJSXTextLiteral_loop table (length text) text 0 initialLiteralState in
  OK (if isInInitialLineWhitespace st then result st else result st ++ whitespace st).

Definition formatJSXTextLiteral (table : EntityTable) (text : jsstring) : Result jsstring :=
  let* r := formatJSXTextLiteral_result table text in OK (JSON_stringify r).

(** The loop of [formatJSXTextReplacement].  [for (const c of text)] walks code
    points; a line feed or a space is one code unit and never half of a
    surrogate pair, so the walk over code units counts the same. *)
Fixpoint formatJSXTextReplacement_loop (text : jsstring) (numNewlines numSpaces : nat)
    : nat * nat :=
  match text with
  | [] => (numNewlines, numSpaces)
  | c :: rest =>
      if char_eqb c c_lf then formatJSXTextReplacement_loop rest (numNewlines + 1) 0
      else if char_eqb c c_space then
        formatJSXTextReplacement_loop rest numNewlines (numSpaces + 1)
      else formatJSXTextReplacement_loop rest numNewlines numSpaces
  end.

Definition formatJSXTextReplacement (text : jsstring) : jsstring :=
  let '(numNewlines, numSpaces) := formatJSXTextReplacement_loop text 0 0 in
  repeat_char c_lf numNewlines ++ repeat_char c_space numSpaces.

(** [/\s/.test(text[k])]; for an index past the end the pattern is tested
    against the text [undefined], which holds no white space. *)
Definition isJSSpace (c : char) : bool :=
  ((c =? 9) || (c =? 10) || (c =? 11) || (c =? 12) || (c =? 13) || (c =? 32)
   || (c =? 160) || (c =? 5760) || ((8192 <=? c) && (c <=? 8202))
   || (c =? 8232) || (c =? 8233) || (c =? 8239) || (c =? 8287) || (c =? 12288)
   || (c =? 65279))%N.

Definition isSpaceAt (text : jsstring) (k : nat) : bool :=
  match text !! k with Some c => isJSSpace c | None => false end.

(** [while (i < text.length && /\s/.test(text[i + 1])) i++] *)
Fixpoint skipSpaces (fuel : nat) (text : jsstring) (i : nat) : nat :=
  match fuel with
  | 0 => i
  | S fuel' =>
      if (i <? length text) && isSpaceAt text (i + 1) then skipSpaces fuel' text (i + 1)
      else i
  end.

Fixpoint formatJSXStringValueLiteral_loop (table : EntityTable) (fuel : nat)
    (text : jsstring) (i : nat) (result : jsstring) : Result jsstring :=
  match text !! i with
  | None => OK result
  | Some c =>
      match fuel with
      | 0 => OutOfFuel
      | S fuel' =>
          if char_eqb c c_lf then
            if isSpaceAt text (i + 1) then
              formatJSXStringValueLiteral_loop table fuel' text
                (skipSpaces (length text) text i + 1) (result ++ [c_space])
            else
              formatJSXStringValueLiteral_loop table fuel' text (i + 1) (result ++ [c_lf])
          else if char_eqb c c_amp then
            let* r := processEntity table text (i + 1) in
            formatJSXStringValueLiteral_loop table fuel' text (newI r - 1 + 1)
              (result ++ entity r)
          else
            formatJSXStringValueLiteral_loop table fuel' text (i + 1) (result ++ [c])
      end
  end.

Definition formatJSXStringValueLiteral (table : EntityTable) (text : jsstring)
    : Result jsstring :=
  let* r := formatJSXStringValueLiteral_loop table (length text) text 0 [] in
  OK (JSON_stringify r).

(** [s[0] === s[0].toLowerCase()].  Lower-casing is spelled out for ASCII;
    [lowerOther] gives the lower-case form of any other code unit.  An empty
    [s] makes [s[0]] undefined and the method call a TypeError. *)
Definition toLowerCase1 (lowerOther : char -> jsstring) (c : char) : jsstring :=
  (if (65 <=? c) && (c <=? 90) then [c + 32]
   else if c <? 128 then [c]
   else lowerOther c)%N.

Definition startsWithLowerCase (lowerOther : char -> jsstring) (s : jsstring) : Result bool :=
  match s !! 0 with
  | None => Throw TypeError
  | Some c => OK (jsstring_eqb [c] (toLowerCase1 lowerOther c))
  end.

(** Modelled from the spec: the named-entity table [xhtml.ts] is not among the
    sources; the specification names one entry, [amp].  The general results
    below hold for every table. *)
Definition XHTMLEntities_spec : EntityTable :=
  fun name => if jsstring_eqb name (str "amp") then Some [c_amp] else None.

(* ===================================================================== *)
(** * Tokens *)
(* ===================================================================== *)

(** The token types the three files name ([tokenizer/types] is not among the
    sources); every other type of the enumeration is [other n]. *)
Module tt.
Inductive TokenType : Type :=
  | braceL | braceR | dollarBraceL | parenL | parenR | bracketL | bracketR
  | _class | _this | _yield | name | string | eq | dot | colon | comma
  | slash | ellipsis | lessThan
  | jsxName | jsxText | jsxTagStart | jsxTagEnd
  | other (n : nat).
End tt.
Abbreviation TokenType := tt.TokenType.

#[global] Instance TokenType_eq_dec : EqDecision TokenType.
Proof. solve_decision. Defined.

Inductive IdentifierRole : Type :=
  | Access
  | BlockScopedDeclaration
  | FunctionScopedDeclaration.

Record Token := {
  type : TokenType;
  start : nat;
  end_ : nat;
  contextId : option nat;
  isType : bool;
  identifierRole : option IdentifierRole
}.

(* ===================================================================== *)
(** * The token cursor and editor *)
(* ===================================================================== *)

(** Modelled from the spec: [TokenProcessor.ts] is not among the sources.  The
    cursor holds the immutable source text and token sequence, the text emitted
    so far and the index of the current token (specification, 4.2). *)
Record TokenProcessor := {
  code : jsstring;
  tokens : list Token;
  resultCode : jsstring;
  tokenIndex : nat
}.

Definition emitted (tp : TokenProcessor) (out : jsstring) (advance : nat) : TokenProcessor :=
  {| code := code tp; tokens := tokens tp;
     resultCode := resultCode tp ++ out; tokenIndex := tokenIndex tp + advance |}.

(** Modelled from the spec: [reset] starts a run with nothing emitted and the
    cursor on the first token. *)
Definition reset (tp : TokenProcessor) : TokenProcessor :=
  {| code := code tp; tokens := tokens tp; resultCode := []; tokenIndex := 0 |}.

Definition currentIndex (tp : TokenProcessor) : nat := tokenIndex tp.

Definition isAtEnd (tp : TokenProcessor) : bool := tokenIndex tp =? length (tokens tp).

(** The token at the cursor; reading a field of a missing token is a
    TypeError. *)
Definition currentToken (tp : TokenProcessor) : Result Token :=
  match tokens tp !! tokenIndex tp with
  | Some t => OK t
  | None => Throw TypeError
  end.

(** Modelled from the spec: "matches the token(s) at the cursor, or at an
    arbitrary index, against an expected type sequence"; a position past the
    last token matches nothing. *)
Fixpoint matchesAtIndex (tp : TokenProcessor) (index : nat) (tagLabels : list TokenType)
    : bool :=
  match tagLabels with
  | [] => true
  | t :: rest =>
      match tokens tp !! index with
      | Some tok => bool_decide (type tok = t) && matchesAtIndex tp (index + 1) rest
      | None => false
      end
  end.

Definition matches1 (tp : TokenProcessor) (t1 : TokenType) : bool :=
  matchesAtIndex tp (tokenIndex tp) [t1].

Definition matches2 (tp : TokenProcessor) (t1 t2 : TokenType) : bool :=
  matchesAtIndex tp (tokenIndex tp) [t1; t2].

(** Modelled from the spec: the current token has the given type and carries
    the given correlation id. *)
Definition matchesContextIdAndLabel (tp : TokenProcessor) (t : TokenType) (id : nat) : bool :=
  match tokens tp !! tokenIndex tp with
  | Some tok => bool_decide (type tok = t) && bool_decide (contextId tok = Some id)
  | None => false
  end.

(** Modelled from the spec: the raw text of a token. *)
Definition tokenText (tp : TokenProcessor) (tok : Token) : jsstring :=
  slice (code tp) (start tok) (end_ tok).

Definition identifierNameAtIndex (tp : TokenProcessor) (index : nat) : Result jsstring :=
  match tokens tp !! index with
  | Some tok => OK (tokenText tp tok)
  | None => Throw TypeError
  end.

Definition identifierName (tp : TokenProcessor) : Result jsstring :=
  identifierNameAtIndex tp (tokenIndex tp).

(** Modelled from the spec: "any source region never touched by a consuming
    operation is reproduced byte-for-byte": the source text between the end of
    the previous token and the start of [tok]. *)
Definition previousWhitespace (tp : TokenProcessor) (tok : Token) : jsstring :=
  slice (code tp)
    (match tokenIndex tp with
     | 0 => 0
     | S k => match tokens tp !! k with Some prev => end_ prev | None => 0 end
     end)
    (start tok).

(** Modelled from the spec: "emits the current token's original text unchanged
    and advances the cursor by one". *)
Definition copyToken (tp : TokenProcessor) : Result TokenProcessor :=
  let* tok := currentToken tp in
  OK (emitted tp (previousWhitespace tp tok ++ tokenText tp tok) 1).

(** Modelled from the spec: "emits supplied replacement text in place of the
    current token and advances by one". *)
Definition replaceToken (tp : TokenProcessor) (newCode : jsstring) : Result TokenProcessor :=
  let* tok := currentToken tp in
  OK (emitted tp (previousWhitespace tp tok ++ newCode) 1).

(** Modelled from the spec: "emits supplied text without consuming a token". *)
Definition appendCode (tp : TokenProcessor) (newCode : jsstring) : TokenProcessor :=
  {| code := code tp; tokens := tokens tp;
     resultCode := resultCode tp ++ newCode; tokenIndex := tokenIndex tp |}.

(** Modelled from the spec: a copy that insists on the type of the token it
    copies. *)
Definition copyExpectedToken (tp : TokenProcessor) (t : TokenType) : Result TokenProcessor :=
  let* tok := currentToken tp in
  if bool_decide (type tok = t) then copyToken tp
  else Throw (Error "Expected token").

(* ===================================================================== *)
(** * Class information *)
(* ===================================================================== *)

Record HeaderInfo := {
  isExpression : bool;
  className : option jsstring;
  hasSuperclass : bool
}.

Record FieldRange := { range_start : nat; range_end : nat }.

(** [ClassInfo] of [util/getClassInfo] (specification, 3); [None] in
    [constructorInsertPos] is [null]. *)
Record ClassInfo := {
  headerInfo : HeaderInfo;
  constructorInsertPos : option nat;
  initializerStatements : list jsstring;
  staticInitializerSuffixes : list jsstring;
  fieldRanges : list FieldRange
}.

(* ===================================================================== *)
(** * The state of one compilation run *)
(* ===================================================================== *)

(** The classes deriving from [Transformer]; only [JSXTransformer] is among
    the sources. *)
Inductive Transformer : Type :=
  | NumericSeparatorTransformer
  | OptionalCatchBindingTransformer
  | JSXTransformer
  | ReactDisplayNameTransformer
  | ImportTransformer
  | FlowTransformer
  | TypeScriptTransformer.

#[global] Instance Transformer_eq_dec : EqDecision Transformer.
Proof. solve_decision. Defined.

Inductive Transform : Type :=
  | imports | flow | typescript | jsx | add_module_exports.

#[global] Instance Transform_eq_dec : EqDecision Transform.
Proof. solve_decision. Defined.

(** The objects one run owns: the cursor, the name allocator, the import
    resolver, the fields of [RootTransformer] and of [JSXTransformer], and the
    private fields of the transformers that are not among the sources. *)
Record State {NameManager ImportProcessor Private : Type} := {
  tokensOf : TokenProcessor;
  nameManager : NameManager;
  importProcessor : ImportProcessor;
  private : Private;
  transformers : list Transformer;
  generatedVariables : list jsstring;
  lastLineNumber : nat;
  lastIndex : nat;
  filenameVarName : option jsstring;
  filePath : option jsstring
}.
Arguments State : clear implicits.

Section Setters.
Context {NM IP PV : Type}.
Local Abbreviation St := (State NM IP PV).

Definition with_tokens (st : St) (tp : TokenProcessor) : St :=
  {| tokensOf := tp; nameManager := nameManager st;
     importProcessor := importProcessor st; private := private st;
     transformers := transformers st; generatedVariables := generatedVariables st;
     lastLineNumber := lastLineNumber st; lastIndex := lastIndex st;
     filenameVarName := filenameVarName st; filePath := filePath st |}.

Definition with_nameManager (st : St) (nm : NM) : St :=
  {| tokensOf := tokensOf st; nameManager := nm;
     importProcessor := importProcessor st; private := private st;
     transformers := transformers st; generatedVariables := generatedVariables st;
     lastLineNumber := lastLineNumber st; lastIndex := lastIndex st;
     filenameVarName := filenameVarName st; filePath := filePath st |}.

Definition with_generatedVariables (st : St) (vs : list jsstring) : St :=
  {| tokensOf := tokensOf st; nameManager := nameManager st;
     importProcessor := importProcessor st; private := private st;
     transformers := transformers st; generatedVariables := vs;
     lastLineNumber := lastLineNumber st; lastIndex := lastIndex st;
     filenameVarName := filenameVarName st; filePath := filePath st |}.

Definition with_line (st : St) (line index : nat) : St :=
  {| tokensOf := tokensOf st; nameManager := nameManager st;
     importProcessor := importProcessor st; private := private st;
     transformers := transformers st; generatedVariables := generatedVariables st;
     lastLineNumber := line; lastIndex := index;
     filenameVarName := filenameVarName st; filePath := filePath st |}.

Definition with_filenameVarName (st : St) (v : option jsstring) : St :=
  {| tokensOf := tokensOf st; nameManager := nameManager st;
     importProcessor := importProcessor st; private := private st;
     transformers := transformers st; generatedVariables := generatedVariables st;
     lastLineNumber := lastLineNumber st; lastIndex := lastIndex st;
     filenameVarName := v; filePath := filePath st |}.

(** Lifting of cursor operations to the run. *)
Definition onTokens (f : TokenProcessor -> Result TokenProcessor) (st : St) : Result St :=
  let* tp := f (tokensOf st) in OK (with_tokens st tp).

Definition append (st : St) (newCode : jsstring) : St :=
  with_tokens st (appendCode (tokensOf st) newCode).
End Setters.

(** The collaborators that are not among the sources, taken as parameters of
    the development. *)
Record Env := {
  NameManager : Type;
  ImportProcessor : Type;
  Private : Type;
  (** [xhtml.ts] *)
  XHTMLEntities : EntityTable;
  (** lower-casing outside ASCII *)
  lowerOther : char -> jsstring;
  (** [NameManager.claimFreeName] *)
  claimFreeName : jsstring -> NameManager -> jsstring * NameManager;
  (** [ImportProcessor.getIdentifierReplacement]; [None] is [null] *)
  getIdentifierReplacement : ImportProcessor -> jsstring -> option jsstring;
  (** [getClassInfo(rootTransformer, tokens)] *)
  getClassInfo : State NameManager ImportProcessor Private ->
                 Result (ClassInfo * State NameManager ImportProcessor Private);
  (** [process()] of a transformer other than [JSXTransformer], with whatever
      it calls back into the orchestrator *)
  processOther : Transformer -> State NameManager ImportProcessor Private ->
                 Result (bool * State NameManager ImportProcessor Private);
  (** [getPrefixCode()] and [getSuffixCode()] of those transformers *)
  getPrefixCodeOther : Transformer -> State NameManager ImportProcessor Private -> jsstring;
  getSuffixCodeOther : Transformer -> State NameManager ImportProcessor Private -> jsstring;
  (** [TokenProcessor.removeInitialToken], [removeToken] and [finish] *)
  removeInitialToken : TokenProcessor -> Result TokenProcessor;
  removeToken : TokenProcessor -> Result TokenProcessor;
  finish : TokenProcessor -> Result (jsstring * TokenProcessor)
}.

Definition RunState (E : Env) : Type := State (NameManager E) (ImportProcessor E) (Private E).

Definition includesTransform (transforms : list Transform) (t : Transform) : bool :=
  bool_decide (t ∈ transforms).

(** [sucraseContext] as the constructor of [RootTransformer] reads it. *)
Record SucraseContext {E : Env} := {
  tokenProcessor : TokenProcessor;
  ctx_importProcessor : ImportProcessor E;
  ctx_nameManager : NameManager E;
  (** initial private fields of the transformers that are not among the sources *)
  ctx_private : Private E
}.
Arguments SucraseContext : clear implicits.

(** The transformer list [RootTransformer]'s constructor builds. *)
Definition registeredTransformers (transforms : list Transform) : Result (list Transformer) :=
  let ts := [NumericSeparatorTransformer; OptionalCatchBindingTransformer] in
  let ts := if includesTransform transforms jsx
            then ts ++ [JSXTransformer; ReactDisplayNameTransformer] else ts in
  let ts := if includesTransform transforms imports then ts ++ [ImportTransformer] else ts in
  let ts := if includesTransform transforms flow then ts ++ [FlowTransformer] else ts in
  if includesTransform transforms typescript then
    if negb (includesTransform transforms imports) then
      Throw (Error "The TypeScript transform without the import transform is not yet supported.")
    else OK (ts ++ [TypeScriptTransformer])
  else OK ts.

(** [new RootTransformer(sucraseContext, transforms, filePath)] *)
Definition RootTransformer_new {E : Env} (sucraseContext : SucraseContext E)
    (transforms : list Transform) (filePath : option jsstring) : Result (RunState E) :=
  let* ts := registeredTransformers transforms in
  OK {| tokensOf := tokenProcessor sucraseContext;
        nameManager := ctx_nameManager sucraseContext;
        importProcessor := ctx_importProcessor sucraseContext;
        private := ctx_private sucraseContext;
        transformers := ts;
        generatedVariables := [];
        lastLineNumber := 1;
        lastIndex := 0;
        filenameVarName := None;
        filePath := filePath |}.

(** One decision of the balanced walk on a depth counter: go on with a new
    depth, or return from the walk. *)
Inductive Depth : Type :=
  | Continue (depth : nat)
  | Return.

(** [a || b] on strings that may be [null]: [b] when [a] is [null] or empty. *)
Definition orElse (a : option jsstring) (b : jsstring) : jsstring :=
  match a with
  | Some (c :: rest) => c :: rest
  | _ => b
  end.

(** A [string | null] inside a template literal. *)
Definition template (a : option jsstring) : jsstring := default (str "null") a.

Section Run.
Variable E : Env.
Local Abbreviation St := (RunState E).

(* ------------------------------------------------------------------- *)
(** ** JSXTransformer: the parts that do not re-enter the orchestrator *)

Definition getPrefixCode_JSX (st : St) : jsstring :=
  match filenameVarName st with
  | Some (c :: rest) =>
      str "const " ++ (c :: rest) ++ str " = "
        ++ JSON_stringify (orElse (filePath st) []) ++ str ";"
  | _ => []
  end.

(** [getLineNumberForIndex]: the loop runs at most [index - lastIndex]
    times. *)
Fixpoint getLineNumberForIndex_loop (steps : nat) (code : jsstring)
    (index lastIndex lastLineNumber : nat) : nat * nat :=
  match steps with
  | 0 => (lastLineNumber, lastIndex)
  | S steps' =>
      if (lastIndex <? index) && (lastIndex <? length code) then
        getLineNumberForIndex_loop steps' code index (lastIndex + 1)
          (if bool_decide (code !! lastIndex = Some c_lf)
           then lastLineNumber + 1 else lastLineNumber)
      else (lastLineNumber, lastIndex)
  end.

Definition getLineNumberForIndex (index : nat) (st : St) : nat * St :=
  let '(line, idx) :=
    getLineNumberForIndex_loop (index - lastIndex st) (code (tokensOf st))
      index (lastIndex st) (lastLineNumber st) in
  (line, with_line st line idx).

Definition getFilenameVarName (st : St) : jsstring * St :=
  match filenameVarName st with
  | Some (c :: rest) => (c :: rest, st)
  | _ =>
      let '(n, nm) := claimFreeName E (str "_jsxFileName") (nameManager st) in
      (n, with_filenameVarName (with_nameManager st nm) (Some n))
  end.

Definition processStringPropValue (st : St) : Result St :=
  let tp := tokensOf st in
  let* token := currentToken tp in
  let valueCode := slice (code tp) (start token + 1) (end_ token - 1) in
  let replacementCode := formatJSXTextReplacement valueCode in
  let* literalCode := formatJSXStringValueLiteral (XHTMLEntities E) valueCode in
  onTokens (fun tp => replaceToken tp (literalCode ++ replacementCode)) st.

Definition processChildTextElement (st : St) : Result St :=
  let tp := tokensOf st in
  let* token := currentToken tp in
  let valueCode := slice (code tp) (start token) (end_ token) in
  let replacementCode := formatJSXTextReplacement valueCode in
  let* literalCode := formatJSXTextLiteral (XHTMLEntities E) valueCode in
  if jsstring_eqb literalCode [c_quote; c_quote] then
    onTokens (fun tp => replaceToken tp replacementCode) st
  else
    onTokens (fun tp => replaceToken tp (str ", " ++ literalCode ++ replacementCode)) st.

(** The first loop of [processTagIntro]: the index at which the tag's name
    ends. *)
Definition introEnds (tp : TokenProcessor) (introEnd : nat) : bool :=
  matchesAtIndex tp (introEnd - 1) [tt.jsxName; tt.jsxName]
  || matchesAtIndex tp introEnd [tt.braceL]
  || matchesAtIndex tp introEnd [tt.jsxTagEnd]
  || matchesAtIndex tp introEnd [tt.slash; tt.jsxTagEnd].

Fixpoint processTagIntro_scan (fuel : nat) (tp : TokenProcessor) (introEnd : nat)
    : Result nat :=
  if introEnds tp introEnd then OK introEnd
  else match fuel with
       | 0 => OutOfFuel
       | S fuel' => processTagIntro_scan fuel' tp (introEnd + 1)
       end.

(** [if (introEnd === currentIndex + 1) { ... }] in [processTagIntro] *)
Definition processTagIntro_name (introEnd : nat) (st : St) : Result St :=
  let tp := tokensOf st in
  if introEnd =? currentIndex tp + 1 then
    let* tagName := identifierName tp in
    let* lower := startsWithLowerCase (lowerOther E) tagName in
    if lower then onTokens (fun tp => replaceToken tp (str "'" ++ tagName ++ str "'")) st
    else OK st
  else OK st.

(** [while (!this.tokens.matches1(tt.jsxTagEnd)) this.tokens.replaceToken("")] *)
Fixpoint skipToTagEnd (fuel : nat) (st : St) : Result St :=
  if matches1 (tokensOf st) tt.jsxTagEnd then OK st
  else match fuel with
       | 0 => OutOfFuel
       | S fuel' =>
           let* st := onTokens (fun tp => replaceToken tp []) st in
           skipToTagEnd fuel' st
       end.

(* ------------------------------------------------------------------- *)
(** ** RootTransformer: the parts that do not recurse *)

(** [while (currentIndex() < fieldRanges[fieldIndex].end) removeToken()] *)
Fixpoint removeFieldTokens (fuel : nat) (rangeEnd : nat) (st : St) : Result St :=
  if currentIndex (tokensOf st) <? rangeEnd then
    match fuel with
    | 0 => OutOfFuel
    | S fuel' =>
        let* st := onTokens (removeToken E) st in
        removeFieldTokens fuel' rangeEnd st
    end
  else OK st.

(** The two [if / else if] statements at the head of the body of the loop of
    [processBalancedCode]. *)
Definition braceStep (tp : TokenProcessor) (braceDepth : nat) : Depth :=
  if matches1 tp tt.braceL || matches1 tp tt.dollarBraceL then Continue (braceDepth + 1)
  else if matches1 tp tt.braceR then
    if braceDepth =? 0 then Return else Continue (braceDepth - 1)
  else Continue braceDepth.

Definition parenStep (tp : TokenProcessor) (parenDepth : nat) : Depth :=
  if matches1 tp tt.parenL then Continue (parenDepth + 1)
  else if matches1 tp tt.parenR then
    if parenDepth =? 0 then Return else Continue (parenDepth - 1)
  else Continue parenDepth.

(** [for (const transformer of this.transformers)] in [processToken], with
    [JSXTransformer.process] passed in. *)
Fixpoint dispatch (processJSX : St -> Result (bool * St)) (ts : list Transformer)
    (st : St) : Result St :=
  match ts with
  | [] => onTokens copyToken st
  | transformer :: rest =>
      let* r := match transformer with
                | JSXTransformer => processJSX st
                | _ => processOther E transformer st
                end in
      if r.1 then OK r.2 else dispatch processJSX rest r.2
  end.

(** The constructor synthesized by [processClassBody]. *)
Definition synthesizedConstructor (classInfo : ClassInfo) (st : St) : St :=
  match constructorInsertPos classInfo with
  | None =>
      if 0 <? length (initializerStatements classInfo) then
        let initializersCode := join (str ";") (initializerStatements classInfo) in
        if hasSuperclass (headerInfo classInfo) then
          let '(argsName, nm) := claimFreeName E (str "args") (nameManager st) in
          append (with_nameManager st nm)
            (str "constructor(..." ++ argsName ++ str ") { super(..." ++ argsName
               ++ str "); " ++ initializersCode ++ str "; }")
        else
          append st (str "constructor() { " ++ initializersCode ++ str "; }")
      else st
  | Some _ => st
  end.

(* ------------------------------------------------------------------- *)
(** ** The mutually recursive walk

    Every function takes [fuel], the number of nested calls and loop
    iterations it may still make. *)

Fixpoint processBalancedCode_loop (fuel : nat) (braceDepth parenDepth : nat) (st : St)
    {struct fuel} : Result St :=
  match fuel with
  | 0 => OutOfFuel
  | S fuel' =>
      if isAtEnd (tokensOf st) then OK st
      else
        match braceStep (tokensOf st) braceDepth with
        | Return => OK st
        | Continue braceDepth =>
            match parenStep (tokensOf st) parenDepth with
            | Return => OK st
            | Continue parenDepth =>
                let* st := processToken fuel' st in
                processBalancedCode_loop fuel' braceDepth parenDepth st
            end
        end
  end

with processToken (fuel : nat) (st : St) {struct fuel} : Result St :=
  match fuel with
  | 0 => OutOfFuel
  | S fuel' =>
      if matches1 (tokensOf st) tt._class then processClass fuel' st
      else
        dispatch
          (fun st =>
             if matches1 (tokensOf st) tt.jsxTagStart then
               let* st := processJSXTag fuel' st in OK (true, st)
             else OK (false, st))
          (transformers st) st
  end

with processClass (fuel : nat) (st : St) {struct fuel} : Result St :=
  match fuel with
  | 0 => OutOfFuel
  | S fuel' =>
      let* r := getClassInfo E st in
      let classInfo := r.1 in
      let st := r.2 in
      let needsCommaExpression :=
        isExpression (headerInfo classInfo)
        && (0 <? length (staticInitializerSuffixes classInfo)) in
      let named :=
        if needsCommaExpression then
          let '(className, nm) := claimFreeName E (str "_class") (nameManager st) in
          (Some className,
           append (with_generatedVariables (with_nameManager st nm)
                     (generatedVariables st ++ [className]))
                  (str " (" ++ className ++ str " ="))
        else (className (headerInfo classInfo), st) in
      let className := named.1 in
      let st := named.2 in
      let* classToken := currentToken (tokensOf st) in
      match contextId classToken with
      | None => Throw (Error "Expected class to have a context ID.")
      | Some contextId =>
          let* st := onTokens (fun tp => copyExpectedToken tp tt._class) st in
          let* st := processClass_header fuel' contextId st in
          let* st := processClassBody fuel' classInfo st in
          let staticInitializerStatements :=
            List.map (fun suffix => template className ++ suffix)
              (staticInitializerSuffixes classInfo) in
          if needsCommaExpression then
            OK (append st (str ", " ++ join (str ", ") staticInitializerStatements
                             ++ str ", " ++ template className ++ str ")"))
          else if 0 <? length (staticInitializerSuffixes classInfo) then
            OK (append st (str " " ++ join (str "; ") staticInitializerStatements
                             ++ str ";"))
          else OK st
      end
  end

(** [while (!matchesContextIdAndLabel(tt.braceL, contextId)) processToken()] *)
with processClass_header (fuel : nat) (contextId : nat) (st : St) {struct fuel}
    : Result St :=
  match fuel with
  | 0 => OutOfFuel
  | S fuel' =>
      if matchesContextIdAndLabel (tokensOf st) tt.braceL contextId then OK st
      else
        let* st := processToken fuel' st in
        processClass_header fuel' contextId st
  end

with processClassBody (fuel : nat) (classInfo : ClassInfo) (st : St) {struct fuel}
    : Result St :=
  match fuel with
  | 0 => OutOfFuel
  | S fuel' =>
      let* token := currentToken (tokensOf st) in
      match contextId token with
      | None => Throw (Error "Expected non-null context ID on class.")
      | Some classContextId =>
          let* st := onTokens (fun tp => copyExpectedToken tp tt.braceL) st in
          let st := synthesizedConstructor classInfo st in
          let* st := processClassBody_loop fuel' classInfo classContextId 0 st in
          onTokens (fun tp => copyExpectedToken tp tt.braceR) st
      end
  end

(** [while (!matchesContextIdAndLabel(tt.braceR, classContextId)) { ... }] *)
with processClassBody_loop (fuel : nat) (classInfo : ClassInfo) (classContextId : nat)
    (fieldIndex : nat) (st : St) {struct fuel} : Result St :=
  match fuel with
  | 0 => OutOfFuel
  | S fuel' =>
      if matchesContextIdAndLabel (tokensOf st) tt.braceR classContextId then OK st
      else
        let atField :=
          match fieldRanges classInfo !! fieldIndex with
          | Some range =>
              if currentIndex (tokensOf st) =? range_start range then Some range else None
          | None => None
          end in
        match atField with
        | Some range =>
            let* st := onTokens (removeInitialToken E) st in
            let* st := removeFieldTokens fuel' (range_end range) st in
            processClassBody_loop fuel' classInfo classContextId (fieldIndex + 1) st
        | None =>
            if bool_decide (constructorInsertPos classInfo
                            = Some (currentIndex (tokensOf st))) then
              let* st := onTokens copyToken st in
              let st :=
                if 0 <? length (initializerStatements classInfo) then
                  append st (str ";" ++ join (str ";") (initializerStatements classInfo)
                               ++ str ";")
                else st in
              let* st := processToken fuel' st in
              processClassBody_loop fuel' classInfo classContextId fieldIndex st
            else
              let* st := processToken fuel' st in
              processClassBody_loop fuel' classInfo classContextId fieldIndex st
        end
  end

with processJSXTag (fuel : nat) (st : St) {struct fuel} : Result St :=
  match fuel with
  | 0 => OutOfFuel
  | S fuel' =>
      let resolvedReactName :=
        orElse (getIdentifierReplacement E (importProcessor st) (str "React"))
               (str "React") in
      let* token := currentToken (tokensOf st) in
      let firstTokenStart := start token in
      let* st :=
        onTokens (fun tp => replaceToken tp (resolvedReactName ++ str ".createElement(")) st in
      let* st := processTagIntro fuel' st in
      let* st := processProps fuel' firstTokenStart st in
      if matches2 (tokensOf st) tt.slash tt.jsxTagEnd then
        let* st := onTokens (fun tp => replaceToken tp []) st in
        onTokens (fun tp => replaceToken tp (str ")")) st
      else if matches1 (tokensOf st) tt.jsxTagEnd then
        let* st := onTokens (fun tp => replaceToken tp []) st in
        let* st := processChildren fuel' st in
        let* st := skipToTagEnd fuel' st in
        onTokens (fun tp => replaceToken tp (str ")")) st
      else Throw (Error "Expected either /> or > at the end of the tag.")
  end

with processTagIntro (fuel : nat) (st : St) {struct fuel} : Result St :=
  match fuel with
  | 0 => OutOfFuel
  | S fuel' =>
      let* introEnd :=
        processTagIntro_scan fuel' (tokensOf st) (currentIndex (tokensOf st) + 1) in
      let* st := processTagIntro_name introEnd st in
      processTagIntro_loop fuel' introEnd st
  end

(** [while (this.tokens.currentIndex() < introEnd) processToken()] *)
with processTagIntro_loop (fuel : nat) (introEnd : nat) (st : St) {struct fuel}
    : Result St :=
  match fuel with
  | 0 => OutOfFuel
  | S fuel' =>
      if currentIndex (tokensOf st) <? introEnd then
        let* st := processToken fuel' st in
        processTagIntro_loop fuel' introEnd st
      else OK st
  end

with processProps (fuel : nat) (firstTokenStart : nat) (st : St) {struct fuel}
    : Result St :=
  match fuel with
  | 0 => OutOfFuel
  | S fuel' =>
      let '(lineNumber, st) := getLineNumberForIndex firstTokenStart st in
      let '(fileName, st) := getFilenameVarName st in
      let devProps :=
        str "__self: this, __source: {fileName: " ++ fileName ++ str ", lineNumber: "
          ++ number_to_string lineNumber ++ str "}" in
      if negb (matches1 (tokensOf st) tt.jsxName) && negb (matches1 (tokensOf st) tt.braceL)
      then OK (append st (str ", {" ++ devProps ++ str "}"))
      else
        let st := append st (str ", {") in
        let* st := processProps_loop fuel' st in
        OK (append st (str " " ++ devProps ++ str "}"))
  end

(** [while (true) { ... }] in [processProps] *)
with processProps_loop (fuel : nat) (st : St) {struct fuel} : Result St :=
  match fuel with
  | 0 => OutOfFuel
  | S fuel' =>
      if matches2 (tokensOf st) tt.jsxName tt.eq then
        let* keyName := identifierName (tokensOf st) in
        let* st :=
          if includes keyName c_dash then
            onTokens (fun tp => replaceToken tp (str "'" ++ keyName ++ str "'")) st
          else onTokens copyToken st in
        let* st := onTokens (fun tp => replaceToken tp (str ": ")) st in
        let* st :=
          if matches1 (tokensOf st) tt.braceL then
            let* st := onTokens (fun tp => replaceToken tp []) st in
            let* st := processBalancedCode_loop fuel' 0 0 st in
            onTokens (fun tp => replaceToken tp []) st
          else processStringPropValue st in
        processProps_loop fuel' (append st (str ","))
      else if matches1 (tokensOf st) tt.jsxName then
        let* st := onTokens copyToken st in
        let st := append st (str ": true") in
        processProps_loop fuel' (append st (str ","))
      else if matches1 (tokensOf st) tt.braceL then
        let* st := onTokens (fun tp => replaceToken tp []) st in
        let* st := processBalancedCode_loop fuel' 0 0 st in
        let* st := onTokens (fun tp => replaceToken tp []) st in
        processProps_loop fuel' (append st (str ","))
      else OK st
  end

(** [while (true) { ... }] in [processChildren] *)
with processChildren (fuel : nat) (st : St) {struct fuel} : Result St :=
  match fuel with
  | 0 => OutOfFuel
  | S fuel' =>
      if matches2 (tokensOf st) tt.jsxTagStart tt.slash then OK st
      else if matches1 (tokensOf st) tt.braceL then
        if matches2 (tokensOf st) tt.braceL tt.braceR then
          let* st := onTokens (fun tp => replaceToken tp []) st in
          let* st := onTokens (fun tp => replaceToken tp []) st in
          processChildren fuel' st
        else
          let* st := onTokens (fun tp => replaceToken tp (str ", ")) st in
          let* st := processBalancedCode_loop fuel' 0 0 st in
          let* st := onTokens (fun tp => replaceToken tp []) st in
          processChildren fuel' st
      else if matches1 (tokensOf st) tt.jsxTagStart then
        let st := append st (str ", ") in
        let* st := processJSXTag fuel' st in
        processChildren fuel' st
      else if matches1 (tokensOf st) tt.jsxText then
        let* st := processChildTextElement st in
        processChildren fuel' st
      else Throw (Error "Unexpected token when processing JSX children.")
  end.

(** [processBalancedCode]: the loop entered with both depths at zero. *)
Definition processBalancedCode (fuel : nat) (st : St) : Result St :=
  processBalancedCode_loop fuel 0 0 st.

(** [JSXTransformer.process] *)
Definition process_JSX (fuel : nat) (st : St) : Result (bool * St) :=
  if matches1 (tokensOf st) tt.jsxTagStart then
    let* st := processJSXTag fuel st in OK (true, st)
  else OK (false, st).

Definition processNamedClass (fuel : nat) (st : St) : Result (jsstring * St) :=
  if negb (matches2 (tokensOf st) tt._class tt.name) then
    Throw (Error "Expected identifier for exported class name.")
  else
    let* name := identifierNameAtIndex (tokensOf st) (currentIndex (tokensOf st) + 1) in
    let* st := processClass fuel st in
    OK (name, st).

(* ------------------------------------------------------------------- *)
(** ** Output assembly *)

Definition getPrefixCode (st : St) (t : Transformer) : jsstring :=
  match t with
  | JSXTransformer => getPrefixCode_JSX st
  | _ => getPrefixCodeOther E t st
  end.

(** [JSXTransformer] does not override [getSuffixCode]. *)
Definition getSuffixCode (st : St) (t : Transformer) : jsstring :=
  getSuffixCodeOther E t st.

Definition useStrict : jsstring := [c_quote] ++ str "use strict" ++ [c_quote] ++ str ";".

Definition isImportTransformer (t : Transformer) : bool :=
  bool_decide (t = ImportTransformer).

(** [prefix] as [transform] has built it when it calls [finish]. *)
Definition prefixCode (st : St) : jsstring :=
  (if existsb isImportTransformer (transformers st) then useStrict else [])
  ++ concat (List.map (getPrefixCode st) (transformers st))
  ++ concat (List.map (fun v => str " var " ++ v ++ str ";") (generatedVariables st)).

Definition suffixCode (st : St) : jsstring :=
  concat (List.map (getSuffixCode st) (transformers st)).

(** The [if (code.startsWith("#!"))] branch of [transform]. *)
Definition afterShebang (code prefix suffix : jsstring) : jsstring :=
  let '(newlineIndex, code) :=
    match indexOf code c_lf with
    | None => (length code, code ++ [c_lf])
    | Some k => (k, code)
    end in
  slice code 0 (newlineIndex + 1) ++ prefix ++ substr code (newlineIndex + 1) ++ suffix.

Definition transform (fuel : nat) (st : St) : Result jsstring :=
  let st := with_tokens st (reset (tokensOf st)) in
  let* st := processBalancedCode fuel st in
  let prefix := prefixCode st in
  let suffix := suffixCode st in
  let* finished := finish E (tokensOf st) in
  let code := finished.1 in
  if startsWith code (str "#!") then OK (afterShebang code prefix suffix)
  else
    let* finished := finish E finished.2 in
    OK (prefix ++ finished.1 ++ suffix).
End Run.

(* ===================================================================== *)
(** * Binding atoms and lists (sucrase-babylon/parser/lval.ts) *)
(* ===================================================================== *)

(** The global parser [state]: the two fields [lval.ts] reads and writes, and
    the rest (input, position, ...), which only the tokenizer touches. *)
Record ParserState {Rest : Type} := {
  state_type : TokenType;
  state_tokens : list Token;
  state_rest : Rest
}.
Arguments ParserState : clear implicits.

Definition set_type {Rest} (st : ParserState Rest) (t : TokenType) : ParserState Rest :=
  {| state_type := t; state_tokens := state_tokens st; state_rest := state_rest st |}.

Definition set_tokens {Rest} (st : ParserState Rest) (ts : list Token) : ParserState Rest :=
  {| state_type := state_type st; state_tokens := ts; state_rest := state_rest st |}.

Definition set_identifierRole (role : IdentifierRole) (t : Token) : Token :=
  {| type := type t; start := start t; end_ := end_ t; contextId := contextId t;
     isType := isType t; identifierRole := Some role |}.

Definition set_isType (b : bool) (t : Token) : Token :=
  {| type := type t; start := start t; end_ := end_ t; contextId := contextId t;
     isType := b; identifierRole := identifierRole t |}.

(** [state.tokens[state.tokens.length - 1].field = value]: a TypeError when
    there is no token yet. *)
Definition updateLastToken {Rest} (f : Token -> Token) (st : ParserState Rest)
    : Result (ParserState Rest) :=
  match length (state_tokens st) with
  | 0 => Throw TypeError
  | S k => OK (set_tokens st (alter f k (state_tokens st)))
  end.

Inductive ContextualKeyword : Type := _readonly.

(** The functions [lval.ts] imports, taken as parameters. *)
Record ParserEnv := {
  Rest : Type;
  next : ParserState Rest -> Result (ParserState Rest);
  eat : TokenType -> ParserState Rest -> Result (bool * ParserState Rest);
  matchType : TokenType -> ParserState Rest -> bool;
  expect : TokenType -> ParserState Rest -> Result (ParserState Rest);
  (** the error [unexpected()] raises *)
  unexpected : ParserState Rest -> JSError;
  runInTypeContext : nat -> (ParserState Rest -> Result (ParserState Rest)) ->
                     ParserState Rest -> Result (ParserState Rest);
  parseIdentifier : ParserState Rest -> Result (ParserState Rest);
  (** [parseMaybeAssign(noIn?)] *)
  parseMaybeAssign : option bool -> ParserState Rest -> Result (ParserState Rest);
  (** [parseObj(isPattern, isBlockScope)] *)
  parseObj : bool -> bool -> ParserState Rest -> Result (ParserState Rest);
  hasPlugin : string -> ParserState Rest -> bool;
  flowParseAssignableListItemTypes : ParserState Rest -> Result (ParserState Rest);
  tsParseAssignableListItemTypes : ParserState Rest -> Result (ParserState Rest);
  tsParseAccessModifier : ParserState Rest -> Result (ParserState Rest);
  tsParseModifier : list ContextualKeyword -> ParserState Rest -> Result (ParserState Rest)
}.

Definition PState (P : ParserEnv) : Type := ParserState (Rest P).

Definition roleOf (isBlockScope : bool) : IdentifierRole :=
  if isBlockScope then BlockScopedDeclaration else FunctionScopedDeclaration.

Section Lval.
Variable P : ParserEnv.
Local Abbreviation PS := (PState P).

Definition parseSpread (st : PS) : Result PS :=
  let* st := next P st in
  parseMaybeAssign P (Some false) st.

Definition parseBindingIdentifier (st : PS) : Result PS :=
  parseIdentifier P st.

Definition parseAssignableListItemTypes (st : PS) : Result PS :=
  if hasPlugin P "flow" st then flowParseAssignableListItemTypes P st
  else if hasPlugin P "typescript" st then tsParseAssignableListItemTypes P st
  else OK st.

(** The [else] branch of [if (first)] in [parseBindingList]: the comma, and
    the mark on it after a [this] type. *)
Definition expectComma (hasRemovedComma : bool) (firstItemTokenIndex : nat) (st : PS)
    : Result (bool * PS) :=
  let* st := expect P tt.comma st in
  if hasRemovedComma then OK (hasRemovedComma, st)
  else
    match state_tokens st !! firstItemTokenIndex with
    | None => Throw TypeError
    | Some firstItem =>
        if isType firstItem then
          let* st := updateLastToken (set_isType true) st in OK (true, st)
        else OK (hasRemovedComma, st)
    end.

Fixpoint parseBindingAtom (fuel : nat) (isBlockScope : bool) (st : PS) {struct fuel}
    : Result PS :=
  match fuel with
  | 0 => OutOfFuel
  | S fuel' =>
      match state_type st with
      | tt._this => runInTypeContext P 0 (fun st => next P st) st
      | tt._yield | tt.name =>
          let st := set_type st tt.name in
          let* st := parseBindingIdentifier st in
          updateLastToken (set_identifierRole (roleOf isBlockScope)) st
      | tt.bracketL =>
          let* st := next P st in
          parseBindingList fuel' tt.bracketR isBlockScope true None st
      | tt.braceL => parseObj P true isBlockScope st
      | _ => Throw (unexpected P st)
      end
  end

with parseRest (fuel : nat) (isBlockScope : bool) (st : PS) {struct fuel} : Result PS :=
  match fuel with
  | 0 => OutOfFuel
  | S fuel' =>
      let* st := next P st in
      parseBindingAtom fuel' isBlockScope st
  end

with parseBindingList (fuel : nat) (close : TokenType) (isBlockScope : bool)
    (allowEmpty : bool) (allowModifiers : option bool) (st : PS) {struct fuel}
    : Result PS :=
  match fuel with
  | 0 => OutOfFuel
  | S fuel' =>
      parseBindingList_loop fuel' close isBlockScope allowEmpty allowModifiers
        true false (length (state_tokens st)) st
  end

(** [while (!eat(close)) { ... }] with the locals [first], [hasRemovedComma]
    and [firstItemTokenIndex] *)
with parseBindingList_loop (fuel : nat) (close : TokenType) (isBlockScope : bool)
    (allowEmpty : bool) (allowModifiers : option bool)
    (first hasRemovedComma : bool) (firstItemTokenIndex : nat) (st : PS) {struct fuel}
    : Result PS :=
  match fuel with
  | 0 => OutOfFuel
  | S fuel' =>
      let* eaten := eat P close st in
      let st := eaten.2 in
      if eaten.1 then OK st
      else
        let* r := if first then OK (hasRemovedComma, st)
                  else expectComma hasRemovedComma firstItemTokenIndex st in
        let hasRemovedComma := r.1 in
        let st := r.2 in
        if allowEmpty && matchType P tt.comma st then
          parseBindingList_loop fuel' close isBlockScope allowEmpty allowModifiers
            false hasRemovedComma firstItemTokenIndex st
        else
          let* eaten := eat P close st in
          let st := eaten.2 in
          if eaten.1 then OK st
          else if matchType P tt.ellipsis st then
            let* st := parseRest fuel' isBlockScope st in
            let* st := parseAssignableListItemTypes st in
            expect P close st
          else
            let* st := parseAssignableListItem fuel' allowModifiers isBlockScope st in
            parseBindingList_loop fuel' close isBlockScope allowEmpty allowModifiers
              false hasRemovedComma firstItemTokenIndex st
  end

with parseAssignableListItem (fuel : nat) (allowModifiers : option bool)
    (isBlockScope : bool) (st : PS) {struct fuel} : Result PS :=
  match fuel with
  | 0 => OutOfFuel
  | S fuel' =>
      let* st :=
        if default false allowModifiers then
          let* st := tsParseAccessModifier P st in
          tsParseModifier P [_readonly] st
        else OK st in
      let* st := parseMaybeDefault fuel' isBlockScope false st in
      let* st := parseAssignableListItemTypes st in
      parseMaybeDefault fuel' isBlockScope true st
  end

with parseMaybeDefault (fuel : nat) (isBlockScope : bool) (leftAlreadyParsed : bool)
    (st : PS) {struct fuel} : Result PS :=
  match fuel with
  | 0 => OutOfFuel
  | S fuel' =>
      let* st := if negb leftAlreadyParsed then parseBindingAtom fuel' isBlockScope st
                 else OK st in
      let* eaten := eat P tt.eq st in
      if negb eaten.1 then OK eaten.2
      else parseMaybeAssign P None eaten.2
  end.
End Lval.

(* ===================================================================== *)
(** * Vocabulary of the specification *)
(* ===================================================================== *)

(** ** Text runs *)

(** The reference after the [&] that precedes index [k] is not resolved:
    [processEntity] answers a literal [&] and hands back the index it was
    given. *)
Definition unresolvedAt (table : EntityTable) (text : jsstring) (k : nat) : Prop :=
  processEntity table text k = OK {| entity := [c_amp]; newI := k |}.

(** A character the normalisation treats as ordinary text. *)
Definition plainChar (c : char) : bool :=
  negb (char_eqb c c_space || char_eqb c c_tab || char_eqb c c_cr
        || char_eqb c c_lf || char_eqb c c_amp).

(** Number of occurrences of a character in a text. *)
Definition countOf (c : char) (text : jsstring) : nat := count_occ N.eq_dec text c.

(** Number of spaces that end the text. *)
Fixpoint leadingSpaces (text : jsstring) : nat :=
  match text with
  | c :: rest => if char_eqb c c_space then S (leadingSpaces rest) else 0
  | [] => 0
  end.
Definition trailingSpaces (text : jsstring) : nat := leadingSpaces (rev text).

(** The filler the specification describes: the run's line feeds, then its
    trailing spaces. *)
Definition fillerOfSpec (text : jsstring) : jsstring :=
  repeat_char c_lf (countOf c_lf text) ++ repeat_char c_space (trailingSpaces text).

(** ** The balanced walk *)

Section WalkSpec.
Variable E : Env.

(** [visits st heads st']: starting in [st], one call of [processToken] per
    element of [heads] (the states in which the calls were made) leads to
    [st']. *)
Inductive visits : RunState E -> list (RunState E) -> RunState E -> Prop :=
  | visits_done st : visits st [] st
  | visits_token st fuel st1 heads st' :
      processToken E fuel st = OK st1 ->
      visits st1 heads st' ->
      visits st (st :: heads) st'.

Definition isBraceOpener (st : RunState E) : bool :=
  matches1 (tokensOf st) tt.braceL || matches1 (tokensOf st) tt.dollarBraceL.
Definition isBraceCloser (st : RunState E) : bool := matches1 (tokensOf st) tt.braceR.
Definition isParenOpener (st : RunState E) : bool := matches1 (tokensOf st) tt.parenL.
Definition isParenCloser (st : RunState E) : bool := matches1 (tokensOf st) tt.parenR.

Definition count (p : RunState E -> bool) (heads : list (RunState E)) : Z :=
  Z.of_nat (length (List.filter p heads)).

(** Nesting depth relative to the level at entry, after the walk has looked
    at the tokens under the cursor in [heads]. *)
Definition braceDepthAfter (heads : list (RunState E)) : Z :=
  (count isBraceOpener heads - count isBraceCloser heads)%Z.
Definition parenDepthAfter (heads : list (RunState E)) : Z :=
  (count isParenOpener heads - count isParenCloser heads)%Z.

(** The walk is over in [st]: no token is left, or the token under the cursor
    is a closer that would take its depth below the level at entry. *)
Definition walkEnds (braceDepth parenDepth : Z) (st : RunState E) : bool :=
  isAtEnd (tokensOf st)
  || (isBraceCloser st && (braceDepth =? 0)%Z)
  || (isParenCloser st && (parenDepth =? 0)%Z).
End WalkSpec.

(** ** A whole run *)

(** Modelled from the spec: [index.ts] is not among the sources.  A run
    builds the orchestrator from the configuration and then asks it for the
    rewritten text (specification, 2 and 4.3). *)
Definition run {E : Env} (sucraseContext : SucraseContext E) (transforms : list Transform)
    (filePath : option jsstring) (fuel : nat) : Result jsstring :=
  let* rootTransformer := RootTransformer_new sucraseContext transforms filePath in
  transform E fuel rootTransformer.

(** The value a call returned, or [d] when it did not return. *)
Definition resultOr {A : Type} (d : A) (m : Result A) : A :=
  match m with
  | OK a => a
  | _ => d
  end.

(** ** Collaborators that only ever add output *)

(** [st'] has emitted what [st] had, and possibly more. *)
Definition extends {NM IP PV} (st st' : State NM IP PV) : Prop :=
  resultCode (tokensOf st) `prefix_of` resultCode (tokensOf st').

(** The editor offers no operation that takes emitted text back: the
    collaborators that are parameters here are assumed to respect that. *)
Record AppendOnly (E : Env) : Prop := {
  getClassInfo_extends : forall st ci st',
    getClassInfo E st = OK (ci, st') -> extends st st';
  processOther_extends : forall t st b st',
    processOther E t st = OK (b, st') -> extends st st';
  removeInitialToken_extends : forall tp tp',
    removeInitialToken E tp = OK tp' -> resultCode tp `prefix_of` resultCode tp';
  removeToken_extends : forall tp tp',
    removeToken E tp = OK tp' -> resultCode tp `prefix_of` resultCode tp'
}.

(** ** A concrete set of collaborators

    The simplest collaborators, for running the model: names are handed out
    as asked for, no import is tracked, the class information is given, no
    other transformer claims a token or injects text, removed tokens emit
    nothing, and [finish] returns what was emitted followed by the source text
    after the last token. *)
Definition sourceTail (tp : TokenProcessor) : jsstring :=
  substr (code tp)
    (match tokenIndex tp with
     | 0 => 0
     | S k => match tokens tp !! k with Some prev => end_ prev | None => 0 end
     end).

Definition plainEnv (classInfo : ClassInfo) : Env :=
  {| NameManager := unit;
     ImportProcessor := unit;
     Private := unit;
     XHTMLEntities := XHTMLEntities_spec;
     lowerOther := fun c => [c];
     claimFreeName := fun name nm => (name, nm);
     getIdentifierReplacement := fun _ _ => None;
     getClassInfo := fun st => OK (classInfo, st);
     processOther := fun _ st => OK (false, st);
     getPrefixCodeOther := fun _ _ => [];
     getSuffixCodeOther := fun _ _ => [];
     removeInitialToken := fun tp => replaceToken tp [];
     removeToken := fun tp => let* _ := currentToken tp in OK (emitted tp [] 1);
     finish := fun tp => OK (resultCode tp ++ sourceTail tp, tp) |}.

Definition noClassInfo : ClassInfo :=
  {| headerInfo := {| isExpression := false; className := None; hasSuperclass := false |};
     constructorInsertPos := None;
     initializerStatements := [];
     staticInitializerSuffixes := [];
     fieldRanges := [] |}.

(** A token of the given type over the source range [[a, b)]. *)
Definition tok (t : TokenType) (a b : nat) : Token :=
  {| type := t; start := a; end_ := b; contextId := None; isType := false;
     identifierRole := None |}.

Definition tokIn (id : nat) (t : TokenType) (a b : nat) : Token :=
  {| type := t; start := a; end_ := b; contextId := Some id; isType := false;
     identifierRole := None |}.

Definition cursorOn (source : string) (ts : list Token) : TokenProcessor :=
  {| code := str source; tokens := ts; resultCode := []; tokenIndex := 0 |}.

(** A run in progress: the cursor as given, nothing else done yet. *)
Definition plainState (classInfo : ClassInfo) (ts : list Transformer) (tp : TokenProcessor)
    : RunState (plainEnv classInfo) :=
  {| tokensOf := tp; nameManager := (); importProcessor := (); private := ();
     transformers := ts; generatedVariables := []; lastLineNumber := 1; lastIndex := 0;
     filenameVarName := None; filePath := None |}.

Definition startState (classInfo : ClassInfo) (transforms : list Transform)
    (source : string) (ts : list Token) : Result (RunState (plainEnv classInfo)) :=
  RootTransformer_new
    (Build_SucraseContext (plainEnv classInfo) (cursorOn source ts) () () ())
    transforms None.

(** A tokenizer stub for [lval.ts]: [next] and [parseIdentifier] record the
    current token and move to the next type of a given list. *)
Definition listParser : ParserEnv :=
  {| Rest := list TokenType;
     next := fun st =>
       OK {| state_type := hd (tt.other 0) (state_rest st);
             state_tokens := state_tokens st ++ [tok (state_type st) 0 0];
             state_rest := tl (state_rest st) |};
     eat := fun t st =>
       if bool_decide (state_type st = t) then
         OK (true, {| state_type := hd (tt.other 0) (state_rest st);
                      state_tokens := state_tokens st ++ [tok (state_type st) 0 0];
                      state_rest := tl (state_rest st) |})
       else OK (false, st);
     matchType := fun t st => bool_decide (state_type st = t);
     expect := fun t st =>
       if bool_decide (state_type st = t) then
         OK {| state_type := hd (tt.other 0) (state_rest st);
               state_tokens := state_tokens st ++ [tok (state_type st) 0 0];
               state_rest := tl (state_rest st) |}
       else Throw (SyntaxError (length (state_tokens st)));
     unexpected := fun st => SyntaxError (length (state_tokens st));
     runInTypeContext := fun _ f st => f st;
     parseIdentifier := fun st =>
       OK {| state_type := hd (tt.other 0) (state_rest st);
             state_tokens := state_tokens st ++ [tok tt.name 0 0];
             state_rest := tl (state_rest st) |};
     parseMaybeAssign := fun _ st => OK st;
     parseObj := fun _ _ st => OK st;
     hasPlugin := fun _ _ => false;
     flowParseAssignableListItemTypes := fun st => OK st;
     tsParseAssignableListItemTypes := fun st => OK st;
     tsParseAccessModifier := fun st => OK st;
     tsParseModifier := fun _ st => OK st |}.

(** ** Inputs on which the model is run *)

(** The parser on a token of type [t], followed by [=]. *)
Definition bindingStart (t : TokenType) : PState listParser :=
  {| state_type := t; state_tokens := []; state_rest := [tt.eq] |}.

(** [<a>{}</a>], the cursor on the opening brace of the child. *)
Definition emptyChild : RunState (plainEnv noClassInfo) :=
  plainState noClassInfo [JSXTransformer]
    {| code := str "<a>{}</a>";
       tokens := [tok tt.jsxTagStart 0 1; tok tt.jsxName 1 2; tok tt.jsxTagEnd 2 3;
                  tok tt.braceL 3 4; tok tt.braceR 4 5;
                  tok tt.jsxTagStart 5 6; tok tt.slash 6 7; tok tt.jsxName 7 8;
                  tok tt.jsxTagEnd 8 9];
       resultCode := str "React.createElement('a', {}";
       tokenIndex := 3 |}.

(** A self-closing tag with a name of three letters, the cursor on the name. *)
Definition tagName (source : string) : RunState (plainEnv noClassInfo) :=
  plainState noClassInfo
    [NumericSeparatorTransformer; OptionalCatchBindingTransformer; JSXTransformer;
     ReactDisplayNameTransformer]
    {| code := str source;
       tokens := [tok tt.jsxTagStart 0 1; tok tt.jsxName 1 4; tok tt.slash 4 5;
                  tok tt.jsxTagEnd 5 6];
       resultCode := str "React.createElement(";
       tokenIndex := 1 |}.

(** A script that starts with a shebang line, set up with [imports]. *)
Definition shebangSource : RunState (plainEnv noClassInfo) :=
  resultOr (plainState noClassInfo [] (cursorOn "" []))
    (startState noClassInfo [imports] "#!/usr/bin/env node
x" [tok tt.name 20 21]).

(** What [getClassInfo] finds in [class A extends B { x = 1; y = 2; }]. *)
Definition derivedClassInfo : ClassInfo :=
  {| headerInfo := {| isExpression := false; className := Some (str "A");
                      hasSuperclass := true |};
     constructorInsertPos := None;
     initializerStatements := [str "this.x = 1"; str "this.y = 2"];
     staticInitializerSuffixes := [];
     fieldRanges := [{| range_start := 5; range_end := 9 |};
                     {| range_start := 9; range_end := 13 |}] |}.

(** [class A extends B { x = 1; y = 2; }], the cursor on the opening brace. *)
Definition derivedClassBody : RunState (plainEnv derivedClassInfo) :=
  plainState derivedClassInfo [NumericSeparatorTransformer; OptionalCatchBindingTransformer]
    {| code := str "class A extends B { x = 1; y = 2; }";
       tokens := [tokIn 1 tt._class 0 5; tok tt.name 6 7; tok (tt.other 0) 8 15;
                  tok tt.name 16 17; tokIn 1 tt.braceL 18 19;
                  tok tt.name 20 21; tok tt.eq 22 23; tok (tt.other 1) 24 25;
                  tok (tt.other 2) 25 26;
                  tok tt.name 27 28; tok tt.eq 29 30; tok (tt.other 1) 31 32;
                  tok (tt.other 2) 32 33;
                  tokIn 1 tt.braceR 34 35];
       resultCode := str "class A extends B";
       tokenIndex := 4 |}.

(** What [getClassInfo] finds in [class { static y = 1 }] used as a value. *)
Definition classExpressionInfo : ClassInfo :=
  {| headerInfo := {| isExpression := true; className := None; hasSuperclass := false |};
     constructorInsertPos := None;
     initializerStatements := [];
     staticInitializerSuffixes := [str ".y = 1"];
     fieldRanges := [{| range_start := 4; range_end := 8 |}] |}.

(** [x = class { static y = 1 }], the cursor on [class]. *)
Definition classExpression : RunState (plainEnv classExpressionInfo) :=
  plainState classExpressionInfo [NumericSeparatorTransformer; OptionalCatchBindingTransformer]
    {| code := str "x = class { static y = 1 }";
       tokens := [tok tt.name 0 1; tok tt.eq 2 3; tokIn 1 tt._class 4 9;
                  tokIn 1 tt.braceL 10 11; tok (tt.other 3) 12 18; tok tt.name 19 20;
                  tok tt.eq 21 22; tok (tt.other 1) 23 24; tokIn 1 tt.braceR 25 26];
       resultCode := str "x =";
       tokenIndex := 2 |}.

(** [<p>a b  </p>], the cursor on the text. *)
Definition textChild : RunState (plainEnv noClassInfo) :=
  plainState noClassInfo [JSXTransformer]
    {| code := str "<p>a b  </p>";
       tokens := [tok tt.jsxTagStart 0 1; tok tt.jsxName 1 2; tok tt.jsxTagEnd 2 3;
                  tok tt.jsxText 3 8; tok tt.jsxTagStart 8 9; tok tt.slash 9 10;
                  tok tt.jsxName 10 11; tok tt.jsxTagEnd 11 12];
       resultCode := str "React.createElement('p', {}";
       tokenIndex := 3 |}.

(** Brackets that balance, and one closing brace too many. *)
Definition walkStart : RunState (plainEnv noClassInfo) :=
  plainState noClassInfo [NumericSeparatorTransformer; OptionalCatchBindingTransformer]
    (cursorOn "{ f( ${ } ) } }"
       [tok tt.braceL 0 1; tok tt.name 2 3; tok tt.parenL 3 4; tok tt.dollarBraceL 5 7;
        tok tt.braceR 8 9; tok tt.parenR 10 11; tok tt.braceR 12 13; tok tt.braceR 14 15]).

(* ===================================================================== *)
(** * Further functions of the three files and of the JSX tokenizer *)
(* ===================================================================== *)

(** ** RootTransformer.processPossibleTypeRange *)

Section TypeRange.
Variable E : Env.

(** [while (this.tokens.currentToken().isType) this.tokens.removeToken()] *)
Fixpoint removeTypeTokens (fuel : nat) (st : RunState E) {struct fuel}
    : Result (RunState E) :=
  let* token := currentToken (tokensOf st) in
  if isType token then
    match fuel with
    | 0 => OutOfFuel
    | S fuel' =>
        let* st := onTokens (removeToken E) st in
        removeTypeTokens fuel' st
    end
  else OK st.

Definition processPossibleTypeRange (fuel : nat) (st : RunState E)
    : Result (bool * RunState E) :=
  let* token := currentToken (tokensOf st) in
  if isType token then
    let* st := onTokens (removeInitialToken E) st in
    let* st := removeTypeTokens fuel st in
    OK (true, st)
  else OK (false, st).
End TypeRange.

(** ** The JSX tokenizer (sucrase-babylon/plugins/jsx/index.ts) *)

Definition c_lessThan : char := 60%N.
Definition c_leftCurlyBrace : char := 123%N.
Definition c_quotationMark : char := 34%N.
Definition c_apostrophe : char := 39%N.

(** The tokenizer's view of the parser: the input, [state.pos] and
    [state.start], and the rest of the state (the current token, the tokens
    read so far, ...), which only the functions that are not among the sources
    read and write. *)
Record LexState {Rest : Type} := {
  input : jsstring;
  pos : nat;
  lex_start : nat;
  lex_rest : Rest
}.
Arguments LexState : clear implicits.

Definition set_pos {Rest} (st : LexState Rest) (p : nat) : LexState Rest :=
  {| input := input st; pos := p; lex_start := lex_start st; lex_rest := lex_rest st |}.

Definition set_start {Rest} (st : LexState Rest) (p : nat) : LexState Rest :=
  {| input := input st; pos := pos st; lex_start := p; lex_rest := lex_rest st |}.

Definition set_rest {Rest} (st : LexState Rest) (r : Rest) : LexState Rest :=
  {| input := input st; pos := pos st; lex_start := lex_start st; lex_rest := r |}.

(** The functions that the three readers of [jsx/index.ts] and
    [nextJSXExprToken] import or inherit, taken as parameters.  [None] as a
    character code is the [NaN] that [charCodeAt] answers past the end of the
    input. *)
Record LexerEnv := {
  LexRest : Type;
  (** [finishToken(type, val?)] *)
  finishToken : TokenType -> option jsstring -> LexState LexRest -> Result (LexState LexRest);
  (** [getTokenFromCode(code)] *)
  getTokenFromCode : char -> LexState LexRest -> Result (LexState LexRest);
  isIdentifierChar : option char -> bool;
  (** what [state.tokens.push(new Token(state))] leaves in the rest of the
      state *)
  pushToken : LexState LexRest -> LexRest
}.

Definition LState (L : LexerEnv) : Type := LexState (LexRest L).

Section JSXTokenizer.
Variable L : LexerEnv.

(** The [for (;;)] loop of [jsxReadToken].  [pos >= input.length] is the
    case in which the input has no character at [pos]; [raise(pos, message)]
    throws a syntax error at [pos], here with the message "Unterminated JSX
    contents". *)
Fixpoint jsxReadToken_loop (fuel : nat) (st : LState L) {struct fuel}
    : Result (LState L) :=
  match input st !! pos st with
  | None => Throw (SyntaxError (lex_start st))
  | Some ch =>
      if char_eqb ch c_lessThan || char_eqb ch c_leftCurlyBrace then
        if pos st =? lex_start st then
          if char_eqb ch c_lessThan then
            finishToken L tt.jsxTagStart None (set_pos st (pos st + 1))
          else getTokenFromCode L ch st
        else finishToken L tt.jsxText None st
      else
        match fuel with
        | 0 => OutOfFuel
        | S fuel' => jsxReadToken_loop fuel' (set_pos st (pos st + 1))
        end
  end.

(** Every round of the loop moves [pos] forward, so it makes at most
    [input.length - pos] rounds. *)
Definition jsxReadToken (st : LState L) : Result (LState L) :=
  jsxReadToken_loop (length (input st) - pos st) st.

(** The [for (;;)] loop of [jsxReadString]; the error is "Unterminated
    string constant". *)
Fixpoint jsxReadString_loop (fuel : nat) (quote : char) (st : LState L) {struct fuel}
    : Result (LState L) :=
  match input st !! pos st with
  | None => Throw (SyntaxError (lex_start st))
  | Some ch =>
      if char_eqb ch quote then OK (set_pos st (pos st + 1))
      else
        match fuel with
        | 0 => OutOfFuel
        | S fuel' => jsxReadString_loop fuel' quote (set_pos st (pos st + 1))
        end
  end.

Definition jsxReadString (quote : char) (st : LState L) : Result (LState L) :=
  let st := set_pos st (pos st + 1) in
  let* st := jsxReadString_loop (length (input st) - pos st) quote st in
  finishToken L tt.string None st.

(** The [do { ch = input.charCodeAt(++pos) } while (...)] loop of
    [jsxReadWord]. *)
Fixpoint jsxReadWord_loop (fuel : nat) (st : LState L) {struct fuel}
    : Result (LState L) :=
  match fuel with
  | 0 => OutOfFuel
  | S fuel' =>
      let st := set_pos st (pos st + 1) in
      let ch := input st !! pos st in
      if isIdentifierChar L ch || bool_decide (ch = Some c_dash)
      then jsxReadWord_loop fuel' st
      else OK st
  end.

Definition jsxReadWord (fuel : nat) (st : LState L) : Result (LState L) :=
  let start := pos st in
  let* st := jsxReadWord_loop fuel st in
  finishToken L tt.jsxName (Some (slice (input st) start (pos st))) st.

Definition nextJSXExprToken (st : LState L) : Result (LState L) :=
  let st := set_rest st (pushToken L st) in
  let st := set_start st (pos st) in
  jsxReadToken st.
End JSXTokenizer.

(* ===================================================================== *)
(** * Vocabulary of the further properties *)
(* ===================================================================== *)

(** The condition of the loop of [jsxReadWord]. *)
Definition isWordChar (L : LexerEnv) (ch : option char) : bool :=
  isIdentifierChar L ch || bool_decide (ch = Some c_dash).

(** The characters at which [jsxReadToken] stops. *)
Definition endsText (c : char) : bool :=
  char_eqb c c_lessThan || char_eqb c c_leftCurlyBrace.

(** White space inside a line, and white space, as [formatJSXTextLiteral]
    tells them apart. *)
Definition isLineSpace (c : char) : bool :=
  char_eqb c c_space || char_eqb c c_tab || char_eqb c c_cr.

Definition isTextSpace (c : char) : bool := isLineSpace c || char_eqb c c_lf.

(** Where the source consumed so far ends: the end of the token before the
    cursor. *)
Definition consumedEnd (tp : TokenProcessor) : nat :=
  match tokenIndex tp with
  | 0 => 0
  | S k => match tokens tp !! k with Some prev => end_ prev | None => 0 end
  end.

(** The tokens lie in the source one after the other. *)
Definition inSourceOrder (ts : list Token) : Prop :=
  (forall k t, ts !! k = Some t -> start t <= end_ t)
  /\ (forall k t u, ts !! k = Some t -> ts !! (k + 1) = Some u -> end_ t <= start u).

(** No transformer has anything to do with a token of this kind: it does not
    start a class or a JSX element, and the transformers that are parameters
    decline it and leave the run as it is. *)
Definition leftAlone (E : Env) (token : Token) : Prop :=
  type token <> tt._class /\ type token <> tt.jsxTagStart
  /\ forall t (st : RunState E),
       currentToken (tokensOf st) = OK token -> processOther E t st = OK (false, st).

(** From [st] to [st'] nothing has happened but copying: the cursor has moved
    on, and the source between the two places where the consumed source ends
    has been emitted as it stands. *)
Definition copiedUpTo {NM IP PV} (st st' : State NM IP PV) : Prop :=
  consumedEnd (tokensOf st) <= consumedEnd (tokensOf st')
  /\ tokenIndex (tokensOf st) <= tokenIndex (tokensOf st')
  /\ st' = with_tokens st
             (emitted (tokensOf st)
                (slice (code (tokensOf st)) (consumedEnd (tokensOf st))
                   (consumedEnd (tokensOf st')))
                (tokenIndex (tokensOf st') - tokenIndex (tokensOf st))).

(** [transformer.process()] in the loop of [processToken], with
    [JSXTransformer.process] passed in as in [dispatch]. *)
Definition processOf (E : Env) (processJSX : RunState E -> Result (bool * RunState E))
    (t : Transformer) (st : RunState E) : Result (bool * RunState E) :=
  match t with
  | JSXTransformer => processJSX st
  | _ => processOther E t st
  end.

(** The order in which the constructor of [RootTransformer] looks at the
    transformer classes. *)
Definition constructionOrder : list Transformer :=
  [NumericSeparatorTransformer; OptionalCatchBindingTransformer; JSXTransformer;
   ReactDisplayNameTransformer; ImportTransformer; FlowTransformer; TypeScriptTransformer].

(** [tp'] reads the same source and tokens as [tp], with the cursor where it
    was or further. *)
Definition advances (tp tp' : TokenProcessor) : Prop :=
  code tp' = code tp /\ tokens tp' = tokens tp /\ tokenIndex tp <= tokenIndex tp'.

Definition forward {NM IP PV} (st st' : State NM IP PV) : Prop :=
  advances (tokensOf st) (tokensOf st').

(** The collaborators that are parameters leave source and tokens alone and
    never move the cursor back. *)
Record Forward (E : Env) : Prop := {
  getClassInfo_advances : forall st ci st',
    getClassInfo E st = OK (ci, st') -> advances (tokensOf st) (tokensOf st');
  processOther_advances : forall t st b st',
    processOther E t st = OK (b, st') -> advances (tokensOf st) (tokensOf st');
  removeInitialToken_advances : forall tp tp',
    removeInitialToken E tp = OK tp' -> advances tp tp';
  removeToken_advances : forall tp tp',
    removeToken E tp = OK tp' -> advances tp tp'
}.

(** Every token that declares a name declares it with the role [r]. *)
Definition declaresOnly (r : IdentifierRole) (t : Token) : Prop :=
  identifierRole t = None \/ identifierRole t = Some Access \/ identifierRole t = Some r.

Definition rolesAre {Rest} (r : IdentifierRole) (st : ParserState Rest) : Prop :=
  Forall (declaresOnly r) (state_tokens st).

(** The functions that [lval.ts] imports keep that: none of them gives a
    token another declaration role.  [parseObj] is asked to for the patterns
    it parses with the same scope. *)
Record KeepsRoles (P : ParserEnv) (isBlockScope : bool) : Prop := {
  next_keeps : forall st st',
    next P st = OK st' -> rolesAre (roleOf isBlockScope) st ->
    rolesAre (roleOf isBlockScope) st';
  eat_keeps : forall t st b st',
    eat P t st = OK (b, st') -> rolesAre (roleOf isBlockScope) st ->
    rolesAre (roleOf isBlockScope) st';
  expect_keeps : forall t st st',
    expect P t st = OK st' -> rolesAre (roleOf isBlockScope) st ->
    rolesAre (roleOf isBlockScope) st';
  runInTypeContext_keeps : forall n f st st',
    (forall s s', f s = OK s' -> rolesAre (roleOf isBlockScope) s ->
                  rolesAre (roleOf isBlockScope) s') ->
    runInTypeContext P n f st = OK st' -> rolesAre (roleOf isBlockScope) st ->
    rolesAre (roleOf isBlockScope) st';
  parseIdentifier_keeps : forall st st',
    parseIdentifier P st = OK st' -> rolesAre (roleOf isBlockScope) st ->
    rolesAre (roleOf isBlockScope) st';
  parseMaybeAssign_keeps : forall noIn st st',
    parseMaybeAssign P noIn st = OK st' -> rolesAre (roleOf isBlockScope) st ->
    rolesAre (roleOf isBlockScope) st';
  parseObj_keeps : forall isPattern st st',
    parseObj P isPattern isBlockScope st = OK st' -> rolesAre (roleOf isBlockScope) st ->
    rolesAre (roleOf isBlockScope) st';
  flowParseAssignableListItemTypes_keeps : forall st st',
    flowParseAssignableListItemTypes P st = OK st' -> rolesAre (roleOf isBlockScope) st ->
    rolesAre (roleOf isBlockScope) st';
  tsParseAssignableListItemTypes_keeps : forall st st',
    tsParseAssignableListItemTypes P st = OK st' -> rolesAre (roleOf isBlockScope) st ->
    rolesAre (roleOf isBlockScope) st';
  tsParseAccessModifier_keeps : forall st st',
    tsParseAccessModifier P st = OK st' -> rolesAre (roleOf isBlockScope) st ->
    rolesAre (roleOf isBlockScope) st';
  tsParseModifier_keeps : forall ms st st',
    tsParseModifier P ms st = OK st' -> rolesAre (roleOf isBlockScope) st ->
    rolesAre (roleOf isBlockScope) st'
}.

(** A tokenizer stub for running the JSX tokenizer: a finished token is
    recorded with its type, its value and the range it covers. *)
Definition plainLexer : LexerEnv :=
  {| LexRest := list (TokenType * option jsstring * nat * nat);
     finishToken := fun t v st =>
       OK (set_rest st (lex_rest st ++ [(t, v, lex_start st, pos st)]));
     getTokenFromCode := fun _ st =>
       OK (set_rest (set_pos st (pos st + 1))
             (lex_rest st ++ [(tt.braceL, None, lex_start st, pos st + 1)]));
     isIdentifierChar := fun c =>
       match c with
       | Some c => ((48 <=? c) && (c <=? 57) || (65 <=? c) && (c <=? 90)
                    || (97 <=? c) && (c <=? 122) || (c =? 95) || (c =? 36))%N
       | None => false
       end;
     pushToken := fun st => lex_rest st |}.

Definition lexerOn (source : string) (p : nat) : LState plainLexer :=
  {| input := str source; pos := p; lex_start := p; lex_rest := [] |}.

(** ** Further inputs on which the model is run *)

(** [<p>], a line break, two spaces, [</p>]: the cursor on the text. *)
Definition blankChild : RunState (plainEnv noClassInfo) :=
  plainState noClassInfo [JSXTransformer]
    {| code := str "<p>" ++ [c_lf; c_space; c_space] ++ str "</p>";
       tokens := [tok tt.jsxTagStart 0 1; tok tt.jsxName 1 2; tok tt.jsxTagEnd 2 3;
                  tok tt.jsxText 3 6; tok tt.jsxTagStart 6 7; tok tt.slash 7 8;
                  tok tt.jsxName 8 9; tok tt.jsxTagEnd 9 10];
       resultCode := str "React.createElement('p', {}";
       tokenIndex := 3 |}.

(** [a + (b)] with the cursor on the first token. *)
Definition sumSource : RunState (plainEnv noClassInfo) :=
  plainState noClassInfo [NumericSeparatorTransformer; OptionalCatchBindingTransformer]
    (cursorOn "a + (b)"
       [tok tt.name 0 1; tok (tt.other 0) 2 3; tok tt.parenL 4 5; tok tt.name 5 6;
        tok tt.parenR 6 7]).

(** Two lines and then [<c/>], the first JSX element of the run; nothing has
    been asked about lines yet. *)
Definition thirdLine : RunState (plainEnv noClassInfo) :=
  plainState noClassInfo [JSXTransformer]
    {| code := str "a" ++ [c_lf] ++ str "b" ++ [c_lf] ++ str "<c/>";
       tokens := [tok tt.name 0 1; tok tt.name 2 3; tok tt.jsxTagStart 4 5;
                  tok tt.jsxName 5 6; tok tt.slash 6 7; tok tt.jsxTagEnd 7 8];
       resultCode := [];
       tokenIndex := 2 |}.

(** [<a b='x "y"'/>], the cursor on the value of the attribute. *)
Definition quotedValue : RunState (plainEnv noClassInfo) :=
  plainState noClassInfo [JSXTransformer]
    {| code := str "<a b='x " ++ [c_quote] ++ str "y" ++ [c_quote] ++ str "'/>";
       tokens := [tok tt.jsxTagStart 0 1; tok tt.jsxName 1 2; tok tt.jsxName 3 4;
                  tok tt.eq 4 5; tok tt.string 5 12; tok tt.slash 12 13;
                  tok tt.jsxTagEnd 13 14];
       resultCode := str "React.createElement('a', {b: ";
       tokenIndex := 4 |}.

(** [<ui.Box p/>], the cursor on [ui]. *)
Definition memberTag : RunState (plainEnv noClassInfo) :=
  plainState noClassInfo [JSXTransformer]
    {| code := str "<ui.Box p/>";
       tokens := [tok tt.jsxTagStart 0 1; tok tt.jsxName 1 3; tok tt.dot 3 4;
                  tok tt.jsxName 4 7; tok tt.jsxName 8 9; tok tt.slash 9 10;
                  tok tt.jsxTagEnd 10 11];
       resultCode := str "React.createElement(";
       tokenIndex := 1 |}.

(** [<a><b/>t</a>], the cursor on the first token. *)
Definition nestedTag : RunState (plainEnv noClassInfo) :=
  plainState noClassInfo [JSXTransformer]
    (cursorOn "<a><b/>t</a>"
       [tok tt.jsxTagStart 0 1; tok tt.jsxName 1 2; tok tt.jsxTagEnd 2 3;
        tok tt.jsxTagStart 3 4; tok tt.jsxName 4 5; tok tt.slash 5 6; tok tt.jsxTagEnd 6 7;
        tok tt.jsxText 7 8;
        tok tt.jsxTagStart 8 9; tok tt.slash 9 10; tok tt.jsxName 10 11;
        tok tt.jsxTagEnd 11 12]).

(** [a: T = 1] with the two tokens of the type annotation marked as type
    tokens; the cursor on the colon. *)
Definition typedField : RunState (plainEnv noClassInfo) :=
  plainState noClassInfo [NumericSeparatorTransformer; OptionalCatchBindingTransformer]
    {| code := str "a: T = 1";
       tokens := [tok tt.name 0 1; set_isType true (tok tt.colon 1 2);
                  set_isType true (tok tt.name 3 4); tok tt.eq 5 6; tok (tt.other 0) 7 8];
       resultCode := str "a";
       tokenIndex := 1 |}.

(** The parser at the start of the pattern [[a, [b], ...c]], which [=]
    follows. *)
Definition nestedPattern : PState listParser :=
  {| state_type := tt.bracketL; state_tokens := [];
     state_rest := [tt.name; tt.comma; tt.bracketL; tt.name; tt.bracketR; tt.comma;
                    tt.ellipsis; tt.name; tt.bracketR; tt.eq] |}.

(** ** Collaborators that claim tokens

    A set of collaborators in which two transformers other than
    [JSXTransformer] claim tokens: the import transformer replaces a token
    whose role is [Access] (as the parser gives the single name of a JSX
    element) by a member of the module object [_m], as it does for a name
    bound by an import, and the TypeScript transformer removes whatever token
    it is shown.  Everything else is as in [plainEnv]. *)
Definition renamingEnv : Env :=
  {| NameManager := unit;
     ImportProcessor := unit;
     Private := unit;
     XHTMLEntities := XHTMLEntities_spec;
     lowerOther := fun c => [c];
     claimFreeName := fun name nm => (name, nm);
     getIdentifierReplacement := fun _ _ => None;
     getClassInfo := fun st => OK (noClassInfo, st);
     processOther := fun t st =>
       match t with
       | ImportTransformer =>
           match tokens (tokensOf st) !! tokenIndex (tokensOf st) with
           | Some token =>
               match identifierRole token with
               | Some Access =>
                   let* tp := replaceToken (tokensOf st)
                                (str "_m." ++ tokenText (tokensOf st) token) in
                   OK (true, with_tokens st tp)
               | _ => OK (false, st)
               end
           | None => OK (false, st)
           end
       | TypeScriptTransformer =>
           let* tp := replaceToken (tokensOf st) [] in OK (true, with_tokens st tp)
       | _ => OK (false, st)
       end;
     getPrefixCodeOther := fun _ _ => [];
     getSuffixCodeOther := fun _ _ => [];
     removeInitialToken := fun tp => replaceToken tp [];
     removeToken := fun tp => let* _ := currentToken tp in OK (emitted tp [] 1);
     finish := fun tp => OK (resultCode tp ++ sourceTail tp, tp) |}.

(** [<Foo/>] with the role the parser gives the name, the cursor on the name,
    and the transformers of a run set up with [jsx], [imports] and
    [typescript]. *)
Definition renamedTag : RunState renamingEnv :=
  {| tokensOf :=
       {| code := str "<Foo/>";
          tokens := [tok tt.jsxTagStart 0 1;
                     {| type := tt.jsxName; start := 1; end_ := 4; contextId := None;
                        isType := false; identifierRole := Some Access |};
                     tok tt.slash 4 5; tok tt.jsxTagEnd 5 6];
          resultCode := str "React.createElement(";
          tokenIndex := 1 |};
     nameManager := (); importProcessor := (); private := ();
     transformers := [NumericSeparatorTransformer; OptionalCatchBindingTransformer;
                      JSXTransformer; ReactDisplayNameTransformer; ImportTransformer;
                      TypeScriptTransformer];
     generatedVariables := []; lastLineNumber := 1; lastIndex := 0;
     filenameVarName := None; filePath := None |}.

(** The parser inside the brackets of [[...a, b]] and of [[...a]], which [=]
    follows. *)
Definition restThenItem : PState listParser :=
  {| state_type := tt.ellipsis; state_tokens := [tok tt.bracketL 0 0];
     state_rest := [tt.name; tt.comma; tt.name; tt.bracketR; tt.eq] |}.

Definition restLast : PState listParser :=
  {| state_type := tt.ellipsis; state_tokens := [tok tt.bracketL 0 0];
     state_rest := [tt.name; tt.bracketR; tt.eq] |}.

(* ===================================================================== *)
(** * Properties *)
(* ===================================================================== *)

(* ===================================================================== *)
(** * Tactics *)
(* ===================================================================== *)

Lemma OK_inj {A : Type} (a b : A) : OK a = OK b -> a = b.
Proof. congruence. Qed.

(** Membership in a list that is written out. *)
Ltac list_mem := repeat first [apply list_elem_of_here | apply list_elem_of_further].
Ltac list_not_mem :=
  let H := fresh in
  intros H; repeat (apply elem_of_cons in H as [H|H]; [discriminate|]);
  apply elem_of_nil in H; exact H.

(** Case analysis on a call that returned: every bind, branch and pair in the
    hypothesis is opened, and the calls that threw are dismissed. *)
Ltac open_call H :=
  repeat
    match type of H with
    | bind ?m _ = OK _ =>
        let Hm := fresh "Hcall" in
        destruct m eqn:Hm; cbn [bind] in H;
        [open_call Hm|discriminate H|discriminate H]
    | (if ?b then _ else _) = OK _ => let Hb := fresh "Hif" in destruct b eqn:Hb
    | (let '(_, _) := ?p in _) = OK _ => let Hp := fresh "Hpair" in destruct p eqn:Hp
    | match ?x with _ => _ end = OK _ =>
        let Hx := fresh "Hcase" in destruct x eqn:Hx; try discriminate H
    | OK _ = OK _ => injection H as H
    | Throw _ = OK _ => discriminate H
    | OutOfFuel = OK _ => discriminate H
    end.

(** Reading a field of an updated run. *)
Ltac fields :=
  cbn [tokensOf nameManager importProcessor private transformers generatedVariables
       lastLineNumber lastIndex filenameVarName filePath with_tokens with_nameManager
       with_generatedVariables with_line with_filenameVarName append appendCode emitted
       code tokens resultCode tokenIndex fst snd] in *.

(* ===================================================================== *)
(** * Entity decoding *)
(* ===================================================================== *)

Section Entities.
Variable table : EntityTable.

(** The scan never looks past the budget. *)
Lemma processEntity_scan_take budget : forall text i s,
  processEntity_scan table budget text i s
  = processEntity_scan table budget (take (i + budget) text) i s.
Proof.
  induction budget as [|b IH]; intros text i s; simpl; [reflexivity|].
  rewrite lookup_take_lt by lia.
  destruct (text !! i) as [ch|]; [|reflexivity].
  destruct (char_eqb ch c_semi); [reflexivity|].
  rewrite (IH text (i + 1)). symmetry.
  rewrite (IH (take (i + S b) text) (i + 1)), take_take.
  replace (min (i + 1 + b) (i + S b)) with (i + 1 + b) by lia.
  reflexivity.
Qed.

(** A [;] within the budget ends the scan, and what stood before it is
    decoded. *)
Lemma processEntity_scan_found name : forall pre post s budget,
  length name < budget ->
  c_semi ∉ name ->
  processEntity_scan table budget (pre ++ name ++ c_semi :: post) (length pre) s
  = (let* e := decodeReference table (s ++ name) in
     OK (e, length pre + length name + 1)).
Proof.
  induction name as [|c name IH]; intros pre post s budget Hlen Hno.
  - destruct budget as [|b]; [simpl in Hlen; lia|].
    simpl. rewrite list_lookup_middle by reflexivity.
    unfold char_eqb. rewrite N.eqb_refl. rewrite app_nil_r.
    replace (length pre + 0 + 1) with (length pre + 1) by lia. reflexivity.
  - destruct budget as [|b]; [simpl in Hlen; lia|].
    simpl. rewrite list_lookup_middle by reflexivity.
    apply not_elem_of_cons in Hno as [Hc Hno].
    unfold char_eqb. destruct (N.eqb_spec c c_semi) as [->|_]; [congruence|].
    specialize (IH (pre ++ [c]) post (s ++ [c]) b).
    rewrite <- !app_assoc in IH. simpl in IH.
    rewrite length_app in IH. simpl in IH.
    rewrite IH; [|simpl in Hlen; lia|assumption].
    simpl. replace (length pre + 1 + length name + 1) with (length pre + S (length name) + 1) by lia.
    reflexivity.
Qed.

(** Without a [;] within the budget nothing is decoded. *)
Lemma processEntity_scan_not_found budget : forall text i s,
  (forall j, i <= j < i + budget -> text !! j <> Some c_semi) ->
  exists i', processEntity_scan table budget text i s = OK (None, i').
Proof.
  induction budget as [|b IH]; intros text i s Hno; simpl; [eauto|].
  destruct (text !! i) as [ch|] eqn:Hch; [|eauto].
  unfold char_eqb. destruct (N.eqb_spec ch c_semi) as [->|_].
  - exfalso. apply (Hno i); [lia|assumption].
  - apply IH. intros j Hj. apply Hno. lia.
Qed.

Lemma unresolved_without_semicolon text i :
  (forall j, i <= j < i + 10 -> text !! j <> Some c_semi) ->
  unresolvedAt table text i.
Proof.
  intros Hno. unfold unresolvedAt, processEntity.
  destruct (processEntity_scan_not_found 10 text i [] Hno) as [i' ->].
  reflexivity.
Qed.

(** An unresolved [&] is handled as one ordinary character. *)
Lemma literal_loop_unresolved fuel text i st :
  text !! i = Some c_amp ->
  unresolvedAt table text (i + 1) ->
  formatJSXTextLiteral_loop table (S fuel) text i st
  = formatJSXTextLiteral_loop table fuel text (i + 1) (emit st [c_amp]).
Proof.
  intros Hc Hun. simpl. rewrite Hc. simpl.
  unfold unresolvedAt in Hun. rewrite Hun. simpl.
  replace (i + 1 - 1 + 1) with (i + 1) by lia. reflexivity.
Qed.

(** Ordinary characters are appended one by one. *)
Lemma literal_loop_plain seg : forall pre post st fuel,
  forallb plainChar seg = true ->
  whitespace st = [] ->
  isInInitialLineWhitespace st = false ->
  exists st',
    formatJSXTextLiteral_loop table (length seg + fuel) (pre ++ seg ++ post) (length pre) st
    = formatJSXTextLiteral_loop table fuel (pre ++ seg ++ post) (length pre + length seg) st'
    /\ result st' = result st ++ seg
    /\ whitespace st' = []
    /\ isInInitialLineWhitespace st' = false.
Proof.
  induction seg as [|c seg IH]; intros pre post st fuel Hplain Hws Hinit.
  - exists st. simpl. rewrite Nat.add_0_r, app_nil_r. auto.
  - simpl in Hplain. apply andb_true_iff in Hplain as [Hc Hplain].
    specialize (IH (pre ++ [c]) post (emit st [c]) fuel Hplain eq_refl eq_refl).
    destruct IH as (st' & Heq & Hres & Hws' & Hinit').
    exists st'. rewrite <- !app_assoc in Heq. simpl in Heq.
    rewrite length_app in Heq. simpl in Heq.
    split; [|split; [|split]]; try assumption.
    + simpl. rewrite list_lookup_middle by reflexivity.
      unfold plainChar in Hc. apply negb_true_iff in Hc.
      repeat (apply orb_false_iff in Hc as [Hc ?]).
      rewrite Hc. simpl.
      replace (char_eqb c c_tab) with false by congruence.
      replace (char_eqb c c_cr) with false by congruence.
      replace (char_eqb c c_lf) with false by congruence.
      replace (char_eqb c c_amp) with false by congruence.
      simpl. rewrite Heq.
      replace (length pre + 1 + length seg) with (length pre + S (length seg)) by lia.
      reflexivity.
    + rewrite Hres. simpl. unfold flushed. rewrite Hinit, Hws, andb_false_r, app_nil_r.
      rewrite <- app_assoc. reflexivity.
Qed.
End Entities.

Arguments formatJSXTextLiteral_loop : simpl never.

(** The three forms of a reference. *)
Lemma decodeReference_forms (table : EntityTable) :
  (forall digits, DECIMAL_NUMBER digits = true ->
     decodeReference table (c_hash :: digits)
     = (let* e := fromCodePoint (parseInt digits 10) in OK (Some e)))
  /\ (forall digits, HEX_NUMBER digits = true ->
        decodeReference table (c_hash :: c_x :: digits)
        = (let* e := fromCodePoint (parseInt digits 16) in OK (Some e)))
  /\ (forall name, name !! 0 <> Some c_hash ->
        decodeReference table name = OK (table name)).
Proof.
  split; [|split].
  - intros digits Hd. unfold decodeReference. simpl.
    destruct digits as [|d digits]; [discriminate|].
    simpl in Hd. apply andb_true_iff in Hd as [Hd Hds].
    rewrite bool_decide_eq_false_2.
    + unfold substr. simpl. rewrite Hd, Hds. reflexivity.
    + simpl. intros [= ->]. discriminate.
  - intros digits Hd. unfold decodeReference. simpl.
    unfold substr. simpl. rewrite Hd. reflexivity.
  - intros name Hn. unfold decodeReference.
    rewrite bool_decide_eq_false_2 by assumption. reflexivity.
Qed.

(** What [processEntity] answers for a reference whose [;] is within the
    budget, by the form of what stands between the [&] and the [;]. *)
Lemma fromCodePoint_not_empty cp e : fromCodePoint cp = OK e -> falsy (Some e) = false.
Proof.
  unfold fromCodePoint.
  destruct (cp <=? 65535)%N; [intros H; apply OK_inj in H; subst; reflexivity|].
  destruct (cp <=? 1114111)%N; [intros H; apply OK_inj in H; subst; reflexivity|].
  discriminate.
Qed.

Lemma decodeReference_numeric (table : EntityTable) (digits : jsstring) :
  (digits !! 0 <> Some c_x ->
   decodeReference table (c_hash :: digits)
   = if DECIMAL_NUMBER digits
     then let* e := fromCodePoint (parseInt digits 10) in OK (Some e)
     else OK None)
  /\ decodeReference table (c_hash :: c_x :: digits)
     = (if HEX_NUMBER digits
        then let* e := fromCodePoint (parseInt digits 16) in OK (Some e)
        else OK None).
Proof.
  split.
  - intros Hx. unfold decodeReference.
    rewrite bool_decide_eq_true_2 by reflexivity.
    rewrite bool_decide_eq_false_2 by exact Hx.
    reflexivity.
  - unfold decodeReference.
    rewrite bool_decide_eq_true_2 by reflexivity.
    rewrite bool_decide_eq_true_2 by reflexivity.
    reflexivity.
Qed.

Lemma processEntity_found (table : EntityTable) (pre name post : jsstring) :
  length name < 10 -> c_semi ∉ name ->
  processEntity table (pre ++ name ++ c_semi :: post) (length pre)
  = (let* e := decodeReference table name in
     if falsy e then OK {| entity := [c_amp]; newI := length pre |}
     else OK {| entity := default [] e; newI := length pre + length name + 1 |}).
Proof.
  intros Hlen Hno. unfold processEntity.
  rewrite (processEntity_scan_found table name pre post [] 10 Hlen Hno).
  cbn [app]. destruct (decodeReference table name) as [e| |]; reflexivity.
Qed.

Lemma processEntity_number (table : EntityTable) (pre name post digits : jsstring)
    (radix : N) (wellFormed : bool) :
  length name < 10 -> c_semi ∉ name ->
  decodeReference table name
  = (if wellFormed
     then let* e := fromCodePoint (parseInt digits radix) in OK (Some e)
     else OK None) ->
  processEntity table (pre ++ name ++ c_semi :: post) (length pre)
  = if wellFormed
    then let* e := fromCodePoint (parseInt digits radix) in
         OK {| entity := e; newI := length pre + length name + 1 |}
    else OK {| entity := [c_amp]; newI := length pre |}.
Proof.
  intros Hlen Hno Hdecode.
  rewrite processEntity_found by assumption. rewrite Hdecode.
  destruct wellFormed; [|reflexivity].
  destruct (fromCodePoint (parseInt digits radix)) as [e| |] eqn:He; cbn [bind];
    try reflexivity.
  rewrite (fromCodePoint_not_empty _ _ He). reflexivity.
Qed.

(** C1 (amended). A character reference is looked for in the ten characters
    that follow the [&]: the scan depends on no later character.  When a [;]
    stands there, the text between the [&] and the [;] decides the outcome:
    a name that does not begin with [#] stands for its entry in the entity
    table, and is unresolved when the table has no entry (or an empty one) for
    it; [#] and decimal digits, and [#x] and hexadecimal digits, stand for the
    code point the digits denote, and are unresolved when what follows the
    marker is not such a number.  Without a [;] there the reference is
    unresolved.  For an unresolved reference the output gets a literal [&] and
    the loop resumes at the character right after the [&], in the state an
    ordinary character would have left: the characters that were scanned are
    not skipped, they are processed as the text they are.  In particular a run
    of ordinary characters (no white space, no other [&]) around one
    unresolved [&] is reproduced whole in the string literal. *)
Theorem entity_lookahead_and_fallback (table : EntityTable) (text : jsstring) (i : nat) :
  processEntity table text i = processEntity table (take (i + 10) text) i
  /\ (forall pre name post,
        text = pre ++ name ++ c_semi :: post -> i = length pre ->
        length name < 10 -> c_semi ∉ name ->
        processEntity_scan table 10 text i []
        = (let* e := decodeReference table name in OK (e, i + length name + 1))
        /\ (name !! 0 <> Some c_hash ->
            processEntity table text i
            = OK match table name with
                 | Some (c :: e) => {| entity := c :: e; newI := i + length name + 1 |}
                 | _ => {| entity := [c_amp]; newI := i |}
                 end)
        /\ (forall digits,
              name = c_hash :: digits -> digits !! 0 <> Some c_x ->
              processEntity table text i
              = if DECIMAL_NUMBER digits
                then let* e := fromCodePoint (parseInt digits 10) in
                     OK {| entity := e; newI := i + length name + 1 |}
                else OK {| entity := [c_amp]; newI := i |})
        /\ (forall digits,
              name = c_hash :: c_x :: digits ->
              processEntity table text i
              = if HEX_NUMBER digits
                then let* e := fromCodePoint (parseInt digits 16) in
                     OK {| entity := e; newI := i + length name + 1 |}
                else OK {| entity := [c_amp]; newI := i |}))
  /\ ((forall j, i <= j < i + 10 -> text !! j <> Some c_semi) ->
      unresolvedAt table text i)
  /\ (forall fuel st,
        0 < i -> text !! (i - 1) = Some c_amp -> unresolvedAt table text i ->
        formatJSXTextLiteral_loop table (S fuel) text (i - 1) st
        = formatJSXTextLiteral_loop table fuel text i (emit st [c_amp]))
  /\ (forall pre rest,
        text = pre ++ c_amp :: rest -> i = length pre + 1 ->
        forallb plainChar pre = true -> forallb plainChar rest = true ->
        unresolvedAt table text i ->
        formatJSXTextLiteral table text = OK (JSON_stringify text)).
Proof.
  split; [|split; [|split; [|split]]].
  - unfold processEntity. rewrite processEntity_scan_take. reflexivity.
  - intros pre name post -> -> Hlen Hno. split_and!.
    + apply (processEntity_scan_found table name pre post [] 10 Hlen Hno).
    + intros Hname. rewrite processEntity_found by assumption.
      destruct (decodeReference_forms table) as (_ & _ & Hnamed).
      rewrite (Hnamed name Hname). cbn [bind].
      destruct (table name) as [[|c e]|]; reflexivity.
    + intros digits Hdigits Hx.
      apply processEntity_number; [assumption|assumption|].
      rewrite Hdigits. apply decodeReference_numeric. assumption.
    + intros digits Hdigits.
      apply processEntity_number; [assumption|assumption|].
      rewrite Hdigits. apply decodeReference_numeric.
  - apply unresolved_without_semicolon.
  - intros fuel st Hi Hamp Hun.
    replace i with (i - 1 + 1) at 2 by lia.
    apply literal_loop_unresolved; [assumption|].
    replace (i - 1 + 1) with i by lia. assumption.
  - intros pre rest -> -> Hpre Hrest Hun.
    unfold formatJSXTextLiteral, formatJSXTextLiteral_result.
    destruct (literal_loop_plain table pre [] (c_amp :: rest) initialLiteralState
                (S (length rest)) Hpre eq_refl eq_refl)
      as (st1 & Heq1 & Hres1 & Hws1 & Hinit1).
    simpl in Heq1, Hres1.
    rewrite length_app. simpl length.
    rewrite Heq1.
    rewrite (literal_loop_unresolved table (length rest) _ (length pre) st1).
    2:{ rewrite list_lookup_middle; reflexivity. }
    2:{ exact Hun. }
    destruct (literal_loop_plain table rest (pre ++ [c_amp]) [] (emit st1 [c_amp]) 0
                Hrest eq_refl eq_refl)
      as (st2 & Heq2 & Hres2 & Hws2 & Hinit2).
    rewrite app_nil_r, <- app_assoc, Nat.add_0_r, length_app in Heq2.
    simpl in Heq2. rewrite Heq2.
    unfold formatJSXTextLiteral_loop.
    rewrite lookup_ge_None_2 by (rewrite length_app; simpl; lia).
    simpl. rewrite Hinit2, Hws2, Hres2, app_nil_r. simpl.
    unfold flushed. rewrite Hinit1, Hws1, Hres1, andb_false_r, app_nil_r.
    rewrite <- app_assoc. reflexivity.
Qed.

(** C1, as stated, fails: [zzz] is not an entity, so [&zzz;] is unresolved, and
    the four characters the scan consumed are in the string literal. *)
Lemma unresolved_reference_is_reproduced :
  unresolvedAt XHTMLEntities_spec (str "&zzz;") 1
  /\ formatJSXTextLiteral XHTMLEntities_spec (str "&zzz;")
     = OK (JSON_stringify (str "&zzz;"))
  /\ formatJSXTextLiteral XHTMLEntities_spec (str "&zzz;")
     <> OK (JSON_stringify (str "&")).
Proof.
  split; [vm_compute; reflexivity|]. split; [vm_compute; reflexivity|].
  vm_compute. discriminate.
Qed.

(** [&amp;], [&#65;] and [&#x41;] are decoded and [&#6a;] is not; in [&a&amp;]
    the first [&] is unresolved and the reference that follows it among the
    scanned characters is decoded; in [a&bcdefghijkl;] the [;] is out of reach
    and the whole run is kept. *)
Lemma entity_lookahead_and_fallback_witness :
  processEntity XHTMLEntities_spec (str "&amp;") 1 = OK {| entity := str "&"; newI := 5 |}
  /\ processEntity XHTMLEntities_spec (str "&#65;") 1 = OK {| entity := str "A"; newI := 5 |}
  /\ processEntity XHTMLEntities_spec (str "&#x41;") 1 = OK {| entity := str "A"; newI := 6 |}
  /\ unresolvedAt XHTMLEntities_spec (str "&#6a;") 1
  /\ formatJSXTextLiteral XHTMLEntities_spec (str "&a&amp;") = OK (JSON_stringify (str "&a&"))
  /\ formatJSXTextLiteral XHTMLEntities_spec (str "a&bcdefghijkl;")
     = OK (JSON_stringify (str "a&bcdefghijkl;")).
Proof.
  assert (Hno : forall name : jsstring, forallb (fun c => negb (char_eqb c c_semi)) name = true ->
                               c_semi ∉ name).
  { intros name. induction name as [|c name IH]; intros H; [apply not_elem_of_nil|].
    cbn [forallb] in H. apply andb_true_iff in H as [Hc H].
    apply not_elem_of_cons. split; [|apply IH; assumption].
    intros <-. vm_compute in Hc. discriminate. }
  split_and!.
  - destruct (entity_lookahead_and_fallback XHTMLEntities_spec (str "&amp;") 1)
      as (_ & Hforms & _).
    destruct (Hforms (str "&") (str "amp") [] eq_refl eq_refl) as (_ & Hnamed & _);
      [vm_compute; lia|apply Hno; vm_compute; reflexivity|].
    etrans; [apply Hnamed; vm_compute; discriminate|]. vm_compute. reflexivity.
  - destruct (entity_lookahead_and_fallback XHTMLEntities_spec (str "&#65;") 1)
      as (_ & Hforms & _).
    destruct (Hforms (str "&") (str "#65") [] eq_refl eq_refl) as (_ & _ & Hdec & _);
      [vm_compute; lia|apply Hno; vm_compute; reflexivity|].
    etrans; [apply (Hdec (str "65")); [reflexivity|vm_compute; discriminate]|].
    vm_compute. reflexivity.
  - destruct (entity_lookahead_and_fallback XHTMLEntities_spec (str "&#x41;") 1)
      as (_ & Hforms & _).
    destruct (Hforms (str "&") (str "#x41") [] eq_refl eq_refl) as (_ & _ & _ & Hhex);
      [vm_compute; lia|apply Hno; vm_compute; reflexivity|].
    etrans; [apply (Hhex (str "41")); reflexivity|].
    vm_compute. reflexivity.
  - destruct (entity_lookahead_and_fallback XHTMLEntities_spec (str "&#6a;") 1)
      as (_ & Hforms & _).
    destruct (Hforms (str "&") (str "#6a") [] eq_refl eq_refl) as (_ & _ & Hdec & _);
      [vm_compute; lia|apply Hno; vm_compute; reflexivity|].
    unfold unresolvedAt.
    etrans; [apply (Hdec (str "6a")); [reflexivity|vm_compute; discriminate]|].
    vm_compute. reflexivity.
  - destruct (entity_lookahead_and_fallback XHTMLEntities_spec (str "&a&amp;") 1)
      as (_ & Hforms & _ & Hstep & _).
    destruct (Hforms (str "&") (str "a&amp") [] eq_refl eq_refl) as (_ & Hnamed & _);
      [vm_compute; lia|apply Hno; vm_compute; reflexivity|].
    assert (Hun : unresolvedAt XHTMLEntities_spec (str "&a&amp;") 1).
    { unfold unresolvedAt. etrans; [apply Hnamed; vm_compute; discriminate|].
      vm_compute. reflexivity. }
    unfold formatJSXTextLiteral, formatJSXTextLiteral_result.
    replace (length (str "&a&amp;")) with (S 6) by (vm_compute; reflexivity).
    pose proof (Hstep 6 initialLiteralState ltac:(lia) ltac:(vm_compute; reflexivity) Hun)
      as Hfirst.
    change (1 - 1) with 0 in Hfirst. rewrite Hfirst.
    vm_compute. reflexivity.
  - destruct (entity_lookahead_and_fallback XHTMLEntities_spec (str "a&bcdefghijkl;") 2)
      as (_ & _ & _ & _ & Hrep).
    apply (Hrep (str "a") (str "bcdefghijkl;")); vm_compute; reflexivity.
Defined.

(* ===================================================================== *)
(** * The replacement filler *)
(* ===================================================================== *)

Lemma formatJSXTextReplacement_loop_spec (text : jsstring) : forall numNewlines numSpaces,
  exists before line,
    text = before ++ line
    /\ (c_lf ∉ line)
    /\ (before = [] \/ exists b, before = b ++ [c_lf])
    /\ formatJSXTextReplacement_loop text numNewlines numSpaces
       = (numNewlines + countOf c_lf text,
          (match before with [] => numSpaces | _ => 0 end) + countOf c_space line).
Proof.
  induction text as [|c rest IH]; intros nn ns.
  - exists [], []. split_and!; [reflexivity|apply not_elem_of_nil|by left|].
    simpl. unfold countOf. simpl. f_equal; lia.
  - simpl. unfold char_eqb, countOf. simpl.
    destruct (N.eqb_spec c c_lf) as [->|Hlf].
    + destruct (IH (nn + 1) 0) as (before & line & -> & Hline & Hbefore & ->).
      exists (c_lf :: before), line. split_and!; [reflexivity|assumption| |].
      * right. destruct Hbefore as [->|[b ->]]; [exists []|exists (c_lf :: b)]; reflexivity.
      * destruct (N.eq_dec c_lf c_lf) as [_|]; [|congruence].
        unfold countOf. f_equal; [lia|]. destruct before; reflexivity.
    + destruct (N.eq_dec c c_lf) as [|_]; [congruence|].
      destruct (N.eqb_spec c c_space) as [->|Hsp].
      * destruct (IH nn (ns + 1)) as (before & line & Heq & Hline & Hbefore & ->).
        destruct before as [|b0 before].
        -- exists [], (c_space :: line). simpl in Heq. subst rest.
           split_and!; [reflexivity| |by left|].
           ++ apply not_elem_of_cons. split; [discriminate|assumption].
           ++ unfold countOf. simpl. f_equal. lia.
        -- exists (c_space :: b0 :: before), line. subst rest.
           split_and!; [reflexivity|assumption| |reflexivity].
           right. destruct Hbefore as [|[b Hb]]; [discriminate|].
           exists (c_space :: b). simpl. rewrite Hb. reflexivity.
      * destruct (IH nn ns) as (before & line & Heq & Hline & Hbefore & ->).
        destruct before as [|b0 before].
        -- exists [], (c :: line). simpl in Heq. subst rest.
           split_and!; [reflexivity| |by left|].
           ++ apply not_elem_of_cons. split; [congruence|assumption].
           ++ unfold countOf. simpl.
              destruct (N.eq_dec c c_space) as [|_]; [congruence|]. reflexivity.
        -- exists (c :: b0 :: before), line. subst rest.
           split_and!; [reflexivity|assumption| |reflexivity].
           right. destruct Hbefore as [|[b Hb]]; [discriminate|].
           exists (c :: b). simpl. rewrite Hb. reflexivity.
Qed.

(** What a consuming operation of the cursor leaves behind. *)
Lemma replaceToken_OK tp newCode tp' :
  replaceToken tp newCode = OK tp' ->
  exists token, currentToken tp = OK token
    /\ tp' = emitted tp (previousWhitespace tp token ++ newCode) 1.
Proof.
  unfold replaceToken. destruct (currentToken tp) as [token| |]; simpl; try discriminate.
  intros [= <-]. eauto.
Qed.

(** C7 (amended). A text child is replaced by its string literal (after a
    comma, and only when the literal is not empty) followed by the filler; the
    filler is as many line feeds as the run contains, followed by as many
    spaces as the run has space characters after its last line feed, wherever
    on that last line they stand. *)
Theorem text_run_filler (E : Env) (st st' : RunState E) :
  processChildTextElement E st = OK st' ->
  exists token literal before line,
    currentToken (tokensOf st) = OK token
    /\ formatJSXTextLiteral (XHTMLEntities E) (tokenText (tokensOf st) token) = OK literal
    /\ tokenText (tokensOf st) token = before ++ line
    /\ (c_lf ∉ line)
    /\ (before = [] \/ exists b, before = b ++ [c_lf])
    /\ resultCode (tokensOf st')
       = resultCode (tokensOf st) ++ previousWhitespace (tokensOf st) token
         ++ (if jsstring_eqb literal [c_quote; c_quote] then [] else str ", " ++ literal)
         ++ repeat_char c_lf (countOf c_lf (tokenText (tokensOf st) token))
         ++ repeat_char c_space (countOf c_space line)
    /\ tokenIndex (tokensOf st') = tokenIndex (tokensOf st) + 1.
Proof.
  unfold processChildTextElement. intros H.
  destruct (currentToken (tokensOf st)) as [token| |] eqn:Htok; simpl in H; try discriminate.
  fold (tokenText (tokensOf st) token) in H.
  destruct (formatJSXTextLiteral _ _) as [literal| |] eqn:Hlit; simpl in H; try discriminate.
  destruct (formatJSXTextReplacement_loop_spec (tokenText (tokensOf st) token) 0 0)
    as (before & line & Heq & Hline & Hbefore & Hloop).
  exists token, literal, before, line.
  assert (Hfill : formatJSXTextReplacement (tokenText (tokensOf st) token)
                  = repeat_char c_lf (countOf c_lf (tokenText (tokensOf st) token))
                    ++ repeat_char c_space (countOf c_space line)).
  { unfold formatJSXTextReplacement. rewrite Hloop.
    destruct before; reflexivity. }
  rewrite Hfill in H.
  repeat (split; [assumption || reflexivity|]).
  unfold onTokens in H.
  destruct (jsstring_eqb literal [c_quote; c_quote]);
    destruct (replaceToken _ _) as [tp'| |] eqn:Hrep; simpl in H; try discriminate;
    injection H as <-; apply replaceToken_OK in Hrep as (token' & Htok' & ->);
    rewrite Htok in Htok'; injection Htok' as <-; simpl;
    rewrite <- ?app_assoc; auto.
Qed.

(** C7, as stated, fails: the run [a b] ends in no space, yet its filler is
    one space. *)
Lemma filler_counts_inner_spaces :
  formatJSXTextReplacement (str "a b") = [c_space]
  /\ fillerOfSpec (str "a b") = []
  /\ formatJSXTextReplacement (str "a b") <> fillerOfSpec (str "a b").
Proof.
  split; [vm_compute; reflexivity|]. split; [vm_compute; reflexivity|].
  vm_compute. discriminate.
Qed.

(* ===================================================================== *)
(** * Construction of the pipeline *)
(* ===================================================================== *)

Lemma includesTransform_spec transforms t :
  includesTransform transforms t = true <-> t ∈ transforms.
Proof. unfold includesTransform. apply bool_decide_eq_true. Qed.

Lemma registeredTransformers_rejects transforms :
  typescript ∈ transforms -> imports ∉ transforms ->
  registeredTransformers transforms
  = Throw (Error "The TypeScript transform without the import transform is not yet supported.").
Proof.
  intros Hts Him. unfold registeredTransformers.
  apply includesTransform_spec in Hts. rewrite Hts.
  destruct (includesTransform transforms imports) eqn:Himp.
  - apply includesTransform_spec in Himp. contradiction.
  - reflexivity.
Qed.

Lemma registeredTransformers_accepts transforms :
  ~ (typescript ∈ transforms /\ imports ∉ transforms) ->
  exists ts, registeredTransformers transforms = OK ts.
Proof.
  intros Hok. unfold registeredTransformers.
  destruct (includesTransform transforms typescript) eqn:Hts; [|eauto].
  destruct (includesTransform transforms imports) eqn:Himp; [simpl; eauto|].
  exfalso. apply Hok. split.
  - apply includesTransform_spec. assumption.
  - intros Hin. apply includesTransform_spec in Hin. congruence.
Qed.

(** C9. A configuration with [typescript] and without [imports] makes the
    constructor raise its configuration error: no orchestrator exists, so
    a run rewrites no token and returns no text.  Every other configuration is
    accepted, with the cursor as it was handed in. *)
Theorem typescript_requires_imports (E : Env) (sucraseContext : SucraseContext E)
    (transforms : list Transform) (filePath : option jsstring) :
  (typescript ∈ transforms -> imports ∉ transforms ->
     RootTransformer_new sucraseContext transforms filePath
     = Throw (Error "The TypeScript transform without the import transform is not yet supported.")
     /\ forall fuel,
          run sucraseContext transforms filePath fuel
          = Throw (Error "The TypeScript transform without the import transform is not yet supported."))
  /\ (~ (typescript ∈ transforms /\ imports ∉ transforms) ->
      exists st, RootTransformer_new sucraseContext transforms filePath = OK st
                 /\ tokensOf st = tokenProcessor sucraseContext).
Proof.
  split.
  - intros Hts Him. unfold run, RootTransformer_new.
    rewrite (registeredTransformers_rejects _ Hts Him). split; reflexivity.
  - intros Hok. unfold RootTransformer_new.
    destruct (registeredTransformers_accepts _ Hok) as [ts ->]. simpl. eauto.
Qed.

Lemma typescript_requires_imports_witness :
  (forall fuel,
     run (Build_SucraseContext (plainEnv noClassInfo) (cursorOn "let x: number = 1" []) () () ())
       [typescript; jsx] None fuel
     = Throw (Error "The TypeScript transform without the import transform is not yet supported."))
  /\ returns (RootTransformer_new
                (Build_SucraseContext (plainEnv noClassInfo) (cursorOn "let x: number = 1" []) () () ())
                [imports; typescript] None).
Proof.
  split.
  - apply (typescript_requires_imports (plainEnv noClassInfo)
             (Build_SucraseContext (plainEnv noClassInfo) (cursorOn "let x: number = 1" []) () () ())
             [typescript; jsx] None); [list_mem|list_not_mem].
  - destruct (typescript_requires_imports (plainEnv noClassInfo)
             (Build_SucraseContext (plainEnv noClassInfo) (cursorOn "let x: number = 1" []) () () ())
             [imports; typescript] None) as [_ H].
    destruct H as (st & Hst & _); [|exists st; exact Hst].
    intros [_ Hno]. apply Hno. list_mem.
Defined.

(* ===================================================================== *)
(** * Binding atoms *)
(* ===================================================================== *)

Lemma updateLastToken_snoc {Rest} (f : Token -> Token) (st : ParserState Rest) before t :
  state_tokens st = before ++ [t] ->
  updateLastToken f st = OK (set_tokens st (before ++ [f t])).
Proof.
  intros Heq. unfold updateLastToken. rewrite Heq, length_app. simpl.
  replace (length before + 1) with (S (length before)) by lia.
  f_equal. f_equal.
  rewrite alter_app_r_alt by lia. rewrite Nat.sub_diag. reflexivity.
Qed.

Lemma updateLastToken_OK {Rest} (f : Token -> Token) (st st' : ParserState Rest) :
  updateLastToken f st = OK st' ->
  exists before t, state_tokens st = before ++ [t] /\ st' = set_tokens st (before ++ [f t]).
Proof.
  intros H.
  assert (Hts : state_tokens st = [] \/ exists before t, state_tokens st = before ++ [t]).
  { destruct (state_tokens st) as [|t ts _] using rev_ind; eauto. }
  destruct Hts as [Hts|(before & t & Hts)].
  - unfold updateLastToken in H. rewrite Hts in H. discriminate.
  - exists before, t. split; [assumption|].
    rewrite (updateLastToken_snoc f st before t Hts) in H. congruence.
Qed.

(** C8. On an identifier (or [yield]) the atom is the identifier that
    [parseBindingIdentifier] produces, and the call returns exactly the state
    in which that last token carries the role given by [isBlockScope]:
    block-scoped when it is set, function-scoped when it is not.  On a token
    that is none of [this], [yield], an identifier, [[] or [{] the call raises
    the syntax error of [unexpected] and returns no state. *)
Theorem binding_atom_role_and_failure (P : ParserEnv) (fuel : nat) (isBlockScope : bool)
    (st : PState P) :
  (state_type st = tt.name \/ state_type st = tt._yield ->
   forall st',
     parseBindingAtom P (S fuel) isBlockScope st = OK st' <->
     exists st1 before identifier,
       parseIdentifier P (set_type st tt.name) = OK st1
       /\ state_tokens st1 = before ++ [identifier]
       /\ st' = set_tokens st1
                  (before ++ [set_identifierRole
                                (if isBlockScope then BlockScopedDeclaration
                                 else FunctionScopedDeclaration) identifier]))
  /\ (state_type st ∉ [tt._this; tt._yield; tt.name; tt.bracketL; tt.braceL] ->
      parseBindingAtom P (S fuel) isBlockScope st = Throw (unexpected P st)).
Proof.
  split.
  - intros Hname st'.
    assert (Hstep : parseBindingAtom P (S fuel) isBlockScope st
                    = (let* st1 := parseIdentifier P (set_type st tt.name) in
                       updateLastToken (set_identifierRole (roleOf isBlockScope)) st1)).
    { simpl. destruct Hname as [-> | ->]; reflexivity. }
    rewrite Hstep. unfold roleOf. split.
    + intros H. destruct (parseIdentifier P _) as [st1| |]; simpl in H; try discriminate.
      apply updateLastToken_OK in H as (before & t & Hts & ->).
      exists st1, before, t. auto.
    + intros (st1 & before & t & -> & Hts & ->). simpl.
      apply updateLastToken_snoc. assumption.
  - intros Hother. simpl.
    destruct (state_type st); try reflexivity; exfalso; apply Hother; list_mem.
Qed.

Lemma binding_atom_role_and_failure_witness :
  (exists st', parseBindingAtom listParser 1 true (bindingStart tt.name) = OK st'
               /\ (identifierRole <$> state_tokens st' !! 0)
                  = Some (Some BlockScopedDeclaration))
  /\ parseBindingAtom listParser 1 false (bindingStart tt.parenL)
     = Throw (SyntaxError 0).
Proof.
  destruct (binding_atom_role_and_failure listParser 0 true (bindingStart tt.name))
    as [Hname _].
  destruct (binding_atom_role_and_failure listParser 0 false (bindingStart tt.parenL))
    as [_ Hother].
  split.
  - eexists. split.
    + apply Hname; [left; reflexivity|].
      exists (resultOr (bindingStart tt.name)
                (parseIdentifier listParser (set_type (bindingStart tt.name) tt.name))),
        [], (tok tt.name 0 0).
      split_and!; reflexivity.
    + reflexivity.
  - apply Hother. list_not_mem.
Defined.

(* ===================================================================== *)
(** * The cursor *)
(* ===================================================================== *)

Lemma currentToken_lookup tp token :
  tokens tp !! tokenIndex tp = Some token -> currentToken tp = OK token.
Proof. unfold currentToken. intros ->. reflexivity. Qed.

Lemma matches1_lookup tp token t :
  tokens tp !! tokenIndex tp = Some token ->
  matches1 tp t = bool_decide (type token = t).
Proof. unfold matches1. simpl. intros ->. apply andb_true_r. Qed.

Lemma matches2_lookup tp token t1 t2 :
  tokens tp !! tokenIndex tp = Some token ->
  matches2 tp t1 t2
  = bool_decide (type token = t1) && matchesAtIndex tp (tokenIndex tp + 1) [t2].
Proof. unfold matches2. simpl. intros ->. reflexivity. Qed.

Lemma replaceToken_lookup tp token newCode :
  tokens tp !! tokenIndex tp = Some token ->
  replaceToken tp newCode = OK (emitted tp (previousWhitespace tp token ++ newCode) 1).
Proof. intros H. unfold replaceToken. rewrite (currentToken_lookup _ _ H). reflexivity. Qed.

Lemma copyToken_lookup tp token :
  tokens tp !! tokenIndex tp = Some token ->
  copyToken tp = OK (emitted tp (previousWhitespace tp token ++ tokenText tp token) 1).
Proof. intros H. unfold copyToken. rewrite (currentToken_lookup _ _ H). reflexivity. Qed.

Lemma emitted_emitted tp a b n m :
  emitted (emitted tp a n) b m = emitted tp (a ++ b) (n + m).
Proof. unfold emitted. simpl. f_equal; [apply eq_sym, app_assoc|lia]. Qed.

(** After a token has been consumed, the untouched source before the next
    token starts where the consumed token ended. *)
Lemma previousWhitespace_next tp out previous token :
  tokens tp !! tokenIndex tp = Some previous ->
  previousWhitespace (emitted tp out 1) token = slice (code tp) (end_ previous) (start token).
Proof.
  intros H. unfold previousWhitespace. simpl.
  replace (tokenIndex tp + 1) with (S (tokenIndex tp)) by lia.
  rewrite H. reflexivity.
Qed.

(* ===================================================================== *)
(** * JSX children *)
(* ===================================================================== *)

(** C10. A child that is an opening brace directly followed by its closing
    brace adds nothing to the call: both tokens are replaced by the empty text,
    so all that is emitted for the two of them is the source text that stands
    between tokens, and no argument separator; the children that follow are
    processed as they would be without it. *)
Theorem empty_interpolation_adds_no_argument (E : Env) (fuel : nat) (st : RunState E)
    (open close : Token) :
  tokens (tokensOf st) !! tokenIndex (tokensOf st) = Some open ->
  type open = tt.braceL ->
  tokens (tokensOf st) !! (tokenIndex (tokensOf st) + 1) = Some close ->
  type close = tt.braceR ->
  processChildren E (S fuel) st
  = processChildren E fuel
      (with_tokens st
         (emitted (tokensOf st)
            (previousWhitespace (tokensOf st) open
               ++ slice (code (tokensOf st)) (end_ open) (start close))
            2)).
Proof.
  intros Hopen Htopen Hclose Htclose. simpl.
  rewrite (matches2_lookup _ _ _ _ Hopen), (matches1_lookup _ _ _ Hopen), Htopen.
  rewrite (matches2_lookup _ _ _ _ Hopen), Htopen.
  simpl. rewrite Hclose, Htclose. simpl.
  unfold onTokens.
  rewrite (replaceToken_lookup _ _ _ Hopen). simpl.
  assert (Hnext : tokens (emitted (tokensOf st) (previousWhitespace (tokensOf st) open ++ []) 1)
                    !! tokenIndex (emitted (tokensOf st)
                                     (previousWhitespace (tokensOf st) open ++ []) 1)
                  = Some close) by exact Hclose.
  rewrite (replaceToken_lookup _ _ _ Hnext). simpl.
  rewrite (previousWhitespace_next _ _ open close Hopen).
  rewrite emitted_emitted, !app_nil_r. reflexivity.
Qed.

Lemma empty_interpolation_adds_no_argument_witness :
  exists st', processChildren _ 2 emptyChild = OK st'
    /\ resultCode (tokensOf st') = str "React.createElement('a', {}"
    /\ tokenIndex (tokensOf st') = 5.
Proof.
  rewrite (empty_interpolation_adds_no_argument _ 1 emptyChild
             (tok tt.braceL 3 4) (tok tt.braceR 4 5) eq_refl eq_refl eq_refl eq_refl).
  eexists. split; [vm_compute; reflexivity|]. split; reflexivity.
Defined.

(* ===================================================================== *)
(** * The name of a JSX element *)
(* ===================================================================== *)

Lemma processTagIntro_scan_stops fuel tp introEnd :
  introEnds tp introEnd = true -> processTagIntro_scan fuel tp introEnd = OK introEnd.
Proof. intros H. destruct fuel; simpl; rewrite H; reflexivity. Qed.

(** A token that no transformer claims is copied. *)
Lemma dispatch_declined (E : Env) (processJSX : RunState E -> Result (bool * RunState E))
    (st : RunState E) : forall ts,
  processJSX st = OK (false, st) ->
  (forall t, t ∈ ts -> t <> JSXTransformer -> processOther E t st = OK (false, st)) ->
  dispatch E processJSX ts st = onTokens copyToken st.
Proof.
  induction ts as [|t ts IH]; intros HJSX Hother; [reflexivity|].
  simpl.
  assert (Ht : match t with
               | JSXTransformer => processJSX st
               | _ => processOther E t st
               end = OK (false, st)).
  { destruct t; try (apply Hother; [apply list_elem_of_here|discriminate]). exact HJSX. }
  rewrite Ht. simpl. apply IH; [assumption|].
  intros t' Hin. apply Hother. apply list_elem_of_further. assumption.
Qed.






(* ===================================================================== *)
(** * The balanced walk *)
(* ===================================================================== *)

Section Walk.
Variable E : Env.

Lemma matches1_exclusive tp a b :
  matches1 tp a = true -> matches1 tp b = true -> a = b.
Proof.
  unfold matches1. simpl. destruct (tokens tp !! tokenIndex tp) as [t|]; [|discriminate].
  rewrite !andb_true_r. intros Ha Hb.
  apply bool_decide_eq_true in Ha, Hb. congruence.
Qed.

Lemma count_cons (p : RunState E -> bool) st heads :
  count E p (st :: heads) = ((if p st then 1 else 0) + count E p heads)%Z.
Proof. unfold count. simpl. destruct (p st); simpl length; lia. Qed.

Lemma depthAfter_nil : braceDepthAfter E [] = 0%Z /\ parenDepthAfter E [] = 0%Z.
Proof. split; reflexivity. Qed.

(** The counter kept by the loop is the depth counted over the tokens the
    loop has looked at. *)
Lemma braceStep_depth st braceDepth braceDepth' :
  braceStep (tokensOf st) braceDepth = Continue braceDepth' ->
  Z.of_nat braceDepth'
  = (Z.of_nat braceDepth + (if isBraceOpener E st then 1 else 0)
     - (if isBraceCloser E st then 1 else 0))%Z
  /\ (isBraceCloser E st && (Z.of_nat braceDepth =? 0)%Z) = false.
Proof.
  unfold braceStep, isBraceOpener, isBraceCloser.
  destruct (matches1 (tokensOf st) tt.braceL) eqn:HL; simpl.
  - intros [= <-].
    destruct (matches1 (tokensOf st) tt.braceR) eqn:HR.
    + pose proof (matches1_exclusive _ _ _ HL HR). discriminate.
    + split; [lia|reflexivity].
  - destruct (matches1 (tokensOf st) tt.dollarBraceL) eqn:HD; simpl.
    + intros [= <-].
      destruct (matches1 (tokensOf st) tt.braceR) eqn:HR.
      * pose proof (matches1_exclusive _ _ _ HD HR). discriminate.
      * split; [lia|reflexivity].
    + destruct (matches1 (tokensOf st) tt.braceR) eqn:HR.
      * destruct (Nat.eqb_spec braceDepth 0) as [|Hne]; [discriminate|].
        intros [= <-]. split; [lia|]. simpl. apply Z.eqb_neq. lia.
      * intros [= <-]. split; [lia|reflexivity].
Qed.

Lemma braceStep_return st braceDepth :
  braceStep (tokensOf st) braceDepth = Return ->
  (isBraceCloser E st && (Z.of_nat braceDepth =? 0)%Z) = true.
Proof.
  unfold braceStep, isBraceCloser.
  destruct (matches1 (tokensOf st) tt.braceL || matches1 (tokensOf st) tt.dollarBraceL);
    [discriminate|].
  destruct (matches1 (tokensOf st) tt.braceR); [|discriminate].
  destruct (Nat.eqb_spec braceDepth 0) as [->|]; [reflexivity|discriminate].
Qed.

Lemma parenStep_depth st parenDepth parenDepth' :
  parenStep (tokensOf st) parenDepth = Continue parenDepth' ->
  Z.of_nat parenDepth'
  = (Z.of_nat parenDepth + (if isParenOpener E st then 1 else 0)
     - (if isParenCloser E st then 1 else 0))%Z
  /\ (isParenCloser E st && (Z.of_nat parenDepth =? 0)%Z) = false.
Proof.
  unfold parenStep, isParenOpener, isParenCloser.
  destruct (matches1 (tokensOf st) tt.parenL) eqn:HL; simpl.
  - intros [= <-].
    destruct (matches1 (tokensOf st) tt.parenR) eqn:HR.
    + pose proof (matches1_exclusive _ _ _ HL HR). discriminate.
    + split; [lia|reflexivity].
  - destruct (matches1 (tokensOf st) tt.parenR) eqn:HR.
    + destruct (Nat.eqb_spec parenDepth 0) as [|Hne]; [discriminate|].
      intros [= <-]. split; [lia|]. simpl. apply Z.eqb_neq. lia.
    + intros [= <-]. split; [lia|reflexivity].
Qed.

Lemma parenStep_return st parenDepth :
  parenStep (tokensOf st) parenDepth = Return ->
  (isParenCloser E st && (Z.of_nat parenDepth =? 0)%Z) = true.
Proof.
  unfold parenStep, isParenCloser.
  destruct (matches1 (tokensOf st) tt.parenL); [discriminate|].
  destruct (matches1 (tokensOf st) tt.parenR); [|discriminate].
  destruct (Nat.eqb_spec parenDepth 0) as [->|]; [reflexivity|discriminate].
Qed.

(** The loop entered at depths [braceDepth] and [parenDepth]. *)
Lemma processBalancedCode_loop_trace fuel : forall braceDepth parenDepth st st',
  processBalancedCode_loop E fuel braceDepth parenDepth st = OK st' ->
  exists heads,
    visits E st heads st'
    /\ walkEnds E (Z.of_nat braceDepth + braceDepthAfter E heads)
                  (Z.of_nat parenDepth + parenDepthAfter E heads) st' = true
    /\ forall k head, heads !! k = Some head ->
         walkEnds E (Z.of_nat braceDepth + braceDepthAfter E (take k heads))
                    (Z.of_nat parenDepth + parenDepthAfter E (take k heads)) head = false.
Proof.
  induction fuel as [|fuel IH]; intros bd pd st st' H; [discriminate|].
  simpl in H.
  destruct (isAtEnd (tokensOf st)) eqn:Hend.
  { injection H as <-. exists []. split; [constructor|]. split.
    - unfold walkEnds. rewrite Hend. reflexivity.
    - intros k head Hk. destruct k; discriminate. }
  destruct (braceStep (tokensOf st) bd) as [bd'|] eqn:Hb.
  2:{ injection H as <-. exists []. split; [constructor|]. split.
      - destruct depthAfter_nil as [-> ->]. unfold walkEnds.
        rewrite !Z.add_0_r, Hend, (braceStep_return _ _ Hb). reflexivity.
      - intros k head Hk. destruct k; discriminate. }
  destruct (parenStep (tokensOf st) pd) as [pd'|] eqn:Hp.
  2:{ injection H as <-. exists []. split; [constructor|]. split.
      - destruct depthAfter_nil as [-> ->]. unfold walkEnds.
        rewrite !Z.add_0_r, (parenStep_return _ _ Hp). apply orb_true_r.
      - intros k head Hk. destruct k; discriminate. }
  destruct (processToken E fuel st) as [st1| |] eqn:Htok; simpl in H; try discriminate.
  destruct (IH bd' pd' st1 st' H) as (heads & Hvisits & Hstop & Hearlier).
  apply braceStep_depth in Hb as [Hbd Hbnot].
  apply parenStep_depth in Hp as [Hpd Hpnot].
  exists (st :: heads). split; [econstructor; eassumption|].
  assert (Hdepth : forall hs,
    (Z.of_nat bd + braceDepthAfter E (st :: hs) = Z.of_nat bd' + braceDepthAfter E hs)%Z
    /\ (Z.of_nat pd + parenDepthAfter E (st :: hs) = Z.of_nat pd' + parenDepthAfter E hs)%Z).
  { intros hs. unfold braceDepthAfter, parenDepthAfter. rewrite !count_cons. lia. }
  split.
  - destruct (Hdepth heads) as [-> ->]. exact Hstop.
  - intros [|k] head Hk.
    + injection Hk as <-. unfold walkEnds. simpl take.
      destruct depthAfter_nil as [-> ->].
      rewrite !Z.add_0_r, Hend, Hbnot, Hpnot. reflexivity.
    + simpl take. destruct (Hdepth (take k heads)) as [-> ->].
      apply Hearlier. exact Hk.
Qed.

(** In a state that ends the walk the loop returns at once. *)
Lemma processBalancedCode_loop_ends fuel braceDepth parenDepth st :
  walkEnds E (Z.of_nat braceDepth) (Z.of_nat parenDepth) st = true ->
  processBalancedCode_loop E (S fuel) braceDepth parenDepth st = OK st.
Proof.
  intros Hends. cbn [processBalancedCode_loop].
  unfold walkEnds in Hends.
  destruct (isAtEnd (tokensOf st)); [reflexivity|]. cbn [orb] in Hends.
  unfold braceStep, parenStep.
  unfold isBraceCloser, isParenCloser in Hends.
  destruct (matches1 (tokensOf st) tt.braceR) eqn:HR; cbn [andb orb] in Hends.
  - destruct (matches1 (tokensOf st) tt.braceL) eqn:HL;
      [pose proof (matches1_exclusive _ _ _ HL HR); discriminate|].
    destruct (matches1 (tokensOf st) tt.dollarBraceL) eqn:HD;
      [pose proof (matches1_exclusive _ _ _ HD HR); discriminate|].
    cbn [orb].
    destruct (Nat.eqb_spec braceDepth 0) as [->|Hne]; [reflexivity|].
    replace (Z.of_nat braceDepth =? 0)%Z with false in Hends
      by (symmetry; apply Z.eqb_neq; lia).
    cbn [orb] in Hends. apply andb_true_iff in Hends as [Hparen Hzero].
    destruct (matches1 (tokensOf st) tt.parenL) eqn:HPL;
      [pose proof (matches1_exclusive _ _ _ HPL Hparen); discriminate|].
    rewrite Hparen.
    destruct (Nat.eqb_spec parenDepth 0) as [->|Hne']; [reflexivity|].
    apply Z.eqb_eq in Hzero. lia.
  - apply andb_true_iff in Hends as [Hparen Hzero].
    destruct (matches1 (tokensOf st) tt.braceL) eqn:HL;
      [pose proof (matches1_exclusive _ _ _ HL Hparen); discriminate|].
    destruct (matches1 (tokensOf st) tt.dollarBraceL) eqn:HD;
      [pose proof (matches1_exclusive _ _ _ HD Hparen); discriminate|].
    cbn [orb].
    destruct (matches1 (tokensOf st) tt.parenL) eqn:HPL;
      [pose proof (matches1_exclusive _ _ _ HPL Hparen); discriminate|].
    rewrite Hparen.
    destruct (Nat.eqb_spec parenDepth 0) as [->|Hne']; [reflexivity|].
    apply Z.eqb_eq in Hzero. lia.
Qed.

(** In any other state the loop goes on with both counters updated. *)
Lemma processBalancedCode_loop_goes_on braceDepth parenDepth st :
  walkEnds E (Z.of_nat braceDepth) (Z.of_nat parenDepth) st = false ->
  isAtEnd (tokensOf st) = false
  /\ exists braceDepth' parenDepth',
       braceStep (tokensOf st) braceDepth = Continue braceDepth'
       /\ parenStep (tokensOf st) parenDepth = Continue parenDepth'.
Proof.
  unfold walkEnds. intros H.
  apply orb_false_iff in H as [H Hparen]. apply orb_false_iff in H as [Hend Hbrace].
  split; [assumption|].
  unfold braceStep, parenStep, isBraceCloser, isParenCloser in *.
  assert (Hb : exists d, (if matches1 (tokensOf st) tt.braceL
                               || matches1 (tokensOf st) tt.dollarBraceL
                          then Continue (braceDepth + 1)
                          else if matches1 (tokensOf st) tt.braceR
                               then if braceDepth =? 0 then Return
                                    else Continue (braceDepth - 1)
                               else Continue braceDepth) = Continue d).
  { destruct (matches1 (tokensOf st) tt.braceL || matches1 (tokensOf st) tt.dollarBraceL);
      [eauto|].
    destruct (matches1 (tokensOf st) tt.braceR); [|eauto].
    destruct (Nat.eqb_spec braceDepth 0) as [->|]; [discriminate|eauto]. }
  assert (Hp : exists d, (if matches1 (tokensOf st) tt.parenL
                          then Continue (parenDepth + 1)
                          else if matches1 (tokensOf st) tt.parenR
                               then if parenDepth =? 0 then Return
                                    else Continue (parenDepth - 1)
                               else Continue parenDepth) = Continue d).
  { destruct (matches1 (tokensOf st) tt.parenL); [eauto|].
    destruct (matches1 (tokensOf st) tt.parenR); [|eauto].
    destruct (Nat.eqb_spec parenDepth 0) as [->|]; [discriminate|eauto]. }
  destruct Hb as [b Hb], Hp as [p Hp]. exists b, p. split; assumption.
Qed.
End Walk.

(* ===================================================================== *)
(** * Output assembly *)
(* ===================================================================== *)

Lemma char_eqb_eq a b : char_eqb a b = true <-> a = b.
Proof. apply N.eqb_eq. Qed.

Lemma indexOf_None s c : indexOf s c = None -> c ∉ s.
Proof.
  induction s as [|x s IH]; simpl; intros H; [apply not_elem_of_nil|].
  destruct (char_eqb x c) eqn:Hx; [discriminate|].
  apply not_elem_of_cons. split.
  - intros ->. unfold char_eqb in Hx. rewrite N.eqb_refl in Hx. discriminate.
  - apply IH. destruct (indexOf s c); [discriminate|reflexivity].
Qed.

Lemma indexOf_Some s c : forall k,
  indexOf s c = Some k ->
  take (k + 1) s = take k s ++ [c] /\ c ∉ take k s.
Proof.
  induction s as [|x s IH]; simpl; intros k H; [discriminate|].
  destruct (char_eqb x c) eqn:Hx.
  - injection H as <-. apply char_eqb_eq in Hx as ->. simpl. rewrite take_0.
    split; [reflexivity|apply not_elem_of_nil].
  - destruct (indexOf s c) as [k'|]; [|discriminate]. injection H as <-.
    destruct (IH k' eq_refl) as [Htake Hno]. simpl. rewrite Htake.
    split; [reflexivity|]. apply not_elem_of_cons. split; [|assumption].
    intros ->. unfold char_eqb in Hx. rewrite N.eqb_refl in Hx. discriminate.
Qed.

Lemma existsb_isImportTransformer ts :
  existsb isImportTransformer ts = bool_decide (ImportTransformer ∈ ts).
Proof.
  induction ts as [|t ts IH]; cbn [existsb].
  - symmetry. apply bool_decide_eq_false_2, not_elem_of_nil.
  - rewrite IH. unfold isImportTransformer.
    destruct (bool_decide_reflect (t = ImportTransformer)) as [->|Hne]; cbn [orb].
    + symmetry. apply bool_decide_eq_true_2, list_elem_of_here.
    + apply bool_decide_ext. rewrite elem_of_cons. intuition congruence.
Qed.

(** The import transformer is registered exactly when [imports] is asked
    for. *)
Lemma import_transformer_registered transforms ts :
  registeredTransformers transforms = OK ts ->
  (ImportTransformer ∈ ts <-> imports ∈ transforms).
Proof.
  unfold registeredTransformers, includesTransform.
  destruct (bool_decide_reflect (imports ∈ transforms)) as [Hin|Hni];
    destruct (bool_decide (jsx ∈ transforms)), (bool_decide (flow ∈ transforms)),
      (bool_decide (typescript ∈ transforms));
    cbn [negb]; intros H; try discriminate; apply OK_inj in H; subst ts;
    (split; [intros Hts|intros Hx]);
    first [ assumption | contradiction | solve [list_mem]
          | exfalso; revert Hts; list_not_mem ].
Qed.

(** The shebang line is cut off after its line feed (one is added when the
    text has none), and the injected text goes between the line and the
    rest. *)
Lemma afterShebang_spec code prefix suffix :
  exists line rest,
    (line ++ rest = code \/ ((c_lf ∉ code) /\ line = code ++ [c_lf] /\ rest = []))
    /\ (exists l, line = l ++ [c_lf] /\ (c_lf ∉ l))
    /\ afterShebang code prefix suffix = line ++ prefix ++ rest ++ suffix.
Proof.
  unfold afterShebang. destruct (indexOf code c_lf) as [k|] eqn:Hk.
  - exists (take (k + 1) code), (drop (k + 1) code). split_and!.
    + left. apply take_drop.
    + exists (take k code). apply indexOf_Some. assumption.
    + unfold slice, substr. rewrite Nat.sub_0_r, drop_0. reflexivity.
  - exists (code ++ [c_lf]), []. split_and!.
    + right. split_and!; [apply indexOf_None; assumption|reflexivity|reflexivity].
    + exists code. split; [reflexivity|apply indexOf_None; assumption].
    + unfold slice, substr. rewrite Nat.sub_0_r, drop_0.
      rewrite take_ge by (rewrite length_app; simpl; lia).
      rewrite drop_ge by (rewrite length_app; simpl; lia).
      reflexivity.
Qed.

(** The first line feed of a text is where its first line ends. *)
Lemma indexOf_first_line line rest :
  c_lf ∉ line -> indexOf (line ++ c_lf :: rest) c_lf = Some (length line).
Proof.
  induction line as [|x line IH]; intros Hno.
  - reflexivity.
  - apply not_elem_of_cons in Hno as [Hx Hno]. cbn [app indexOf length].
    unfold char_eqb. destruct (N.eqb_spec x c_lf) as [Heq|_]; [congruence|].
    rewrite IH by assumption. reflexivity.
Qed.

(** Whether a text starts with [#!] is decided by its first line. *)
Lemma startsWith_first_line line a b :
  startsWith (line ++ c_lf :: a) (str "#!") = startsWith (line ++ c_lf :: b) (str "#!").
Proof.
  change (str "#!") with [35%N; 33%N].
  destruct line as [|x [|y line]]; cbn [app startsWith].
  - reflexivity.
  - destruct (char_eqb x 35%N); reflexivity.
  - destruct (char_eqb x 35%N), (char_eqb y 33%N); cbn [andb]; try reflexivity.
    destruct line; reflexivity.
Qed.

Lemma afterShebang_first_line line rest prefix suffix :
  c_lf ∉ line ->
  afterShebang (line ++ c_lf :: rest) prefix suffix
  = line ++ [c_lf] ++ prefix ++ rest ++ suffix.
Proof.
  intros Hno. unfold afterShebang. rewrite indexOf_first_line by assumption.
  unfold slice, substr. rewrite Nat.sub_0_r, drop_0.
  replace (line ++ c_lf :: rest) with ((line ++ [c_lf]) ++ rest)
    by (rewrite <- app_assoc; reflexivity).
  rewrite take_app_length' by (rewrite length_app; reflexivity).
  rewrite drop_app_length' by (rewrite length_app; reflexivity).
  rewrite <- app_assoc. reflexivity.
Qed.

(** C3. The text a run returns is, in this order: the prologue
    ["use strict";] (a double quote, code unit 34, the words [use strict], a
    double quote and a semicolon) exactly when the import transformer is
    registered, the prefix of every registered transformer in registration
    order, a declaration for every generated variable, the rewritten token
    stream as [finish] returns it, and the suffix of every registered
    transformer in registration order.  When the rewritten stream starts with
    [#!], its first line stays first (ended by a line feed, which is added if
    the stream has none) and what is injected in front follows that line.
    The test is made on the rewritten stream: when that stream still begins
    with the first line of the source, the case is decided by the source, and
    for a source that begins with [#!] the output is that line, what is
    injected in front, the rest of the stream and what is injected behind. *)
Theorem output_assembly (E : Env) (fuel : nat) (st : RunState E) (out : jsstring) :
  transform E fuel st = OK out ->
  exists st1 text tp1,
    processBalancedCode E fuel (with_tokens st (reset (tokensOf st))) = OK st1
    /\ finish E (tokensOf st1) = OK (text, tp1)
    /\ let prologue := 34%N :: str "use strict" ++ [34%N; 59%N] in
       let prefix :=
         (if bool_decide (ImportTransformer ∈ transformers st1) then prologue else [])
         ++ concat (List.map (getPrefixCode E st1) (transformers st1))
         ++ concat (List.map (fun v => str " var " ++ v ++ str ";") (generatedVariables st1)) in
       let suffix := concat (List.map (getSuffixCode E st1) (transformers st1)) in
       (if startsWith text (str "#!") then
          exists line rest,
            (line ++ rest = text \/ ((c_lf ∉ text) /\ line = text ++ [c_lf] /\ rest = []))
            /\ (exists l, line = l ++ [c_lf] /\ (c_lf ∉ l))
            /\ out = line ++ prefix ++ rest ++ suffix
        else
          exists text2 tp2,
            finish E tp1 = OK (text2, tp2) /\ out = prefix ++ text2 ++ suffix)
       /\ (forall line more rest,
             code (tokensOf st) = line ++ c_lf :: more -> c_lf ∉ line ->
             text = line ++ c_lf :: rest ->
             if startsWith (code (tokensOf st)) (str "#!") then
               out = line ++ [c_lf] ++ prefix ++ rest ++ suffix
             else
               exists text2 tp2,
                 finish E tp1 = OK (text2, tp2) /\ out = prefix ++ text2 ++ suffix).
Proof.
  unfold transform. intros H.
  destruct (processBalancedCode E fuel _) as [st1| |] eqn:Hwalk; cbn [bind] in H;
    try discriminate.
  destruct (finish E (tokensOf st1)) as [[text tp1]| |] eqn:Hfin; cbn [bind] in H;
    try discriminate.
  exists st1, text, tp1. split; [reflexivity|]. split; [assumption|].
  cbn zeta. cbn [fst snd] in H.
  unfold prefixCode, suffixCode in H. rewrite existsb_isImportTransformer in H.
  change useStrict with (34%N :: str "use strict" ++ [34%N; 59%N]) in H.
  split.
  - destruct (startsWith text (str "#!")).
    + injection H as <-. apply afterShebang_spec.
    + destruct (finish E tp1) as [[text2 tp2]| |]; cbn [bind] in H; try discriminate.
      injection H as <-. exists text2, tp2. split; reflexivity.
  - intros line more rest Hsource Hline Htext.
    rewrite Hsource, (startsWith_first_line line more rest), <- Htext.
    destruct (startsWith text (str "#!")).
    + injection H as <-. rewrite Htext. apply afterShebang_first_line. assumption.
    + destruct (finish E tp1) as [[text2 tp2]| |]; cbn [bind] in H; try discriminate.
      injection H as <-. exists text2, tp2. split; reflexivity.
Qed.

(** The prologue follows the shebang line of the source. *)
Lemma output_assembly_witness :
  transform _ 5 shebangSource
  = OK (str "#!/usr/bin/env node
" ++ 34%N :: str "use strict" ++ [34%N; 59%N] ++ str "x")
  /\ code (tokensOf shebangSource) = str "#!/usr/bin/env node
x"
  /\ exists st1 text tp1,
       processBalancedCode _ 5 (with_tokens shebangSource (reset (tokensOf shebangSource)))
       = OK st1
       /\ finish (plainEnv noClassInfo) (tokensOf st1) = OK (text, tp1)
       /\ ImportTransformer ∈ transformers st1
       /\ forall out, transform _ 5 shebangSource = OK out ->
            out = str "#!/usr/bin/env node" ++ [c_lf]
                  ++ ((34%N :: str "use strict" ++ [34%N; 59%N])
                      ++ concat (List.map (getPrefixCode _ st1) (transformers st1))
                      ++ concat (List.map (fun v => str " var " ++ v ++ str ";")
                                   (generatedVariables st1)))
                  ++ str "x" ++ concat (List.map (getSuffixCode _ st1) (transformers st1)).
Proof.
  split; [vm_compute; reflexivity|]. split; [vm_compute; reflexivity|].
  destruct (output_assembly _ 5 shebangSource
              (str "#!/usr/bin/env node
" ++ 34%N :: str "use strict" ++ [34%N; 59%N] ++ str "x") ltac:(vm_compute; reflexivity))
    as (st1 & text & tp1 & Hwalk & Hfinish & _ & Hsource).
  exists st1, text, tp1. split; [assumption|]. split; [assumption|].
  assert (Hst1 : st1 = resultOr shebangSource
                         (processBalancedCode _ 5
                            (with_tokens shebangSource (reset (tokensOf shebangSource))))).
  { rewrite Hwalk. reflexivity. }
  assert (Himport : ImportTransformer ∈ transformers st1).
  { rewrite Hst1. vm_compute. repeat constructor. }
  split; [assumption|].
  intros out Hout.
  destruct (output_assembly _ 5 shebangSource out Hout)
    as (st2 & text2 & tp2 & Hwalk2 & Hfinish2 & _ & Hsource2).
  rewrite Hwalk in Hwalk2. apply OK_inj in Hwalk2. subst st2.
  rewrite Hfinish in Hfinish2. apply OK_inj in Hfinish2.
  injection Hfinish2 as <- <-.
  assert (Hcode : code (tokensOf shebangSource)
                  = str "#!/usr/bin/env node" ++ c_lf :: str "x")
    by (vm_compute; reflexivity).
  assert (Hline : c_lf ∉ str "#!/usr/bin/env node").
  { intros Hin. vm_compute in Hin.
    repeat (apply elem_of_cons in Hin as [Hin|Hin]; [discriminate|]).
    inversion Hin. }
  assert (Htext : text = str "#!/usr/bin/env node" ++ c_lf :: str "x").
  { assert (Hfst : text = (resultOr ([], tokensOf shebangSource)
                             (finish (plainEnv noClassInfo) (tokensOf st1))).1).
    { rewrite Hfinish. reflexivity. }
    rewrite Hfst, Hst1. vm_compute. reflexivity. }
  pose proof (Hsource2 _ _ _ Hcode Hline Htext) as Hplace.
  rewrite (bool_decide_eq_true_2 _ Himport) in Hplace.
  replace (startsWith (code (tokensOf shebangSource)) (str "#!")) with true in Hplace
    by (vm_compute; reflexivity).
  exact Hplace.
Defined.

(* ===================================================================== *)
(** * Emitted text is never taken back *)
(* ===================================================================== *)

#[global] Instance extends_PreOrder {NM IP PV} : PreOrder (@extends NM IP PV).
Proof.
  split.
  - intros st. unfold extends. reflexivity.
  - intros a b c Hab Hbc. unfold extends in *. etrans; eassumption.
Qed.

Section Prefixes.
Variable E : Env.
Hypothesis HE : AppendOnly E.

Lemma copyToken_prefix tp tp' :
  copyToken tp = OK tp' -> resultCode tp `prefix_of` resultCode tp'.
Proof.
  unfold copyToken. intros H. open_call H. subst. simpl. apply prefix_app_r. reflexivity.
Qed.

Lemma replaceToken_prefix tp newCode tp' :
  replaceToken tp newCode = OK tp' -> resultCode tp `prefix_of` resultCode tp'.
Proof.
  unfold replaceToken. intros H. open_call H. subst. simpl. apply prefix_app_r. reflexivity.
Qed.

Lemma copyExpectedToken_prefix tp t tp' :
  copyExpectedToken tp t = OK tp' -> resultCode tp `prefix_of` resultCode tp'.
Proof.
  unfold copyExpectedToken. intros H. open_call H. eapply copyToken_prefix; eassumption.
Qed.

Lemma onTokens_extends (f : TokenProcessor -> Result TokenProcessor) (st st' : RunState E) :
  (forall tp tp', f tp = OK tp' -> resultCode tp `prefix_of` resultCode tp') ->
  onTokens f st = OK st' -> extends st st'.
Proof.
  intros Hf H. unfold onTokens in H. open_call H. subst. unfold extends. simpl.
  apply Hf. assumption.
Qed.

Lemma getLineNumberForIndex_tokens index (st : RunState E) :
  tokensOf (getLineNumberForIndex E index st).2 = tokensOf st.
Proof.
  unfold getLineNumberForIndex.
  destruct (getLineNumberForIndex_loop _ _ _ _ _). reflexivity.
Qed.

Lemma getFilenameVarName_tokens (st : RunState E) :
  tokensOf (getFilenameVarName E st).2 = tokensOf st.
Proof.
  unfold getFilenameVarName.
  destruct (filenameVarName st) as [[|c rest]|]; try reflexivity;
    destruct (claimFreeName E _ _); reflexivity.
Qed.

Lemma synthesizedConstructor_extends classInfo (st : RunState E) :
  extends st (synthesizedConstructor E classInfo st).
Proof.
  unfold synthesizedConstructor, extends.
  destruct (constructorInsertPos classInfo); [reflexivity|].
  destruct (0 <? length (initializerStatements classInfo)); [|reflexivity].
  destruct (hasSuperclass (headerInfo classInfo)).
  - destruct (claimFreeName E _ _). simpl. apply prefix_app_r. reflexivity.
  - simpl. apply prefix_app_r. reflexivity.
Qed.

Lemma processStringPropValue_extends (st st' : RunState E) :
  processStringPropValue E st = OK st' -> extends st st'.
Proof.
  unfold processStringPropValue. intros H. open_call H.
  eapply onTokens_extends; [|eassumption].
  intros tp tp'. apply replaceToken_prefix.
Qed.

Lemma processChildTextElement_extends (st st' : RunState E) :
  processChildTextElement E st = OK st' -> extends st st'.
Proof.
  unfold processChildTextElement. intros H. open_call H;
    (eapply onTokens_extends; [|eassumption]);
    intros tp tp'; apply replaceToken_prefix.
Qed.

Lemma processTagIntro_name_extends introEnd (st st' : RunState E) :
  processTagIntro_name E introEnd st = OK st' -> extends st st'.
Proof.
  unfold processTagIntro_name. intros H. open_call H; subst; try reflexivity.
  eapply onTokens_extends; [|eassumption].
  intros tp tp'. apply replaceToken_prefix.
Qed.

Lemma skipToTagEnd_extends fuel : forall (st st' : RunState E),
  skipToTagEnd E fuel st = OK st' -> extends st st'.
Proof.
  induction fuel as [|fuel IH]; intros st st' H; simpl in H; open_call H; subst;
    try reflexivity.
  etrans; [|apply IH; eassumption].
  eapply onTokens_extends; [|eassumption].
  intros tp tp'. apply replaceToken_prefix.
Qed.

Lemma removeFieldTokens_extends fuel rangeEnd : forall (st st' : RunState E),
  removeFieldTokens E fuel rangeEnd st = OK st' -> extends st st'.
Proof.
  induction fuel as [|fuel IH]; intros st st' H; simpl in H; open_call H; subst;
    try reflexivity.
  etrans; [|apply IH; eassumption].
  eapply onTokens_extends; [|eassumption].
  apply (removeToken_extends E HE).
Qed.

Lemma dispatch_extends (processJSX : RunState E -> Result (bool * RunState E)) :
  (forall st b st', processJSX st = OK (b, st') -> extends st st') ->
  forall ts st st', dispatch E processJSX ts st = OK st' -> extends st st'.
Proof.
  intros HJSX. induction ts as [|t ts IH]; intros st st' H; simpl in H.
  - eapply onTokens_extends; [|eassumption]. apply copyToken_prefix.
  - destruct (match t with JSXTransformer => processJSX st | _ => processOther E t st end)
      as [[b st1]| |] eqn:Ht; cbn [bind] in H; try discriminate.
    assert (Hst1 : extends st st1).
    { destruct t; try (eapply (processOther_extends E HE); eassumption).
      eapply HJSX; eassumption. }
    simpl in H. destruct b.
    + injection H as <-. assumption.
    + etrans; [exact Hst1|]. apply IH. assumption.
Qed.

(** Chains of [extends] facts. *)
Ltac chain :=
  unfold extends in *; simpl in *;
  repeat first [ reflexivity | eassumption | apply prefix_app_r
               | (etrans; [|eassumption]) ].

Ltac token_op H :=
  apply onTokens_extends in H;
  [| solve [ intros ? ?;
             first [ apply copyToken_prefix | apply replaceToken_prefix
                   | apply copyExpectedToken_prefix
                   | apply (removeInitialToken_extends E HE)
                   | apply (removeToken_extends E HE) ] ] ].

Ltac helper H :=
  first [ apply processStringPropValue_extends in H
        | apply processChildTextElement_extends in H
        | apply processTagIntro_name_extends in H
        | apply skipToTagEnd_extends in H
        | apply removeFieldTokens_extends in H
        | token_op H ].

(** Every call that returned is turned into the fact that it only added
    output, by an induction hypothesis or by a lemma on a helper. *)
Ltac step :=
  repeat match goal with
    | Hc : _ = OK _ |- _ =>
        first [ match goal with
                | IHx : forall _, _ |- _ => apply IHx in Hc
                end
              | helper Hc ]
    end.

Lemma walk_extends fuel :
  (forall braceDepth parenDepth st st',
     processBalancedCode_loop E fuel braceDepth parenDepth st = OK st' -> extends st st')
  /\ (forall st st', processToken E fuel st = OK st' -> extends st st')
  /\ (forall st st', processClass E fuel st = OK st' -> extends st st')
  /\ (forall contextId st st',
        processClass_header E fuel contextId st = OK st' -> extends st st')
  /\ (forall classInfo st st',
        processClassBody E fuel classInfo st = OK st' -> extends st st')
  /\ (forall classInfo classContextId fieldIndex st st',
        processClassBody_loop E fuel classInfo classContextId fieldIndex st = OK st' ->
        extends st st')
  /\ (forall st st', processJSXTag E fuel st = OK st' -> extends st st')
  /\ (forall st st', processTagIntro E fuel st = OK st' -> extends st st')
  /\ (forall introEnd st st',
        processTagIntro_loop E fuel introEnd st = OK st' -> extends st st')
  /\ (forall firstTokenStart st st',
        processProps E fuel firstTokenStart st = OK st' -> extends st st')
  /\ (forall st st', processProps_loop E fuel st = OK st' -> extends st st')
  /\ (forall st st', processChildren E fuel st = OK st' -> extends st st').
Proof.
  induction fuel as [|fuel IH].
  { split_and!; intros; discriminate. }
  destruct IH as (IHloop & IHtoken & IHclass & IHheader & IHbody & IHbodyloop
                  & IHtag & IHintro & IHintroloop & IHprops & IHpropsloop & IHchildren).
  split_and!.
  - (* processBalancedCode_loop *)
    intros bd pd st st' H. cbn [processBalancedCode_loop] in H.
    open_call H; subst; try reflexivity. step. chain.
  - (* processToken *)
    intros st st' H. cbn [processToken] in H.
    destruct (matches1 (tokensOf st) tt._class); [apply IHclass; assumption|].
    eapply dispatch_extends; [|eassumption].
    intros s b s' Hs. cbn beta in Hs. open_call Hs; subst; [|reflexivity].
    apply IHtag. assumption.
  - (* processClass *)
    intros st st' H. cbn [processClass] in H.
    destruct (getClassInfo E st) as [[classInfo st0]| |] eqn:Hinfo; cbn [bind] in H;
      try discriminate.
    apply (getClassInfo_extends E HE) in Hinfo.
    cbn [fst snd] in H.
    destruct (isExpression (headerInfo classInfo)
              && (0 <? length (staticInitializerSuffixes classInfo))).
    + destruct (claimFreeName E (str "_class") (nameManager st0)) as [name nm].
      cbn [fst snd] in H. open_call H; subst. step. chain.
    + cbn [fst snd] in H. open_call H; subst; step; chain.
  - (* processClass_header *)
    intros id st st' H. cbn [processClass_header] in H.
    open_call H; subst; try reflexivity. step. chain.
  - (* processClassBody *)
    intros classInfo st st' H. cbn [processClassBody] in H.
    open_call H; subst. step.
    match goal with
    | Hx : extends (synthesizedConstructor E _ ?r) _ |- _ =>
        pose proof (synthesizedConstructor_extends classInfo r)
    end.
    chain.
  - (* processClassBody_loop *)
    intros classInfo id k st st' H. cbn [processClassBody_loop] in H.
    destruct (0 <? length (initializerStatements classInfo));
      open_call H; subst; try reflexivity; step; chain.
  - (* processJSXTag *)
    intros st st' H. cbn [processJSXTag] in H.
    open_call H; subst; step; chain.
  - (* processTagIntro *)
    intros st st' H. cbn [processTagIntro] in H.
    open_call H; subst; step; chain.
  - (* processTagIntro_loop *)
    intros n st st' H. cbn [processTagIntro_loop] in H.
    open_call H; subst; try reflexivity; step; chain.
  - (* processProps *)
    intros n st st' H. cbn [processProps] in H.
    pose proof (getLineNumberForIndex_tokens n st) as T1.
    destruct (getLineNumberForIndex E n st) as [line st1]. cbn [snd] in T1.
    pose proof (getFilenameVarName_tokens st1) as T2.
    destruct (getFilenameVarName E st1) as [fileName st2]. cbn [snd] in T2.
    open_call H; subst; step; unfold extends in *; simpl in *;
      rewrite ?T2, ?T1 in *; chain.
  - (* processProps_loop *)
    intros st st' H. cbn [processProps_loop] in H.
    open_call H; subst; try reflexivity; step; chain.
  - (* processChildren *)
    intros st st' H. cbn [processChildren] in H.
    open_call H; subst; try reflexivity; step; chain.
Qed.
End Prefixes.

(* ===================================================================== *)
(** * The class rewrite *)
(* ===================================================================== *)

Arguments str : simpl never.

Lemma copyExpectedToken_OK tp t tp' :
  copyExpectedToken tp t = OK tp' ->
  exists token, currentToken tp = OK token /\ type token = t
    /\ tp' = emitted tp (previousWhitespace tp token ++ tokenText tp token) 1.
Proof.
  unfold copyExpectedToken, copyToken. intros H.
  destruct (currentToken tp) as [token| |]; cbn [bind] in H; try discriminate.
  destruct (bool_decide_reflect (type token = t)) as [Ht|]; [|discriminate].
  injection H as <-. eauto.
Qed.

Lemma appendCode_same tp newCode token :
  previousWhitespace (appendCode tp newCode) token = previousWhitespace tp token
  /\ tokenText (appendCode tp newCode) token = tokenText tp token.
Proof. split; reflexivity. Qed.

Section ClassRewrite.
Variable E : Env.
Hypothesis HE : AppendOnly E.

(** C4. A class body without a constructor whose fields have initializers
    gets a constructor right after its opening brace: the opening brace is
    copied, the constructor is appended, and only then is the rest of the
    body processed, so that the text emitted for the body starts with the
    brace and the constructor.  With a superclass the constructor takes all
    arguments through one rest parameter, passes them on to [super] and then
    runs the initializer statements in order; without a superclass it holds
    the initializer statements only. *)
Theorem synthesized_constructor (fuel : nat) (classInfo : ClassInfo) (st : RunState E) :
  constructorInsertPos classInfo = None ->
  initializerStatements classInfo <> [] ->
  let initializersCode := join (str ";") (initializerStatements classInfo) in
  let named := claimFreeName E (str "args") (nameManager st) in
  let constructorCode :=
    if hasSuperclass (headerInfo classInfo) then
      str "constructor(..." ++ named.1 ++ str ") { super(..." ++ named.1
        ++ str "); " ++ initializersCode ++ str "; }"
    else str "constructor() { " ++ initializersCode ++ str "; }" in
  (forall brace classContextId,
     currentToken (tokensOf st) = OK brace ->
     type brace = tt.braceL ->
     contextId brace = Some classContextId ->
     let opened :=
       with_tokens st
         (emitted (tokensOf st)
            (previousWhitespace (tokensOf st) brace ++ tokenText (tokensOf st) brace) 1) in
     processClassBody E (S fuel) classInfo st
     = (let* st2 :=
          processClassBody_loop E fuel classInfo classContextId 0
            (append (if hasSuperclass (headerInfo classInfo)
                     then with_nameManager opened named.2 else opened)
                    constructorCode) in
        onTokens (fun tp => copyExpectedToken tp tt.braceR) st2))
  /\ (forall st',
        processClassBody E fuel classInfo st = OK st' ->
        exists brace rest,
          currentToken (tokensOf st) = OK brace
          /\ type brace = tt.braceL
          /\ resultCode (tokensOf st')
             = resultCode (tokensOf st)
               ++ previousWhitespace (tokensOf st) brace
               ++ tokenText (tokensOf st) brace
               ++ constructorCode ++ rest).
Proof.
  intros Hpos Hinit initializersCode named constructorCode.
  assert (Hlen : (0 <? length (initializerStatements classInfo)) = true).
  { apply Nat.ltb_lt. destruct (initializerStatements classInfo); [congruence|simpl; lia]. }
  split.
  - intros brace classContextId Hbrace Htype Hid opened.
    cbn [processClassBody]. rewrite Hbrace. cbn [bind]. rewrite Hid.
    unfold onTokens at 1, copyExpectedToken, copyToken.
    rewrite Hbrace. cbn [bind]. rewrite Htype, bool_decide_eq_true_2 by reflexivity.
    cbn [bind]. fold opened.
    unfold synthesizedConstructor. rewrite Hpos, Hlen.
    subst constructorCode named initializersCode.
    destruct (hasSuperclass (headerInfo classInfo)); [|reflexivity].
    replace (nameManager opened) with (nameManager st) by reflexivity.
    destruct (claimFreeName E (str "args") (nameManager st)) as [argsName nm].
    reflexivity.
  - intros st' H.
    destruct fuel as [|fuel]; [discriminate|]. cbn [processClassBody] in H.
    destruct (currentToken (tokensOf st)) as [token| |] eqn:Htoken; cbn [bind] in H;
      try discriminate.
    destruct (contextId token) as [classContextId|]; [|discriminate].
    destruct (onTokens _ st) as [st1| |] eqn:Hcopy; cbn [bind] in H; try discriminate.
    unfold onTokens in Hcopy.
    destruct (copyExpectedToken (tokensOf st) tt.braceL) as [tp1| |] eqn:Hcopy1;
      cbn [bind] in Hcopy; try discriminate.
    apply OK_inj in Hcopy. subst st1.
    apply copyExpectedToken_OK in Hcopy1 as (brace & Hbrace & Htype & ->).
    rewrite Htoken in Hbrace. apply OK_inj in Hbrace. subst brace.
    destruct (processClassBody_loop E fuel classInfo classContextId 0 _) as [st2| |]
      eqn:Hloop; cbn [bind] in H; try discriminate.
    apply (walk_extends E HE) in Hloop as [o1 Ho1].
    apply onTokens_extends in H as [o2 Ho2]; [|intros ? ?; apply copyExpectedToken_prefix].
    exists token. unfold synthesizedConstructor in Ho1. rewrite Hpos, Hlen in Ho1.
    subst constructorCode named initializersCode.
    destruct (hasSuperclass (headerInfo classInfo)).
    + fields.
      destruct (claimFreeName E (str "args") (nameManager st)) as [argsName nm].
      fields. exists (o1 ++ o2). split; [reflexivity|]. split; [assumption|].
      rewrite Ho2, Ho1. rewrite <- !app_assoc. reflexivity.
    + fields. exists (o1 ++ o2). split; [reflexivity|]. split; [assumption|].
      rewrite Ho2, Ho1. rewrite <- !app_assoc. reflexivity.
Qed.

(** The class keyword, the header and the body, as [processClass] emits
    them between what it puts in front and what it puts behind. *)
Lemma class_construct_emitted fuel contextId classInfo (st1 st2 : RunState E) :
  (let* st := onTokens (fun tp => copyExpectedToken tp tt._class) st1 in
   let* st := processClass_header E fuel contextId st in
   processClassBody E fuel classInfo st) = OK st2 ->
  exists classToken body,
    currentToken (tokensOf st1) = OK classToken
    /\ type classToken = tt._class
    /\ resultCode (tokensOf st2)
       = resultCode (tokensOf st1)
         ++ previousWhitespace (tokensOf st1) classToken
         ++ tokenText (tokensOf st1) classToken ++ body.
Proof.
  intros H.
  destruct (onTokens _ st1) as [sa| |] eqn:Hcopy; cbn [bind] in H; try discriminate.
  unfold onTokens in Hcopy.
  destruct (copyExpectedToken (tokensOf st1) tt._class) as [tp1| |] eqn:Hcopy1;
    cbn [bind] in Hcopy; try discriminate.
  injection Hcopy as <-.
  apply copyExpectedToken_OK in Hcopy1 as (classToken & Htoken & Htype & ->).
  destruct (processClass_header E fuel contextId _) as [sb| |] eqn:Hheader;
    cbn [bind] in H; try discriminate.
  apply (walk_extends E HE) in Hheader as [o1 Ho1].
  apply (walk_extends E HE) in H as [o2 Ho2].
  fields. exists classToken, (o1 ++ o2). split; [assumption|]. split; [assumption|].
  rewrite Ho2, Ho1, <- !app_assoc. reflexivity.
Qed.

(** C5. A class that is an expression and has static initializers is
    wrapped: an opening parenthesis and the assignment of the class to a
    temporary name, the class, then after a comma each static initializer on
    the temporary, separated by commas, and last the temporary itself, so
    that the value of the whole is the class.  For any other class the static
    initializers, if there are any, follow the class body as statements on
    the class name, each ended by a semicolon. *)
Theorem static_initializers_placement (fuel : nat) (st st' : RunState E) :
  processClass E fuel st = OK st' ->
  exists classInfo st0 classToken body,
    getClassInfo E st = OK (classInfo, st0)
    /\ currentToken (tokensOf st0) = OK classToken
    /\ type classToken = tt._class
    /\ let suffixes := staticInitializerSuffixes classInfo in
       let classText :=
         previousWhitespace (tokensOf st0) classToken
           ++ tokenText (tokensOf st0) classToken ++ body in
       (isExpression (headerInfo classInfo) = true -> suffixes <> [] ->
          let temporary := (claimFreeName E (str "_class") (nameManager st0)).1 in
          resultCode (tokensOf st')
          = resultCode (tokensOf st0) ++ str " (" ++ temporary ++ str " ="
            ++ classText ++ str ", "
            ++ join (str ", ") (List.map (fun suffix => temporary ++ suffix) suffixes)
            ++ str ", " ++ temporary ++ str ")")
       /\ (~ (isExpression (headerInfo classInfo) = true /\ suffixes <> []) ->
           resultCode (tokensOf st')
           = resultCode (tokensOf st0) ++ classText
             ++ match suffixes with
                | [] => []
                | _ => str " "
                       ++ join (str "; ")
                            (List.map
                               (fun suffix =>
                                  template (className (headerInfo classInfo)) ++ suffix)
                               suffixes)
                       ++ str ";"
                end).
Proof.
  intros H. destruct fuel as [|fuel]; [discriminate|]. cbn [processClass] in H.
  destruct (getClassInfo E st) as [[classInfo st0]| |] eqn:Hinfo; cbn [bind] in H;
    try discriminate.
  cbn [fst snd] in H.
  destruct (isExpression (headerInfo classInfo)) eqn:Hexpr;
    destruct (staticInitializerSuffixes classInfo) as [|suffix suffixes] eqn:Hsuffixes;
    cbn [length Nat.ltb Nat.leb andb] in H;
    try (destruct (claimFreeName E (str "_class") (nameManager st0))
           as [temporary nm] eqn:Hname);
    cbn [fst snd] in H;
    (destruct (currentToken _) as [token| |] eqn:Htoken; cbn [bind] in H;
       try discriminate);
    (destruct (contextId token) as [id|]; [|discriminate]);
    (match type of H with
     | bind ?m ?k = _ => destruct m as [s1| |] eqn:H1; cbn [bind] in H; try discriminate
     end);
    (match type of H with
     | bind ?m ?k = _ => destruct m as [s2| |] eqn:H2; cbn [bind] in H; try discriminate
     end);
    (match type of H with
     | bind ?m ?k = _ => destruct m as [s3| |] eqn:H3; cbn [bind] in H; try discriminate
     end);
    apply OK_inj in H; subst st';
    (match type of H1 with
     | onTokens _ ?s = _ =>
         destruct (class_construct_emitted fuel id classInfo s s3)
           as (classToken & body & Hct & Htype & Hbody);
         [rewrite H1; cbn [bind]; rewrite H2; cbn [bind]; exact H3|]
     end);
    fields; exists classInfo, st0, classToken, body;
    (split; [reflexivity|]); (split; [assumption|]); (split; [assumption|]);
    cbv zeta; rewrite ?Hsuffixes; split.
  - intros _ Hne. congruence.
  - intros _. rewrite Hbody, app_nil_r. reflexivity.
  - intros _ _. rewrite Hname. cbn [fst].
    destruct (appendCode_same (tokensOf st0) (str " (" ++ temporary ++ str " =")
                classToken) as [Hws Htext].
    rewrite Hbody, Hws, Htext, <- !app_assoc. reflexivity.
  - intros Hno. exfalso. apply Hno. split; [assumption|discriminate].
  - intros Hfalse. congruence.
  - intros _. rewrite Hbody, app_nil_r. reflexivity.
  - intros Hfalse. congruence.
  - intros _. rewrite Hbody, <- !app_assoc. reflexivity.
Qed.
End ClassRewrite.

Lemma plainEnv_AppendOnly classInfo : AppendOnly (plainEnv classInfo).
Proof.
  split.
  - intros st ci st' H. injection H as _ <-. reflexivity.
  - intros t st b st' H. injection H as _ <-. reflexivity.
  - intros tp tp'. apply replaceToken_prefix.
  - intros tp tp' H. simpl in H.
    destruct (currentToken tp); cbn [bind] in H; try discriminate.
    injection H as <-. simpl. apply prefix_app_r. reflexivity.
Qed.



Lemma synthesized_constructor_witness :
  exists rest,
    resultCode (tokensOf (resultOr derivedClassBody
                            (processClassBody _ 20 derivedClassInfo derivedClassBody)))
    = str "class A extends B {constructor(...args) { super(...args); this.x = 1;this.y = 2; }"
      ++ rest.
Proof.
  destruct (synthesized_constructor _ (plainEnv_AppendOnly derivedClassInfo) 20
              derivedClassInfo derivedClassBody)
    as [_ Hshape]; [reflexivity|discriminate|].
  destruct (Hshape (resultOr derivedClassBody
                      (processClassBody _ 20 derivedClassInfo derivedClassBody))
              ltac:(vm_compute; reflexivity))
    as (brace & rest & Hbrace & _ & Hout).
  exists rest. rewrite Hout. vm_compute in Hbrace. injection Hbrace as <-.
  vm_compute. reflexivity.
Defined.

Lemma static_initializers_placement_witness :
  resultCode (tokensOf (resultOr classExpression (processClass _ 20 classExpression)))
  = str "x = (_class = class {  }, _class.y = 1, _class)"
  /\ exists classInfo st0 classToken,
       getClassInfo (plainEnv classExpressionInfo) classExpression = OK (classInfo, st0)
       /\ currentToken (tokensOf st0) = OK classToken.
Proof.
  split; [vm_compute; reflexivity|].
  destruct (static_initializers_placement _ (plainEnv_AppendOnly classExpressionInfo) 20
              classExpression
              (resultOr classExpression (processClass _ 20 classExpression))
              ltac:(vm_compute; reflexivity))
    as (classInfo & st0 & classToken & body & Hinfo & Htoken & _).
  exists classInfo, st0, classToken. split; assumption.
Defined.

Lemma text_run_filler_witness :
  resultCode (tokensOf (resultOr textChild (processChildTextElement _ textChild)))
  = str "React.createElement('p', {}" ++ str ", " ++ JSON_stringify (str "a b  ")
    ++ str "   "
  /\ tokenIndex (tokensOf (resultOr textChild (processChildTextElement _ textChild))) = 4.
Proof.
  destruct (text_run_filler _ textChild
              (resultOr textChild (processChildTextElement _ textChild))
              ltac:(vm_compute; reflexivity))
    as (token & literal & before & line & _ & _ & _ & _ & _ & _ & Hindex).
  split; [vm_compute; reflexivity|].
  rewrite Hindex. reflexivity.
Defined.

(* ===================================================================== *)
(** * More fuel changes no result *)
(* ===================================================================== *)

Section Fuel.
Variable E : Env.

Lemma processTagIntro_scan_fuel fuel : forall fuel', fuel <= fuel' ->
  forall tp introEnd r,
  processTagIntro_scan fuel tp introEnd = OK r ->
  processTagIntro_scan fuel' tp introEnd = OK r.
Proof.
  induction fuel as [|fuel IH]; intros fuel' Hle tp introEnd r H.
  - simpl in H. destruct (introEnds tp introEnd) eqn:Hends; [|discriminate].
    destruct fuel'; simpl; rewrite Hends; assumption.
  - destruct fuel' as [|fuel']; [lia|].
    cbn [processTagIntro_scan] in H. cbn [processTagIntro_scan].
    destruct (introEnds tp introEnd); [assumption|].
    apply (IH fuel'); [lia|assumption].
Qed.

Lemma skipToTagEnd_fuel fuel : forall fuel', fuel <= fuel' ->
  forall (st st' : RunState E),
  skipToTagEnd E fuel st = OK st' -> skipToTagEnd E fuel' st = OK st'.
Proof.
  induction fuel as [|fuel IH]; intros fuel' Hle st st' H.
  - simpl in H. destruct (matches1 (tokensOf st) tt.jsxTagEnd) eqn:Hm; [|discriminate].
    destruct fuel'; simpl; rewrite Hm; assumption.
  - destruct fuel' as [|fuel']; [lia|].
    cbn [skipToTagEnd] in H. cbn [skipToTagEnd].
    destruct (matches1 (tokensOf st) tt.jsxTagEnd); [assumption|].
    destruct (onTokens _ st) as [st1| |]; cbn [bind] in *; try discriminate.
    apply (IH fuel'); [lia|assumption].
Qed.

Lemma removeFieldTokens_fuel fuel rangeEnd : forall fuel', fuel <= fuel' ->
  forall (st st' : RunState E),
  removeFieldTokens E fuel rangeEnd st = OK st' ->
  removeFieldTokens E fuel' rangeEnd st = OK st'.
Proof.
  induction fuel as [|fuel IH]; intros fuel' Hle st st' H.
  - simpl in H. destruct (currentIndex (tokensOf st) <? rangeEnd) eqn:Hm; [discriminate|].
    destruct fuel'; simpl; rewrite Hm; assumption.
  - destruct fuel' as [|fuel']; [lia|].
    cbn [removeFieldTokens] in H. cbn [removeFieldTokens].
    destruct (currentIndex (tokensOf st) <? rangeEnd); [|assumption].
    destruct (onTokens _ st) as [st1| |]; cbn [bind] in *; try discriminate.
    apply (IH fuel'); [lia|assumption].
Qed.

Lemma dispatch_fuel (p1 p2 : RunState E -> Result (bool * RunState E)) :
  (forall st r, p1 st = OK r -> p2 st = OK r) ->
  forall ts st st', dispatch E p1 ts st = OK st' -> dispatch E p2 ts st = OK st'.
Proof.
  intros Hp. induction ts as [|t ts IH]; intros st st' H; [exact H|].
  cbn [dispatch] in H. cbn [dispatch].
  destruct t;
    try (destruct (processOther E _ st) as [[b st1]| |]; cbn [bind] in *;
         try discriminate; destruct b; cbn [fst snd] in *; [assumption|apply IH; assumption]).
  destruct (p1 st) as [[b st1]| |] eqn:H1; cbn [bind] in H; try discriminate.
  rewrite (Hp _ _ H1). cbn [bind fst snd] in *.
  destruct b; [assumption|apply IH; assumption].
Qed.

(** Every returned call is redone with the larger fuel, and the goal
    follows the path the call with the smaller fuel took. *)
Ltac refuel fuel' Hle :=
  repeat first
    [ progress cbn [bind]
    | match goal with
      | Hc : ?t = _ |- context [?t] => rewrite Hc
      end
    | match goal with
      | Hc : _ = OK _ |- _ =>
          first [ match goal with
                  | IHx : forall _, _ |- _ => apply (IHx fuel' Hle) in Hc
                  end
                | apply (processTagIntro_scan_fuel _ fuel' Hle) in Hc
                | apply (skipToTagEnd_fuel _ fuel' Hle) in Hc
                | apply (removeFieldTokens_fuel _ _ fuel' Hle) in Hc ]
      end ].

Lemma walk_fuel fuel : forall fuel', fuel <= fuel' ->
  (forall braceDepth parenDepth st st',
     processBalancedCode_loop E fuel braceDepth parenDepth st = OK st' ->
     processBalancedCode_loop E fuel' braceDepth parenDepth st = OK st')
  /\ (forall st st', processToken E fuel st = OK st' -> processToken E fuel' st = OK st')
  /\ (forall st st', processClass E fuel st = OK st' -> processClass E fuel' st = OK st')
  /\ (forall contextId st st',
        processClass_header E fuel contextId st = OK st' ->
        processClass_header E fuel' contextId st = OK st')
  /\ (forall classInfo st st',
        processClassBody E fuel classInfo st = OK st' ->
        processClassBody E fuel' classInfo st = OK st')
  /\ (forall classInfo classContextId fieldIndex st st',
        processClassBody_loop E fuel classInfo classContextId fieldIndex st = OK st' ->
        processClassBody_loop E fuel' classInfo classContextId fieldIndex st = OK st')
  /\ (forall st st', processJSXTag E fuel st = OK st' -> processJSXTag E fuel' st = OK st')
  /\ (forall st st',
        processTagIntro E fuel st = OK st' -> processTagIntro E fuel' st = OK st')
  /\ (forall introEnd st st',
        processTagIntro_loop E fuel introEnd st = OK st' ->
        processTagIntro_loop E fuel' introEnd st = OK st')
  /\ (forall firstTokenStart st st',
        processProps E fuel firstTokenStart st = OK st' ->
        processProps E fuel' firstTokenStart st = OK st')
  /\ (forall st st',
        processProps_loop E fuel st = OK st' -> processProps_loop E fuel' st = OK st')
  /\ (forall st st',
        processChildren E fuel st = OK st' -> processChildren E fuel' st = OK st').
Proof.
  induction fuel as [|fuel IH]; intros fuel' Hle.
  { split_and!; intros; discriminate. }
  destruct fuel' as [|fuel']; [lia|].
  assert (Hle' : fuel <= fuel') by lia. clear Hle.
  assert (IHloop := fun f h => proj1 (IH f h)).
  assert (IHtoken := fun f h => proj1 (proj2 (IH f h))).
  assert (IHclass := fun f h => proj1 (proj2 (proj2 (IH f h)))).
  assert (IHheader := fun f h => proj1 (proj2 (proj2 (proj2 (IH f h))))).
  assert (IHbody := fun f h => proj1 (proj2 (proj2 (proj2 (proj2 (IH f h)))))).
  assert (IHbodyloop := fun f h => proj1 (proj2 (proj2 (proj2 (proj2 (proj2 (IH f h))))))).
  assert (IHtag :=
            fun f h => proj1 (proj2 (proj2 (proj2 (proj2 (proj2 (proj2 (IH f h)))))))).
  assert (IHintro :=
            fun f h =>
              proj1 (proj2 (proj2 (proj2 (proj2 (proj2 (proj2 (proj2 (IH f h))))))))).
  assert (IHintroloop :=
            fun f h =>
              proj1 (proj2 (proj2 (proj2 (proj2 (proj2 (proj2 (proj2 (proj2
                (IH f h)))))))))).
  assert (IHprops :=
            fun f h =>
              proj1 (proj2 (proj2 (proj2 (proj2 (proj2 (proj2 (proj2 (proj2 (proj2
                (IH f h))))))))))).
  assert (IHpropsloop :=
            fun f h =>
              proj1 (proj2 (proj2 (proj2 (proj2 (proj2 (proj2 (proj2 (proj2 (proj2
                (proj2 (IH f h)))))))))))).
  assert (IHchildren :=
            fun f h =>
              proj2 (proj2 (proj2 (proj2 (proj2 (proj2 (proj2 (proj2 (proj2 (proj2
                (proj2 (IH f h)))))))))))).
  clear IH.
  split_and!.
  - intros bd pd st st' H.
    cbn [processBalancedCode_loop] in H. cbn [processBalancedCode_loop].
    open_call H; subst; try reflexivity; refuel fuel' Hle'; first [reflexivity|assumption].
  - intros st st' H. cbn [processToken] in H. cbn [processToken].
    destruct (matches1 (tokensOf st) tt._class); [apply (IHclass fuel' Hle'); assumption|].
    eapply dispatch_fuel; [|eassumption].
    intros s r Hs. cbn beta in Hs |- *.
    open_call Hs; subst; try reflexivity; refuel fuel' Hle'; first [reflexivity|assumption].
  - intros st st' H. cbn [processClass] in H. cbn [processClass].
    destruct (getClassInfo E st) as [[classInfo st0]| |]; cbn [bind] in *; try discriminate.
    cbn [fst snd] in *.
    destruct (isExpression (headerInfo classInfo)
              && (0 <? length (staticInitializerSuffixes classInfo)));
      [destruct (claimFreeName E (str "_class") (nameManager st0)) as [name nm]|];
      cbn [fst snd] in *;
      open_call H; subst; refuel fuel' Hle'; first [reflexivity|assumption].
  - intros id st st' H. cbn [processClass_header] in H. cbn [processClass_header].
    open_call H; subst; try reflexivity; refuel fuel' Hle'; first [reflexivity|assumption].
  - intros classInfo st st' H. cbn [processClassBody] in H. cbn [processClassBody].
    open_call H; subst; refuel fuel' Hle'; first [reflexivity|assumption].
  - intros classInfo id k st st' H.
    cbn [processClassBody_loop] in H. cbn [processClassBody_loop].
    destruct (0 <? length (initializerStatements classInfo));
      open_call H; subst; try reflexivity; refuel fuel' Hle'; first [reflexivity|assumption].
  - intros st st' H. cbn [processJSXTag] in H. cbn [processJSXTag].
    open_call H; subst; refuel fuel' Hle'; first [reflexivity|assumption].
  - intros st st' H. cbn [processTagIntro] in H. cbn [processTagIntro].
    open_call H; subst; refuel fuel' Hle'; first [reflexivity|assumption].
  - intros n st st' H. cbn [processTagIntro_loop] in H. cbn [processTagIntro_loop].
    open_call H; subst; try reflexivity; refuel fuel' Hle'; first [reflexivity|assumption].
  - intros n st st' H. cbn [processProps] in H. cbn [processProps].
    destruct (getLineNumberForIndex E n st) as [line st1].
    destruct (getFilenameVarName E st1) as [fileName st2].
    open_call H; subst; try reflexivity; refuel fuel' Hle'; first [reflexivity|assumption].
  - intros st st' H. cbn [processProps_loop] in H. cbn [processProps_loop].
    open_call H; subst; try reflexivity; refuel fuel' Hle'; first [reflexivity|assumption].
  - intros st st' H. cbn [processChildren] in H. cbn [processChildren].
    open_call H; subst; try reflexivity; refuel fuel' Hle'; first [reflexivity|assumption].
Qed.

(** A chain of calls of [processToken] that stops in the first state ending
    the walk is the run of the loop, given fuel for it. *)
Lemma processBalancedCode_loop_reaches st heads st' :
  visits E st heads st' ->
  forall braceDepth parenDepth,
  walkEnds E (Z.of_nat braceDepth + braceDepthAfter E heads)
             (Z.of_nat parenDepth + parenDepthAfter E heads) st' = true ->
  (forall k head, heads !! k = Some head ->
     walkEnds E (Z.of_nat braceDepth + braceDepthAfter E (take k heads))
                (Z.of_nat parenDepth + parenDepthAfter E (take k heads)) head = false) ->
  exists fuel, processBalancedCode_loop E fuel braceDepth parenDepth st = OK st'.
Proof.
  induction 1 as [st|st fuel1 st1 heads st' Htoken Hvisits IH]; intros bd pd Hstop Hearlier.
  - exists 1. apply processBalancedCode_loop_ends.
    destruct (depthAfter_nil E) as [Hb Hp]. rewrite Hb, Hp, !Z.add_0_r in Hstop.
    exact Hstop.
  - pose proof (Hearlier 0 st eq_refl) as Hhere. simpl take in Hhere.
    destruct (depthAfter_nil E) as [Hb Hp]. rewrite Hb, Hp, !Z.add_0_r in Hhere.
    destruct (processBalancedCode_loop_goes_on E bd pd st Hhere)
      as (Hend & bd' & pd' & Hbrace & Hparen).
    pose proof (braceStep_depth E st bd bd' Hbrace) as [Hbd _].
    pose proof (parenStep_depth E st pd pd' Hparen) as [Hpd _].
    assert (Hdepth : forall hs,
      (Z.of_nat bd + braceDepthAfter E (st :: hs) = Z.of_nat bd' + braceDepthAfter E hs)%Z
      /\ (Z.of_nat pd + parenDepthAfter E (st :: hs)
          = Z.of_nat pd' + parenDepthAfter E hs)%Z).
    { intros hs. unfold braceDepthAfter, parenDepthAfter. rewrite !count_cons. lia. }
    destruct (IH bd' pd') as [fuel2 Hloop].
    + destruct (Hdepth heads) as [<- <-]. exact Hstop.
    + intros k head Hk. destruct (Hdepth (take k heads)) as [<- <-].
      apply (Hearlier (S k) head). exact Hk.
    + exists (S (max fuel1 fuel2)). cbn [processBalancedCode_loop].
      rewrite Hend, Hbrace, Hparen.
      destruct (walk_fuel fuel1 (max fuel1 fuel2) (Nat.le_max_l _ _))
        as (_ & Htoken' & _).
      rewrite (Htoken' _ _ Htoken). cbn [bind].
      destruct (walk_fuel fuel2 (max fuel1 fuel2) (Nat.le_max_r _ _)) as (Hloop' & _).
      apply Hloop'. exact Hloop.
Qed.

(** C2. The walk makes one call of [processToken] per token it looks at and
    keeps two depths, a brace depth that an opening brace or the opening of a
    template interpolation raises and a closing brace lowers, and a
    parenthesis depth.  It returns at once when it starts on the end of the
    tokens or on a closer at depth zero.  In general it returns in [st'],
    given enough fuel, exactly when a chain of calls of [processToken] leads
    from the start to [st'], [st'] is a state in which the tokens are
    exhausted or the token under the cursor is a closing brace or
    parenthesis whose depth, counted over the tokens looked at since the
    entry, is zero, and no earlier state of the chain is such a state. *)
Theorem balanced_walk (st : RunState E) :
  (forall fuel, walkEnds E 0 0 st = true -> processBalancedCode E (S fuel) st = OK st)
  /\ (forall st',
        (exists fuel, processBalancedCode E fuel st = OK st') <->
        exists heads,
          visits E st heads st'
          /\ walkEnds E (braceDepthAfter E heads) (parenDepthAfter E heads) st' = true
          /\ forall k head, heads !! k = Some head ->
               walkEnds E (braceDepthAfter E (take k heads))
                          (parenDepthAfter E (take k heads)) head = false).
Proof.
  split.
  - intros fuel Hends. apply (processBalancedCode_loop_ends E fuel 0 0 st Hends).
  - intros st'. split.
    + intros [fuel H].
      destruct (processBalancedCode_loop_trace E fuel 0 0 st st' H)
        as (heads & Hvisits & Hstop & Hearlier).
      exists heads. split; [assumption|]. split; [exact Hstop|].
      intros k head Hk. exact (Hearlier k head Hk).
    + intros (heads & Hvisits & Hstop & Hearlier).
      apply (processBalancedCode_loop_reaches st heads st' Hvisits 0 0).
      * exact Hstop.
      * intros k head Hk. exact (Hearlier k head Hk).
Qed.
End Fuel.

Lemma balanced_walk_witness :
  tokenIndex (tokensOf (resultOr walkStart (processBalancedCode _ 20 walkStart))) = 7
  /\ exists heads,
       visits _ walkStart heads (resultOr walkStart (processBalancedCode _ 20 walkStart))
       /\ walkEnds _ (braceDepthAfter _ heads) (parenDepthAfter _ heads)
            (resultOr walkStart (processBalancedCode _ 20 walkStart)) = true.
Proof.
  split; [vm_compute; reflexivity|].
  destruct (balanced_walk _ walkStart) as [_ Hwalk].
  destruct (proj1 (Hwalk (resultOr walkStart (processBalancedCode _ 20 walkStart))))
    as (heads & Hvisits & Hstop & _).
  { exists 20. vm_compute. reflexivity. }
  exists heads. split; assumption.
Defined.

(* ===================================================================== *)
(** * Further properties: text normalisation *)
(* ===================================================================== *)

Lemma fromCodePoint_error cp e : fromCodePoint cp = Throw e -> e = RangeError.
Proof.
  unfold fromCodePoint.
  destruct (cp <=? 65535)%N; [discriminate|].
  destruct (cp <=? 1114111)%N; [discriminate|]. congruence.
Qed.

Lemma fromCodePoint_fuel cp : fromCodePoint cp <> OutOfFuel.
Proof.
  unfold fromCodePoint.
  destruct (cp <=? 65535)%N; [discriminate|].
  destruct (cp <=? 1114111)%N; discriminate.
Qed.

Section EntityOutcome.
Variable table : EntityTable.

Lemma decodeReference_error s e :
  decodeReference table s = Throw e -> e = RangeError /\ s !! 0 = Some c_hash.
Proof.
  unfold decodeReference.
  destruct (bool_decide (s !! 0 = Some c_hash)) eqn:H0; [|discriminate].
  apply bool_decide_eq_true in H0. intros H. split; [|assumption].
  destruct (bool_decide (s !! 1 = Some c_x)).
  - destruct (HEX_NUMBER (substr s 2)); [|discriminate].
    destruct (fromCodePoint (parseInt (substr s 2) 16)) eqn:Hc; cbn [bind] in H;
      try discriminate.
    injection H as <-. eapply fromCodePoint_error. eassumption.
  - destruct (DECIMAL_NUMBER (substr s 1)); [|discriminate].
    destruct (fromCodePoint (parseInt (substr s 1) 10)) eqn:Hc; cbn [bind] in H;
      try discriminate.
    injection H as <-. eapply fromCodePoint_error. eassumption.
Qed.

Lemma decodeReference_fuel s : decodeReference table s <> OutOfFuel.
Proof.
  unfold decodeReference.
  destruct (bool_decide (s !! 0 = Some c_hash)); [|discriminate].
  destruct (bool_decide (s !! 1 = Some c_x)).
  - destruct (HEX_NUMBER (substr s 2)); [|discriminate].
    pose proof (fromCodePoint_fuel (parseInt (substr s 2) 16)).
    destruct (fromCodePoint (parseInt (substr s 2) 16)); cbn [bind]; congruence.
  - destruct (DECIMAL_NUMBER (substr s 1)); [|discriminate].
    pose proof (fromCodePoint_fuel (parseInt (substr s 1) 10)).
    destruct (fromCodePoint (parseInt (substr s 1) 10)); cbn [bind]; congruence.
Qed.

Lemma processEntity_scan_error budget : forall text i s e,
  processEntity_scan table budget text i s = Throw e ->
  e = RangeError /\ (c_hash ∈ s \/ c_hash ∈ text).
Proof.
  induction budget as [|b IH]; intros text i s e H; simpl in H; [discriminate|].
  destruct (text !! i) as [ch|] eqn:Hch; [|discriminate].
  destruct (char_eqb ch c_semi).
  - destruct (decodeReference table s) eqn:Hd; cbn [bind] in H; try discriminate.
    injection H as <-. apply decodeReference_error in Hd as [-> H0].
    split; [reflexivity|]. left. eapply list_elem_of_lookup_2. eassumption.
  - apply IH in H as [-> [Hin|Hin]]; (split; [reflexivity|]); [|right; assumption].
    apply elem_of_app in Hin as [Hin|Hin]; [left; assumption|].
    apply list_elem_of_singleton in Hin. subst ch.
    right. eapply list_elem_of_lookup_2. eassumption.
Qed.

Lemma processEntity_scan_fuel budget : forall text i s,
  processEntity_scan table budget text i s <> OutOfFuel.
Proof.
  induction budget as [|b IH]; intros text i s; simpl; [discriminate|].
  destruct (text !! i) as [ch|]; [|discriminate].
  destruct (char_eqb ch c_semi); [|apply IH].
  pose proof (decodeReference_fuel s).
  destruct (decodeReference table s); cbn [bind]; congruence.
Qed.

(** Where a scan that decoded something stopped. *)
Lemma processEntity_scan_position budget : forall text i s e i',
  processEntity_scan table budget text i s = OK (Some e, i') ->
  i < i' <= i + budget /\ i' <= length text /\ text !! (i' - 1) = Some c_semi
  /\ (forall j, i <= j < i' - 1 -> text !! j <> Some c_semi).
Proof.
  induction budget as [|b IH]; intros text i s e i' H; simpl in H; [discriminate|].
  destruct (text !! i) as [ch|] eqn:Hch; [|discriminate].
  unfold char_eqb in H. destruct (N.eqb_spec ch c_semi) as [->|Hne].
  - destruct (decodeReference table s); cbn [bind] in H; try discriminate.
    injection H as _ <-. apply lookup_lt_Some in Hch as Hlt.
    replace (i + 1 - 1) with i by lia.
    split_and!; [lia|lia|lia|assumption|intros j Hj; lia].
  - apply IH in H as (Hi & Hlen & Hsemi & Hno).
    split_and!; [lia|lia|assumption|assumption|].
    intros j Hj. destruct (decide (j = i)) as [->|Hji].
    + rewrite Hch. congruence.
    + apply Hno. lia.
Qed.

Lemma processEntity_error text i e :
  processEntity table text i = Throw e -> e = RangeError /\ c_hash ∈ text.
Proof.
  unfold processEntity. intros H.
  destruct (processEntity_scan table 10 text i []) as [[ent k]| |] eqn:Hs;
    cbn [bind] in H.
  - destruct (falsy ent); discriminate.
  - injection H as <-. apply processEntity_scan_error in Hs as [-> [Hin|Hin]].
    + apply elem_of_nil in Hin. contradiction.
    + split; [reflexivity|assumption].
  - discriminate.
Qed.

Lemma processEntity_fuel text i : processEntity table text i <> OutOfFuel.
Proof.
  unfold processEntity.
  pose proof (processEntity_scan_fuel 10 text i []).
  destruct (processEntity_scan table 10 text i []) as [[ent k]| |]; cbn [bind];
    [|discriminate|congruence].
  destruct (falsy ent); discriminate.
Qed.
End EntityOutcome.

(** X1. [processEntity] hands back either a literal ampersand and the index it
    was given, or a non-empty replacement and the index just after the
    semicolon that closes the reference; that semicolon is the first one after
    the ampersand, it stands at most ten characters after it, and the index
    handed back is never past the end of the text. *)
Theorem entity_resume_position (table : EntityTable) (text : jsstring) (i : nat)
    (r : EntityResult) :
  processEntity table text i = OK r ->
  (entity r = [c_amp] /\ newI r = i)
  \/ (entity r <> [] /\ i < newI r <= i + 10 /\ newI r <= length text
      /\ text !! (newI r - 1) = Some c_semi
      /\ (forall j, i <= j < newI r - 1 -> text !! j <> Some c_semi)).
Proof.
  unfold processEntity. intros H.
  destruct (processEntity_scan table 10 text i []) as [[ent k]| |] eqn:Hs;
    cbn [bind] in H; try discriminate.
  destruct ent as [[|c e]|]; cbn [falsy] in H; apply OK_inj in H; subst r;
    cbn [entity newI]; [left; split; reflexivity| |left; split; reflexivity].
  right. apply processEntity_scan_position in Hs.
  split; [discriminate|]. simpl. exact Hs.
Qed.

Lemma entity_resume_position_witness :
  processEntity XHTMLEntities_spec (str "a &amp; b") 3 = OK {| entity := [c_amp]; newI := 7 |}
  /\ 3 < 7 <= 3 + 10
  /\ str "a &amp; b" !! (7 - 1) = Some c_semi.
Proof.
  assert (H : processEntity XHTMLEntities_spec (str "a &amp; b") 3
              = OK {| entity := [c_amp]; newI := 7 |}) by (vm_compute; reflexivity).
  split; [exact H|].
  destruct (entity_resume_position _ _ _ _ H) as [[_ Hi]|(_ & Hi & _ & Hsemi & _)];
    [discriminate Hi|]. split; [exact Hi|exact Hsemi].
Defined.

(** The resumption index never lies before the index given. *)
Lemma processEntity_progress table text i r :
  processEntity table text i = OK r -> i <= newI r.
Proof.
  intros H. unfold processEntity in H.
  destruct (processEntity_scan table 10 text i []) as [[ent k]| |] eqn:Hs;
    cbn [bind] in H; try discriminate.
  destruct (falsy ent); apply OK_inj in H; subst r; cbn [newI]; [lia|].
  destruct ent as [e|].
  - apply processEntity_scan_position in Hs. lia.
  - clear -Hs. revert Hs. generalize (@nil char). generalize 10. intros b.
    revert i. induction b as [|b IH]; intros i s Hs; simpl in Hs.
    + injection Hs as <-. lia.
    + destruct (text !! i) as [ch|]; [|injection Hs as <-; lia].
      destruct (char_eqb ch c_semi).
      * destruct (decodeReference table s); cbn [bind] in Hs; try discriminate.
        injection Hs as _ <-. lia.
      * apply IH in Hs. lia.
Qed.

(* --------------------------------------------------------------------- *)
(** ** The loops, one round at a time *)

Lemma literal_loop_eq table fuel text i st :
  formatJSXTextLiteral_loop table fuel text i st
  = match text !! i with
    | None => OK st
    | Some c =>
        match fuel with
        | 0 => OutOfFuel
        | S fuel' =>
            if char_eqb c c_space || char_eqb c c_tab || char_eqb c c_cr then
              formatJSXTextLiteral_loop table fuel' text (i + 1)
                (if isInInitialLineWhitespace st then st
                 else {| result := result st; whitespace := whitespace st ++ [c];
                         isInInitialLineWhitespace := false;
                         seenNonWhitespace := seenNonWhitespace st |})
            else if char_eqb c c_lf then
              formatJSXTextLiteral_loop table fuel' text (i + 1)
                {| result := result st; whitespace := [];
                   isInInitialLineWhitespace := true;
                   seenNonWhitespace := seenNonWhitespace st |}
            else if char_eqb c c_amp then
              let* r := processEntity table text (i + 1) in
              formatJSXTextLiteral_loop table fuel' text (newI r - 1 + 1) (emit st (entity r))
            else
              formatJSXTextLiteral_loop table fuel' text (i + 1) (emit st [c])
        end
    end.
Proof. destruct fuel; reflexivity. Qed.

Lemma value_loop_eq table fuel text i res :
  formatJSXStringValueLiteral_loop table fuel text i res
  = match text !! i with
    | None => OK res
    | Some c =>
        match fuel with
        | 0 => OutOfFuel
        | S fuel' =>
            if char_eqb c c_lf then
              if isSpaceAt text (i + 1) then
                formatJSXStringValueLiteral_loop table fuel' text
                  (skipSpaces (length text) text i + 1) (res ++ [c_space])
              else
                formatJSXStringValueLiteral_loop table fuel' text (i + 1) (res ++ [c_lf])
            else if char_eqb c c_amp then
              let* r := processEntity table text (i + 1) in
              formatJSXStringValueLiteral_loop table fuel' text (newI r - 1 + 1)
                (res ++ entity r)
            else
              formatJSXStringValueLiteral_loop table fuel' text (i + 1) (res ++ [c])
        end
    end.
Proof. destruct fuel; reflexivity. Qed.

Lemma skipSpaces_ge fuel text : forall i, i <= skipSpaces fuel text i.
Proof.
  induction fuel as [|f IH]; intros i; simpl; [lia|].
  destruct ((i <? length text) && isSpaceAt text (i + 1)); [|lia].
  specialize (IH (i + 1)). lia.
Qed.

Lemma literal_loop_outcome table fuel : forall text i st,
  length text - i <= fuel ->
  returns (formatJSXTextLiteral_loop table fuel text i st)
  \/ formatJSXTextLiteral_loop table fuel text i st = Throw RangeError.
Proof.
  induction fuel as [|fuel IH]; intros text i st Hfuel; rewrite literal_loop_eq;
    (destruct (text !! i) as [c|] eqn:Hc; [|left; eexists; reflexivity]);
    apply lookup_lt_Some in Hc as Hlt; [lia|].
  destruct (char_eqb c c_space || char_eqb c c_tab || char_eqb c c_cr);
    [apply IH; lia|].
  destruct (char_eqb c c_lf); [apply IH; lia|].
  destruct (char_eqb c c_amp); [|apply IH; lia].
  pose proof (processEntity_fuel table text (i + 1)) as Hf.
  destruct (processEntity table text (i + 1)) as [r|e|] eqn:Hr; cbn [bind];
    [|right|congruence].
  - apply processEntity_progress in Hr. apply IH. lia.
  - apply processEntity_error in Hr as [-> _]. reflexivity.
Qed.

Lemma literal_loop_throw table fuel : forall text i st e,
  formatJSXTextLiteral_loop table fuel text i st = Throw e -> c_hash ∈ text.
Proof.
  induction fuel as [|fuel IH]; intros text i st e; rewrite literal_loop_eq;
    (destruct (text !! i) as [c|]; [|discriminate]); [discriminate|].
  destruct (char_eqb c c_space || char_eqb c c_tab || char_eqb c c_cr); [apply IH|].
  destruct (char_eqb c c_lf); [apply IH|].
  destruct (char_eqb c c_amp); [|apply IH].
  destruct (processEntity table text (i + 1)) as [r|e'|] eqn:Hr; cbn [bind];
    [apply IH| |discriminate].
  intros _. apply processEntity_error in Hr as [_ Hin]. exact Hin.
Qed.

Lemma value_loop_outcome table fuel : forall text i res,
  length text - i <= fuel ->
  returns (formatJSXStringValueLiteral_loop table fuel text i res)
  \/ formatJSXStringValueLiteral_loop table fuel text i res = Throw RangeError.
Proof.
  induction fuel as [|fuel IH]; intros text i res Hfuel; rewrite value_loop_eq;
    (destruct (text !! i) as [c|] eqn:Hc; [|left; eexists; reflexivity]);
    apply lookup_lt_Some in Hc as Hlt; [lia|].
  destruct (char_eqb c c_lf).
  { destruct (isSpaceAt text (i + 1)); apply IH; [|lia].
    pose proof (skipSpaces_ge (length text) text i). lia. }
  destruct (char_eqb c c_amp); [|apply IH; lia].
  pose proof (processEntity_fuel table text (i + 1)) as Hf.
  destruct (processEntity table text (i + 1)) as [r|e|] eqn:Hr; cbn [bind];
    [|right|congruence].
  - apply processEntity_progress in Hr. apply IH. lia.
  - apply processEntity_error in Hr as [-> _]. reflexivity.
Qed.

Lemma value_loop_throw table fuel : forall text i res e,
  formatJSXStringValueLiteral_loop table fuel text i res = Throw e -> c_hash ∈ text.
Proof.
  induction fuel as [|fuel IH]; intros text i res e; rewrite value_loop_eq;
    (destruct (text !! i) as [c|]; [|discriminate]); [discriminate|].
  destruct (char_eqb c c_lf); [destruct (isSpaceAt text (i + 1)); apply IH|].
  destruct (char_eqb c c_amp); [|apply IH].
  destruct (processEntity table text (i + 1)) as [r|e'|] eqn:Hr; cbn [bind];
    [apply IH| |discriminate].
  intros _. apply processEntity_error in Hr as [_ Hin]. exact Hin.
Qed.

(** X2. The two normalisers of JSX text, [formatJSXTextLiteral] for a child
    and [formatJSXStringValueLiteral] for an attribute value, always come to an
    end: they return, or they throw the [RangeError] of [String.fromCodePoint]
    on a numeric reference beyond U+10FFFF.  On a text without [#] they
    return. *)
Theorem normalisers_return_or_range_error (table : EntityTable) (text : jsstring) :
  (returns (formatJSXTextLiteral table text)
   \/ formatJSXTextLiteral table text = Throw RangeError)
  /\ (returns (formatJSXStringValueLiteral table text)
      \/ formatJSXStringValueLiteral table text = Throw RangeError)
  /\ (c_hash ∉ text ->
      returns (formatJSXTextLiteral table text)
      /\ returns (formatJSXStringValueLiteral table text)).
Proof.
  assert (H1 : returns (formatJSXTextLiteral table text)
               \/ formatJSXTextLiteral table text = Throw RangeError).
  { unfold formatJSXTextLiteral, formatJSXTextLiteral_result.
    destruct (literal_loop_outcome table (length text) text 0 initialLiteralState)
      as [[st ->]| ->]; [lia| |]; cbn [bind]; [left; eexists|right]; reflexivity. }
  assert (H2 : returns (formatJSXStringValueLiteral table text)
               \/ formatJSXStringValueLiteral table text = Throw RangeError).
  { unfold formatJSXStringValueLiteral.
    destruct (value_loop_outcome table (length text) text 0 [])
      as [[st ->]| ->]; [lia| |]; cbn [bind]; [left; eexists|right]; reflexivity. }
  split_and!; [exact H1|exact H2|]. intros Hno. split.
  - destruct H1 as [H1|H1]; [exact H1|]. exfalso. apply Hno.
    unfold formatJSXTextLiteral, formatJSXTextLiteral_result in H1.
    destruct (formatJSXTextLiteral_loop table (length text) text 0 initialLiteralState)
      eqn:Hl; cbn [bind] in H1; try discriminate.
    eapply literal_loop_throw. eassumption.
  - destruct H2 as [H2|H2]; [exact H2|]. exfalso. apply Hno.
    unfold formatJSXStringValueLiteral in H2.
    destruct (formatJSXStringValueLiteral_loop table (length text) text 0 [])
      eqn:Hl; cbn [bind] in H2; try discriminate.
    eapply value_loop_throw. eassumption.
Qed.

Lemma normalisers_return_or_range_error_witness :
  returns (formatJSXTextLiteral XHTMLEntities_spec (str "Tom &amp; Jerry"))
  /\ returns (formatJSXStringValueLiteral XHTMLEntities_spec (str "Tom &amp; Jerry"))
  /\ formatJSXTextLiteral XHTMLEntities_spec (str "&#1114112;") = Throw RangeError.
Proof.
  destruct (normalisers_return_or_range_error XHTMLEntities_spec (str "Tom &amp; Jerry"))
    as (_ & _ & H).
  destruct H as [H1 H2]; [vm_compute; list_not_mem|].
  split_and!; [exact H1|exact H2|vm_compute; reflexivity].
Defined.

(* --------------------------------------------------------------------- *)
(** ** Text on one line *)

Lemma literal_loop_single_line table fuel : forall text i st,
  length text - i <= fuel ->
  c_lf ∉ drop i text -> c_amp ∉ drop i text ->
  isInInitialLineWhitespace st = false ->
  exists st',
    formatJSXTextLiteral_loop table fuel text i st = OK st'
    /\ isInInitialLineWhitespace st' = false
    /\ result st' ++ whitespace st' = result st ++ whitespace st ++ drop i text.
Proof.
  induction fuel as [|fuel IH]; intros text i st Hfuel Hlf Hamp Hinit;
    rewrite literal_loop_eq; destruct (text !! i) as [c|] eqn:Hc.
  - apply lookup_lt_Some in Hc. lia.
  - exists st. rewrite drop_ge by (apply lookup_ge_None; assumption).
    rewrite app_nil_r. auto.
  - rewrite (drop_S _ _ _ Hc) in Hlf, Hamp |- *.
    apply not_elem_of_cons in Hlf as [Hclf Hlf], Hamp as [Hcamp Hamp].
    replace (i + 1) with (S i) by lia.
    unfold char_eqb at 4 5.
    destruct (N.eqb_spec c c_lf) as [|_]; [congruence|].
    destruct (N.eqb_spec c c_amp) as [|_]; [congruence|].
    apply lookup_lt_Some in Hc as Hlt.
    destruct (char_eqb c c_space || char_eqb c c_tab || char_eqb c c_cr).
    + rewrite Hinit.
      destruct (IH text (S i)
                  {| result := result st; whitespace := whitespace st ++ [c];
                     isInInitialLineWhitespace := false;
                     seenNonWhitespace := seenNonWhitespace st |})
        as (st' & -> & Hi' & Hres); [lia|assumption|assumption|reflexivity|].
      exists st'. split_and!; [reflexivity|assumption|].
      rewrite Hres. cbn [result whitespace]. rewrite <- !app_assoc. reflexivity.
    + destruct (IH text (S i) (emit st [c])) as (st' & -> & Hi' & Hres);
        [lia|assumption|assumption|reflexivity|].
      exists st'. split_and!; [reflexivity|assumption|].
      rewrite Hres. cbn [emit result whitespace]. unfold flushed.
      rewrite Hinit, andb_false_r. rewrite <- !app_assoc. reflexivity.
  - exists st. rewrite drop_ge by (apply lookup_ge_None; assumption).
    rewrite app_nil_r. auto.
Qed.

(** X3. A text without line feed and without ampersand is turned into its
    JSON string as it stands: on a single line nothing is trimmed, neither
    leading nor trailing white space. *)
Theorem single_line_text_is_kept (table : EntityTable) (text : jsstring) :
  c_lf ∉ text -> c_amp ∉ text ->
  formatJSXTextLiteral table text = OK (JSON_stringify text).
Proof.
  intros Hlf Hamp. unfold formatJSXTextLiteral, formatJSXTextLiteral_result.
  destruct (literal_loop_single_line table (length text) text 0 initialLiteralState)
    as (st & -> & Hinit & Hres); [lia|assumption|assumption|reflexivity|].
  cbn [bind]. rewrite Hinit, Hres. reflexivity.
Qed.

Lemma single_line_text_is_kept_witness :
  formatJSXTextLiteral XHTMLEntities_spec (str "  two words ")
  = OK (JSON_stringify (str "  two words ")).
Proof.
  apply single_line_text_is_kept; vm_compute; list_not_mem.
Defined.

(* --------------------------------------------------------------------- *)
(** ** Words and the white space between them *)

Lemma isTextSpace_cases c :
  isTextSpace c = true ->
  (char_eqb c c_space || char_eqb c c_tab || char_eqb c c_cr = true /\ c <> c_lf)
  \/ (char_eqb c c_space || char_eqb c c_tab || char_eqb c c_cr = false /\ c = c_lf).
Proof.
  unfold isTextSpace, isLineSpace, char_eqb. intros H.
  destruct (N.eqb_spec c c_lf) as [Heq|Hlf]; [right; rewrite Heq; split; reflexivity|].
  left. rewrite orb_false_r in H. split; assumption.
Qed.

(** A stretch of white space leaves [result] alone; if it holds a line feed,
    the pending white space is dropped and the line is at its start. *)
Lemma literal_loop_space table seg : forall pre post st fuel,
  forallb isTextSpace seg = true ->
  exists st',
    formatJSXTextLiteral_loop table (length seg + fuel) (pre ++ seg ++ post) (length pre) st
    = formatJSXTextLiteral_loop table fuel (pre ++ seg ++ post) (length pre + length seg) st'
    /\ result st' = result st
    /\ seenNonWhitespace st' = seenNonWhitespace st
    /\ (c_lf ∈ seg -> isInInitialLineWhitespace st' = true /\ whitespace st' = [])
    /\ (c_lf ∉ seg ->
        isInInitialLineWhitespace st' = isInInitialLineWhitespace st
        /\ whitespace st'
           = if isInInitialLineWhitespace st then whitespace st else whitespace st ++ seg).
Proof.
  induction seg as [|c seg IH]; intros pre post st fuel Hseg.
  - exists st. simpl. rewrite Nat.add_0_r, app_nil_r.
    split_and!; try reflexivity.
    + intros H. apply elem_of_nil in H. contradiction.
    + intros _. split; [reflexivity|]. destruct (isInInitialLineWhitespace st); reflexivity.
  - simpl in Hseg. apply andb_true_iff in Hseg as [Hc Hseg].
    assert (Hstep : forall st1,
              formatJSXTextLiteral_loop table fuel ((pre ++ [c]) ++ seg ++ post)
                (length (pre ++ [c]) + length seg) st1
              = formatJSXTextLiteral_loop table fuel (pre ++ (c :: seg) ++ post)
                  (length pre + length (c :: seg)) st1).
    { intros st1. rewrite <- !app_assoc, length_app. simpl.
      replace (length pre + 1 + length seg) with (length pre + S (length seg)) by lia.
      reflexivity. }
    assert (Hhead : forall st1,
              formatJSXTextLiteral_loop table (length seg + fuel) (pre ++ (c :: seg) ++ post)
                (length pre + 1) st1
              = formatJSXTextLiteral_loop table (length seg + fuel)
                  ((pre ++ [c]) ++ seg ++ post) (length (pre ++ [c])) st1).
    { intros st1. rewrite <- !app_assoc, length_app. reflexivity. }
    cbn [length]. replace (S (length seg) + fuel) with (S (length seg + fuel)) by lia.
    rewrite literal_loop_eq.
    cbn [app]. rewrite list_lookup_middle by reflexivity.
    destruct (isTextSpace_cases c Hc) as [[Hline Hlf]|[Hline ->]]; rewrite Hline.
    + set (st1 := if isInInitialLineWhitespace st then st
                  else {| result := result st; whitespace := whitespace st ++ [c];
                          isInInitialLineWhitespace := false;
                          seenNonWhitespace := seenNonWhitespace st |}).
      destruct (IH (pre ++ [c]) post st1 fuel Hseg) as (st' & Heq & Hres & Hseen & Hin & Hout).
      exists st'. change (pre ++ c :: seg ++ post) with (pre ++ (c :: seg) ++ post).
      rewrite Hhead, Heq, Hstep.
      assert (Hr1 : result st1 = result st)
        by (subst st1; destruct (isInInitialLineWhitespace st); reflexivity).
      assert (Hs1 : seenNonWhitespace st1 = seenNonWhitespace st)
        by (subst st1; destruct (isInInitialLineWhitespace st); reflexivity).
      split_and!; [reflexivity|congruence|congruence| |].
      * intros H. apply elem_of_cons in H as [H|H]; [congruence|]. apply Hin. assumption.
      * intros H. apply not_elem_of_cons in H as [_ H].
        destruct (Hout H) as [Hi Hw]. rewrite Hi, Hw. subst st1.
        destruct (isInInitialLineWhitespace st) eqn:Hst; cbn; rewrite ?Hst;
          [split; reflexivity|]. split; [reflexivity|].
        rewrite <- app_assoc. reflexivity.
    + unfold char_eqb at 1. rewrite N.eqb_refl.
      set (st1 := {| result := result st; whitespace := [];
                     isInInitialLineWhitespace := true;
                     seenNonWhitespace := seenNonWhitespace st |}).
      destruct (IH (pre ++ [c_lf]) post st1 fuel Hseg)
        as (st' & Heq & Hres & Hseen & Hin & Hout).
      exists st'. change (pre ++ c_lf :: seg ++ post) with (pre ++ (c_lf :: seg) ++ post).
      rewrite Hhead, Heq, Hstep.
      split_and!; [reflexivity|assumption|assumption| |].
      * intros _. destruct (decide (c_lf ∈ seg)) as [H|H]; [apply Hin; assumption|].
        destruct (Hout H) as [Hi Hw]. rewrite Hi, Hw. split; reflexivity.
      * intros H. exfalso. apply H. apply list_elem_of_here.
Qed.

(** A word is appended to what the pending line break and white space have
    become. *)
Lemma literal_loop_word table seg : forall pre post st fuel,
  forallb plainChar seg = true ->
  exists st',
    formatJSXTextLiteral_loop table (length seg + fuel) (pre ++ seg ++ post) (length pre) st
    = formatJSXTextLiteral_loop table fuel (pre ++ seg ++ post) (length pre + length seg) st'
    /\ (seg = [] -> st' = st)
    /\ (seg <> [] ->
        result st' = flushed st ++ seg /\ whitespace st' = []
        /\ isInInitialLineWhitespace st' = false /\ seenNonWhitespace st' = true).
Proof.
  induction seg as [|c seg IH]; intros pre post st fuel Hseg.
  - exists st. simpl. rewrite Nat.add_0_r. split_and!; [reflexivity|reflexivity|congruence].
  - simpl in Hseg. apply andb_true_iff in Hseg as [Hc Hseg].
    destruct (IH (pre ++ [c]) post (emit st [c]) fuel Hseg) as (st' & Heq & Hnil & Hcons).
    exists st'. split_and!; [|discriminate|intros _].
    + cbn [length]. replace (S (length seg) + fuel) with (S (length seg + fuel)) by lia.
      rewrite literal_loop_eq. cbn [app]. rewrite list_lookup_middle by reflexivity.
      unfold plainChar in Hc. apply negb_true_iff in Hc.
      repeat (apply orb_false_iff in Hc as [Hc ?]).
      rewrite Hc.
      replace (char_eqb c c_tab) with false by congruence.
      replace (char_eqb c c_cr) with false by congruence.
      replace (char_eqb c c_lf) with false by congruence.
      replace (char_eqb c c_amp) with false by congruence.
      cbn [orb].
      rewrite <- !app_assoc, length_app in Heq. cbn [app length] in Heq.
      rewrite Heq.
      replace (length pre + 1 + length seg) with (length pre + S (length seg)) by lia.
      reflexivity.
    + destruct seg as [|d seg].
      * rewrite (Hnil eq_refl). cbn [emit result whitespace isInInitialLineWhitespace
                                       seenNonWhitespace]. auto.
      * destruct Hcons as (Hres & Hws & Hinit & Hseen); [discriminate|].
        split_and!; try assumption.
        rewrite Hres. unfold flushed at 1.
        cbn [emit result whitespace isInInitialLineWhitespace seenNonWhitespace].
        rewrite andb_false_r, app_nil_r, <- app_assoc. reflexivity.
Qed.

(** Two words with white space between them that holds a line break. *)
Lemma literal_across_line_break table (w1 ws w2 : jsstring) :
  forallb plainChar w1 = true ->
  forallb isTextSpace ws = true -> c_lf ∈ ws ->
  forallb plainChar w2 = true ->
  formatJSXTextLiteral_result table (w1 ++ ws ++ w2)
  = OK (w1 ++ match w1, w2 with
              | _ :: _, _ :: _ => [c_space]
              | _, _ => []
              end ++ w2).
Proof.
  intros Hw1 Hws Hlf Hw2. unfold formatJSXTextLiteral_result.
  replace (length (w1 ++ ws ++ w2))
    with (length w1 + (length ws + (length w2 + 0)))
    by (rewrite !length_app; lia).
  destruct (literal_loop_word table w1 [] (ws ++ w2) initialLiteralState
              (length ws + (length w2 + 0)) Hw1) as (st1 & Heq1 & Hnil1 & Hcons1).
  cbn [app length] in Heq1. rewrite Heq1. clear Heq1.
  destruct (literal_loop_space table ws w1 w2 st1 (length w2 + 0) Hws)
    as (st2 & Heq2 & Hres2 & Hseen2 & Hin2 & _).
  rewrite Nat.add_0_l, Heq2. clear Heq2.
  destruct (Hin2 Hlf) as [Hinit2 Hwsp2].
  destruct (literal_loop_word table w2 (w1 ++ ws) [] st2 0 Hw2)
    as (st3 & Heq3 & Hnil3 & Hcons3).
  rewrite app_nil_r, <- app_assoc, length_app in Heq3. rewrite Heq3. clear Heq3.
  rewrite literal_loop_eq.
  rewrite lookup_ge_None_2 by (rewrite !length_app; lia).
  cbn [bind]. f_equal.
  destruct w2 as [|d w2].
  - rewrite (Hnil3 eq_refl), Hinit2, Hres2.
    destruct w1 as [|c w1].
    + rewrite (Hnil1 eq_refl). reflexivity.
    + destruct Hcons1 as (Hres1 & _); [discriminate|]. rewrite Hres1.
      unfold flushed. cbn. rewrite !app_nil_r. reflexivity.
  - destruct Hcons3 as (Hres3 & Hws3 & Hinit3 & _); [discriminate|].
    rewrite Hinit3, Hws3, Hres3, app_nil_r.
    unfold flushed. rewrite Hinit2, Hwsp2, Hseen2, Hres2, andb_true_r, app_nil_r.
    destruct w1 as [|c w1].
    + rewrite (Hnil1 eq_refl). reflexivity.
    + destruct Hcons1 as (Hres1 & _ & _ & Hseen1); [discriminate|].
      rewrite Hseen1, Hres1. unfold flushed. cbn. rewrite <- app_assoc. reflexivity.
Qed.

(** X4. Between two words, white space that holds a line break becomes one
    space, however many line breaks, blank lines and indentation it is made
    of; at the start or at the end of the text it vanishes. *)
Theorem line_break_becomes_one_space (table : EntityTable) (w1 ws w2 : jsstring) :
  forallb plainChar w1 = true ->
  forallb isTextSpace ws = true -> c_lf ∈ ws ->
  forallb plainChar w2 = true ->
  formatJSXTextLiteral table (w1 ++ ws ++ w2)
  = OK (JSON_stringify (w1 ++ match w1, w2 with
                              | _ :: _, _ :: _ => [c_space]
                              | _, _ => []
                              end ++ w2)).
Proof.
  intros Hw1 Hws Hlf Hw2. unfold formatJSXTextLiteral.
  rewrite (literal_across_line_break table w1 ws w2 Hw1 Hws Hlf Hw2). reflexivity.
Qed.

Lemma line_break_becomes_one_space_witness :
  formatJSXTextLiteral XHTMLEntities_spec
    (str "Hello," ++ [c_space; c_lf; c_lf; c_tab; c_space] ++ str "world")
  = OK (JSON_stringify (str "Hello, world")).
Proof.
  rewrite (line_break_becomes_one_space XHTMLEntities_spec (str "Hello,")
             [c_space; c_lf; c_lf; c_tab; c_space] (str "world"));
    [vm_compute; reflexivity|vm_compute; reflexivity|vm_compute; reflexivity
    |vm_compute; list_mem|vm_compute; reflexivity].
Defined.

Lemma JSON_stringify_empty : jsstring_eqb (JSON_stringify []) [c_quote; c_quote] = true.
Proof. reflexivity. Qed.

(** X5. A text child made of white space only, with a line break in it, adds
    no argument to the call: the token is replaced by the filler alone, with
    no argument separator. *)
Theorem blank_lines_add_no_argument (E : Env) (st : RunState E) (token : Token) :
  currentToken (tokensOf st) = OK token ->
  forallb isTextSpace (tokenText (tokensOf st) token) = true ->
  c_lf ∈ tokenText (tokensOf st) token ->
  processChildTextElement E st
  = onTokens (fun tp => replaceToken tp
                          (formatJSXTextReplacement (tokenText (tokensOf st) token))) st.
Proof.
  intros Htok Hws Hlf. unfold processChildTextElement. rewrite Htok. cbn [bind].
  fold (tokenText (tokensOf st) token).
  unfold formatJSXTextLiteral.
  pose proof (literal_across_line_break (XHTMLEntities E) [] _ [] eq_refl Hws Hlf eq_refl)
    as H.
  rewrite app_nil_r in H. cbn [app] in H. rewrite H. cbn [bind].
  rewrite JSON_stringify_empty. reflexivity.
Qed.

Lemma blank_lines_add_no_argument_witness :
  processChildTextElement _ blankChild
  = OK (with_tokens blankChild
          {| code := code (tokensOf blankChild); tokens := tokens (tokensOf blankChild);
             resultCode := str "React.createElement('p', {}" ++ [c_lf; c_space; c_space];
             tokenIndex := 4 |}).
Proof.
  rewrite (blank_lines_add_no_argument _ blankChild (tok tt.jsxText 3 6));
    [vm_compute; reflexivity|reflexivity|vm_compute; reflexivity|vm_compute; list_mem].
Defined.

(* --------------------------------------------------------------------- *)
(** ** Attribute values *)

Lemma value_loop_single_line table fuel : forall text i res,
  length text - i <= fuel ->
  c_lf ∉ drop i text -> c_amp ∉ drop i text ->
  formatJSXStringValueLiteral_loop table fuel text i res = OK (res ++ drop i text).
Proof.
  induction fuel as [|fuel IH]; intros text i res Hfuel Hlf Hamp;
    rewrite value_loop_eq; destruct (text !! i) as [c|] eqn:Hc.
  - apply lookup_lt_Some in Hc. lia.
  - rewrite drop_ge by (apply lookup_ge_None; assumption). rewrite app_nil_r. reflexivity.
  - rewrite (drop_S _ _ _ Hc) in Hlf, Hamp |- *.
    apply not_elem_of_cons in Hlf as [Hclf Hlf], Hamp as [Hcamp Hamp].
    unfold char_eqb.
    destruct (N.eqb_spec c c_lf) as [|_]; [congruence|].
    destruct (N.eqb_spec c c_amp) as [|_]; [congruence|].
    apply lookup_lt_Some in Hc as Hlt.
    replace (i + 1) with (S i) by lia.
    rewrite IH by (assumption || lia).
    rewrite <- app_assoc. reflexivity.
  - rewrite drop_ge by (apply lookup_ge_None; assumption). rewrite app_nil_r. reflexivity.
Qed.

Lemma value_loop_segment table seg : forall pre post res fuel,
  c_lf ∉ seg -> c_amp ∉ seg ->
  formatJSXStringValueLiteral_loop table (length seg + fuel) (pre ++ seg ++ post)
    (length pre) res
  = formatJSXStringValueLiteral_loop table fuel (pre ++ seg ++ post)
      (length pre + length seg) (res ++ seg).
Proof.
  induction seg as [|c seg IH]; intros pre post res fuel Hlf Hamp.
  - simpl. rewrite Nat.add_0_r, app_nil_r. reflexivity.
  - apply not_elem_of_cons in Hlf as [Hclf Hlf], Hamp as [Hcamp Hamp].
    cbn [length]. replace (S (length seg) + fuel) with (S (length seg + fuel)) by lia.
    rewrite value_loop_eq. cbn [app]. rewrite list_lookup_middle by reflexivity.
    unfold char_eqb.
    destruct (N.eqb_spec c c_lf) as [|_]; [congruence|].
    destruct (N.eqb_spec c c_amp) as [|_]; [congruence|].
    specialize (IH (pre ++ [c]) post (res ++ [c]) fuel Hlf Hamp).
    rewrite <- !app_assoc, length_app in IH. cbn [app length] in IH.
    rewrite IH.
    replace (length pre + 1 + length seg) with (length pre + S (length seg)) by lia.
    reflexivity.
Qed.

(** The white space after a line feed is skipped up to its last character. *)
Lemma skipSpaces_run ws : forall pre post fuel,
  forallb isJSSpace ws = true ->
  match post with c :: _ => isJSSpace c = false | [] => True end ->
  length ws < fuel -> pre <> [] ->
  skipSpaces fuel (pre ++ ws ++ post) (length pre - 1) = length pre - 1 + length ws.
Proof.
  induction ws as [|c ws IH]; intros pre post fuel Hws Hpost Hfuel Hpre;
    (destruct fuel as [|fuel]; [simpl in Hfuel; lia|]);
    assert (Hlen : 0 < length pre) by (destruct pre; [congruence|simpl; lia]);
    cbn [skipSpaces]; unfold isSpaceAt;
    replace (length pre - 1 + 1) with (length pre) by lia.
  - cbn [app]. rewrite lookup_app_r by lia. rewrite Nat.sub_diag.
    destruct post as [|d post]; cbn.
    + rewrite andb_false_r. lia.
    + rewrite Hpost, andb_false_r. lia.
  - simpl in Hws. apply andb_true_iff in Hws as [Hc Hws].
    cbn [app]. rewrite list_lookup_middle by reflexivity. rewrite Hc.
    replace (length pre - 1 <? length (pre ++ c :: ws ++ post)) with true
      by (symmetry; apply Nat.ltb_lt; rewrite length_app; lia).
    cbn [andb].
    specialize (IH (pre ++ [c]) post fuel Hws Hpost).
    rewrite <- !app_assoc, length_app in IH. cbn [app length] in IH.
    replace (length pre + 1 - 1) with (length pre) in IH by lia.
    rewrite IH; [simpl; lia|simpl in Hfuel; lia|].
    destruct pre; discriminate.
Qed.

(** X6. In an attribute value, a line feed and the white space that follows
    it become one space; a line feed that no white space follows is kept.  The
    rest of a value without ampersand is taken over as it stands: white space
    before the line feed stays, unlike in a text child. *)
Theorem value_line_break (table : EntityTable) (a ws b : jsstring) :
  c_lf ∉ a -> c_amp ∉ a ->
  forallb isJSSpace ws = true ->
  match b with c :: _ => isJSSpace c = false | [] => True end ->
  c_lf ∉ b -> c_amp ∉ b ->
  formatJSXStringValueLiteral table (a ++ c_lf :: ws ++ b)
  = OK (JSON_stringify (a ++ match ws with [] => [c_lf] | _ :: _ => [c_space] end ++ b)).
Proof.
  intros Half Haamp Hws Hb Hblf Hbamp. unfold formatJSXStringValueLiteral.
  set (text := a ++ c_lf :: ws ++ b).
  assert (Hlen : length text = length a + S (length ws + length b)).
  { subst text. rewrite length_app. cbn [length]. rewrite length_app. lia. }
  rewrite Hlen.
  pose proof (value_loop_segment table a [] (c_lf :: ws ++ b) [] (S (length ws + length b))
                Half Haamp) as Hseg.
  cbn [app length] in Hseg. rewrite Nat.add_0_l in Hseg.
  fold text in Hseg. rewrite Hseg. clear Hseg.
  rewrite value_loop_eq.
  assert (Hat : text !! length a = Some c_lf)
    by (subst text; apply list_lookup_middle; reflexivity).
  rewrite Hat. unfold char_eqb at 1. rewrite N.eqb_refl.
  assert (Htext : text = (a ++ [c_lf]) ++ ws ++ b)
    by (subst text; rewrite <- app_assoc; reflexivity).
  assert (Hdrop : drop (length a + 1 + length ws) text = b).
  { rewrite Htext, app_assoc.
    replace (length a + 1 + length ws) with (length ((a ++ [c_lf]) ++ ws))
      by (rewrite !length_app; simpl; lia).
    apply drop_app_length. }
  destruct ws as [|c ws].
  - replace (isSpaceAt text (length a + 1)) with false.
    2:{ unfold isSpaceAt. rewrite Htext.
        rewrite lookup_app_r by (rewrite length_app; simpl; lia).
        rewrite length_app. cbn [length app].
        replace (length a + 1 - (length a + 1)) with 0 by lia.
        destruct b as [|d b]; [reflexivity|]. cbn. symmetry. exact Hb. }
    cbn [length] in Hdrop. rewrite Nat.add_0_r in Hdrop.
    rewrite value_loop_single_line; rewrite ?Hdrop; try assumption; [|lia].
    cbn [bind]. rewrite <- app_assoc. reflexivity.
  - replace (isSpaceAt text (length a + 1)) with true.
    2:{ unfold isSpaceAt. rewrite Htext.
        replace (length a + 1) with (length (a ++ [c_lf])) by (rewrite length_app; simpl; lia).
        cbn [app]. rewrite list_lookup_middle by reflexivity.
        simpl in Hws. apply andb_true_iff in Hws as [-> _]. reflexivity. }
    pose proof (skipSpaces_run (c :: ws) (a ++ [c_lf]) b (length text) Hws Hb) as Hskip.
    rewrite <- Htext, length_app in Hskip. cbn [length] in Hskip.
    replace (length a + 1 - 1) with (length a) in Hskip by lia.
    rewrite Hlen in Hskip at 1. rewrite Hskip; [|cbn [length]; lia|destruct a; discriminate].
    cbn [length] in Hdrop, Hlen |- *.
    replace (length a + S (length ws) + 1) with (length a + 1 + S (length ws)) by lia.
    rewrite value_loop_single_line; rewrite ?Hdrop; try assumption; [|lia].
    cbn [bind]. rewrite <- app_assoc. reflexivity.
Qed.

Lemma value_line_break_witness :
  formatJSXStringValueLiteral XHTMLEntities_spec
    (str "one " ++ c_lf :: [c_space; c_space; c_tab] ++ str "two")
  = OK (JSON_stringify (str "one  two")).
Proof.
  rewrite (value_line_break XHTMLEntities_spec (str "one ") [c_space; c_space; c_tab]
             (str "two"));
    [vm_compute; reflexivity|vm_compute; list_not_mem|vm_compute; list_not_mem
    |vm_compute; reflexivity|vm_compute; reflexivity|vm_compute; list_not_mem
    |vm_compute; list_not_mem].
Defined.

(** The text that stands in place of a single-line text is made of its
    spaces. *)
Lemma formatJSXTextReplacement_single_line text :
  c_lf ∉ text ->
  formatJSXTextReplacement text = repeat_char c_space (countOf c_space text).
Proof.
  intros Hlf. unfold formatJSXTextReplacement.
  destruct (formatJSXTextReplacement_loop_spec text 0 0)
    as (before & line & Heq & Hline & Hbefore & ->).
  destruct Hbefore as [->|[b ->]].
  - simpl in Heq. subst line.
    replace (countOf c_lf text) with 0; [reflexivity|].
    symmetry. unfold countOf. apply count_occ_not_In.
    intros Hin. apply Hlf. apply list_elem_of_In. assumption.
  - exfalso. apply Hlf. rewrite Heq. apply elem_of_app. left.
    apply elem_of_app. right. apply list_elem_of_here.
Qed.

(* --------------------------------------------------------------------- *)
(** ** How long a numeric reference may be *)

Lemma digits_hold_no_semicolon digits :
  forallb isHexDigit digits = true -> c_semi ∉ digits.
Proof.
  induction digits as [|d digits IH]; intros H; [apply not_elem_of_nil|].
  cbn [forallb] in H. apply andb_true_iff in H as [Hd H].
  apply not_elem_of_cons. split; [|apply IH; assumption].
  intros <-. vm_compute in Hd. discriminate.
Qed.

Lemma isDecimalDigit_isHexDigit digits :
  forallb isDecimalDigit digits = true -> forallb isHexDigit digits = true.
Proof.
  induction digits as [|d digits IH]; intros H; [reflexivity|].
  cbn [forallb] in H |- *. apply andb_true_iff in H as [Hd H].
  rewrite IH by assumption. unfold isHexDigit. rewrite Hd. reflexivity.
Qed.

(** A reference that is a marker followed by digits. *)
Lemma numeric_reference table (marker digits pre post : jsstring) (radix : N) :
  decodeReference table (marker ++ digits)
  = (let* e := fromCodePoint (parseInt digits radix) in OK (Some e)) ->
  c_semi ∉ marker ->
  forallb isHexDigit digits = true ->
  (length (marker ++ digits) < 10 ->
   processEntity table (pre ++ c_amp :: marker ++ digits ++ c_semi :: post)
     (length pre + 1)
   = (let* e := fromCodePoint (parseInt digits radix) in
      OK {| entity := e; newI := length pre + 1 + length (marker ++ digits) + 1 |}))
  /\ (10 <= length (marker ++ digits) ->
      unresolvedAt table (pre ++ c_amp :: marker ++ digits ++ c_semi :: post)
        (length pre + 1)).
Proof.
  intros Hdecode Hmarker Hdigits.
  assert (Hno : c_semi ∉ marker ++ digits).
  { intros Hin. apply elem_of_app in Hin as [Hin|Hin]; [contradiction|].
    revert Hin. apply digits_hold_no_semicolon. assumption. }
  assert (Htext : pre ++ c_amp :: marker ++ digits ++ c_semi :: post
                  = (pre ++ [c_amp]) ++ (marker ++ digits) ++ c_semi :: post)
    by (rewrite <- !app_assoc; reflexivity).
  assert (Hlen : length (pre ++ [c_amp]) = length pre + 1)
    by (rewrite length_app; reflexivity).
  split.
  - intros Hshort. unfold processEntity. rewrite Htext, <- Hlen.
    rewrite (processEntity_scan_found table (marker ++ digits) (pre ++ [c_amp]) post [] 10)
      by assumption.
    cbn [app]. rewrite Hdecode.
    destruct (fromCodePoint (parseInt digits radix)) as [e| |] eqn:He; cbn [bind];
      try reflexivity.
    rewrite (fromCodePoint_not_empty _ _ He). reflexivity.
  - intros Hlong. apply unresolved_without_semicolon. intros j Hj.
    rewrite Htext. rewrite lookup_app_r by lia. rewrite Hlen.
    rewrite lookup_app_l by lia.
    intros Hat. apply Hno. eapply list_elem_of_lookup_2. eassumption.
Qed.

(** X26. A numeric reference is decoded when the [;] that closes it is among
    the ten characters after the [&]: a decimal reference [&#d...d;] with up
    to eight digits and a hexadecimal reference [&#xh...h;] with up to seven
    stand for the code point their digits denote; with more digits (leading
    zeros included) the reference is not decoded. *)
Theorem numeric_reference_length (table : EntityTable) (pre digits post : jsstring) :
  (DECIMAL_NUMBER digits = true ->
   (length digits <= 8 ->
    processEntity table (pre ++ c_amp :: c_hash :: digits ++ c_semi :: post) (length pre + 1)
    = (let* e := fromCodePoint (parseInt digits 10) in
       OK {| entity := e; newI := length pre + length digits + 3 |}))
   /\ (9 <= length digits ->
       unresolvedAt table (pre ++ c_amp :: c_hash :: digits ++ c_semi :: post)
         (length pre + 1)))
  /\ (HEX_NUMBER digits = true ->
      (length digits <= 7 ->
       processEntity table (pre ++ c_amp :: c_hash :: c_x :: digits ++ c_semi :: post)
         (length pre + 1)
       = (let* e := fromCodePoint (parseInt digits 16) in
          OK {| entity := e; newI := length pre + length digits + 4 |}))
      /\ (8 <= length digits ->
          unresolvedAt table (pre ++ c_amp :: c_hash :: c_x :: digits ++ c_semi :: post)
            (length pre + 1))).
Proof.
  destruct (decodeReference_forms table) as (Hdec & Hhex & _).
  split.
  - intros Hdigits.
    destruct (numeric_reference table [c_hash] digits pre post 10) as [Hshort Hlong].
    + apply Hdec. assumption.
    + apply not_elem_of_cons. split; [discriminate|apply not_elem_of_nil].
    + apply isDecimalDigit_isHexDigit. unfold DECIMAL_NUMBER in Hdigits.
      destruct digits; [discriminate|assumption].
    + cbn [app length] in Hshort, Hlong. split.
      * intros Hlen. rewrite Hshort by lia.
        replace (length pre + 1 + S (length digits) + 1)
          with (length pre + length digits + 3) by lia.
        reflexivity.
      * intros Hlen. apply Hlong. lia.
  - intros Hdigits.
    destruct (numeric_reference table [c_hash; c_x] digits pre post 16) as [Hshort Hlong].
    + apply Hhex. assumption.
    + apply not_elem_of_cons. split; [discriminate|].
      apply not_elem_of_cons. split; [discriminate|apply not_elem_of_nil].
    + unfold HEX_NUMBER in Hdigits. destruct digits; [discriminate|assumption].
    + cbn [app length] in Hshort, Hlong. split.
      * intros Hlen. rewrite Hshort by lia.
        replace (length pre + 1 + S (S (length digits)) + 1)
          with (length pre + length digits + 4) by lia.
        reflexivity.
      * intros Hlen. apply Hlong. lia.
Qed.

Lemma numeric_reference_length_witness :
  processEntity XHTMLEntities_spec (str "&#00000065;") 1
  = OK {| entity := str "A"; newI := 11 |}
  /\ unresolvedAt XHTMLEntities_spec (str "&#000000065;") 1
  /\ processEntity XHTMLEntities_spec (str "&#x1F600;") 1
     = OK {| entity := [55357%N; 56832%N]; newI := 9 |}.
Proof.
  destruct (numeric_reference_length XHTMLEntities_spec [] (str "00000065") [])
    as [Hdec _].
  destruct (numeric_reference_length XHTMLEntities_spec [] (str "000000065") [])
    as [Hlong _].
  destruct (numeric_reference_length XHTMLEntities_spec [] (str "1F600") [])
    as [_ Hhex].
  destruct Hdec as [Hdec _]; [vm_compute; reflexivity|].
  destruct Hlong as [_ Hlong]; [vm_compute; reflexivity|].
  destruct Hhex as [Hhex _]; [vm_compute; reflexivity|].
  split_and!.
  - etrans; [apply Hdec; vm_compute; lia|]. vm_compute. reflexivity.
  - apply Hlong. vm_compute. lia.
  - etrans; [apply Hhex; vm_compute; lia|]. vm_compute. reflexivity.
Defined.

(* ===================================================================== *)
(** * Further properties: what is copied is the source *)
(* ===================================================================== *)

Lemma slice_app (s : jsstring) (a b c : nat) :
  a <= b -> b <= c -> slice s a b ++ slice s b c = slice s a c.
Proof.
  intros Hab Hbc. unfold slice.
  replace (drop b s) with (drop (b - a) (drop a s))
    by (rewrite drop_drop; f_equal; lia).
  rewrite take_take_drop. f_equal. lia.
Qed.

Lemma slice_empty (s : jsstring) (a : nat) : slice s a a = [].
Proof. unfold slice. rewrite Nat.sub_diag. reflexivity. Qed.

Lemma with_tokens_with_tokens {NM IP PV} (st : State NM IP PV) tp tp' :
  with_tokens (with_tokens st tp) tp' = with_tokens st tp'.
Proof. reflexivity. Qed.

Lemma with_tokens_same {NM IP PV} (st : State NM IP PV) :
  with_tokens st (emitted (tokensOf st) [] 0) = st.
Proof.
  destruct st as [[c ts r i] ? ? ? ? ? ? ? ? ?]. unfold with_tokens, emitted. simpl.
  rewrite app_nil_r, Nat.add_0_r. reflexivity.
Qed.

Lemma consumedEnd_emitted tp out token :
  tokens tp !! tokenIndex tp = Some token ->
  consumedEnd (emitted tp out 1) = end_ token.
Proof.
  intros H. unfold consumedEnd. simpl.
  replace (tokenIndex tp + 1) with (S (tokenIndex tp)) by lia.
  rewrite H. reflexivity.
Qed.

(** In a token sequence in source order the consumed source ends before the
    current token starts. *)
Lemma consumedEnd_le_start tp token :
  inSourceOrder (tokens tp) ->
  tokens tp !! tokenIndex tp = Some token ->
  consumedEnd tp <= start token.
Proof.
  intros [_ Hnext] Htok. unfold consumedEnd.
  destruct (tokenIndex tp) as [|k] eqn:Hk; [lia|].
  destruct (tokens tp !! k) as [prev|] eqn:Hprev; [|lia].
  apply (Hnext k prev token Hprev). replace (k + 1) with (S k) by lia. exact Htok.
Qed.

Section Copy.
Variable E : Env.

(** A token that is left alone is copied, with the source before it. *)
Lemma processToken_copies fuel (st : RunState E) token :
  inSourceOrder (tokens (tokensOf st)) ->
  tokens (tokensOf st) !! tokenIndex (tokensOf st) = Some token ->
  leftAlone E token ->
  processToken E (S fuel) st
  = OK (with_tokens st
          (emitted (tokensOf st)
             (slice (code (tokensOf st)) (consumedEnd (tokensOf st)) (end_ token)) 1)).
Proof.
  intros Horder Htok (Hclass & Hjsx & Hdecline).
  cbn [processToken].
  rewrite (matches1_lookup _ _ _ Htok).
  rewrite bool_decide_eq_false_2 by assumption.
  rewrite dispatch_declined.
  - unfold onTokens. rewrite (copyToken_lookup _ _ Htok). cbn [bind].
    unfold previousWhitespace, tokenText. fold (consumedEnd (tokensOf st)).
    rewrite slice_app; [reflexivity| |apply (proj1 Horder _ _ Htok)].
    apply consumedEnd_le_start; assumption.
  - rewrite (matches1_lookup _ _ _ Htok).
    rewrite bool_decide_eq_false_2 by assumption. reflexivity.
  - intros t _ _. apply Hdecline. apply currentToken_lookup. assumption.
Qed.

Lemma copiedUpTo_refl (st : RunState E) : copiedUpTo st st.
Proof.
  unfold copiedUpTo. split_and!; [lia|lia|].
  rewrite slice_empty, Nat.sub_diag. symmetry. apply with_tokens_same.
Qed.

Lemma copiedUpTo_step (st st' : RunState E) token :
  inSourceOrder (tokens (tokensOf st)) ->
  tokens (tokensOf st) !! tokenIndex (tokensOf st) = Some token ->
  copiedUpTo
    (with_tokens st
       (emitted (tokensOf st)
          (slice (code (tokensOf st)) (consumedEnd (tokensOf st)) (end_ token)) 1))
    st' ->
  copiedUpTo st st'.
Proof.
  intros Horder Htok (Hend & Hidx & Heq).
  cbn [tokensOf with_tokens] in Hend, Hidx, Heq.
  rewrite (consumedEnd_emitted _ _ _ Htok) in Hend, Heq.
  assert (Hle : consumedEnd (tokensOf st) <= end_ token).
  { etrans; [apply consumedEnd_le_start; eassumption|].
    apply (proj1 Horder _ _ Htok). }
  cbn [emitted tokenIndex code] in Hidx, Heq.
  unfold copiedUpTo. split_and!; [lia|lia|].
  rewrite Heq at 1. rewrite with_tokens_with_tokens. f_equal.
  unfold emitted at 1 2. cbn [code tokens resultCode tokenIndex].
  unfold emitted. f_equal.
  - rewrite <- app_assoc. f_equal. apply slice_app; assumption.
  - lia.
Qed.
End Copy.

Section CopyRuns.
Variable E : Env.

Lemma copiedUpTo_tokens (st st' : RunState E) :
  copiedUpTo st st' ->
  tokens (tokensOf st') = tokens (tokensOf st) /\ code (tokensOf st') = code (tokensOf st).
Proof. intros (_ & _ & ->). split; reflexivity. Qed.

(** The balanced walk over tokens that are left alone. *)
Lemma processBalancedCode_loop_copies fuel : forall braceDepth parenDepth (st st' : RunState E),
  inSourceOrder (tokens (tokensOf st)) ->
  tokenIndex (tokensOf st) <= length (tokens (tokensOf st)) ->
  (forall k token, tokenIndex (tokensOf st) <= k ->
     tokens (tokensOf st) !! k = Some token -> leftAlone E token) ->
  processBalancedCode_loop E fuel braceDepth parenDepth st = OK st' ->
  copiedUpTo st st'.
Proof.
  induction fuel as [|fuel IH]; intros bd pd st st' Horder Hbound Halone H; [discriminate|].
  cbn [processBalancedCode_loop] in H.
  destruct (isAtEnd (tokensOf st)) eqn:Hend.
  { apply OK_inj in H. subst. apply copiedUpTo_refl. }
  destruct (braceStep (tokensOf st) bd) as [bd'|];
    [|apply OK_inj in H; subst; apply copiedUpTo_refl].
  destruct (parenStep (tokensOf st) pd) as [pd'|];
    [|apply OK_inj in H; subst; apply copiedUpTo_refl].
  destruct fuel as [|fuel]; [discriminate|].
  destruct (tokens (tokensOf st) !! tokenIndex (tokensOf st)) as [token|] eqn:Htok.
  - rewrite (processToken_copies E fuel st token Horder Htok) in H
      by (eapply Halone; [|eassumption]; lia).
    cbn [bind] in H.
    eapply copiedUpTo_step; [eassumption|eassumption|].
    apply lookup_lt_Some in Htok as Hlt.
    eapply IH; [| | |exact H].
    + exact Horder.
    + cbn [tokensOf with_tokens emitted tokenIndex tokens]. lia.
    + intros k t Hk Ht. cbn [tokensOf with_tokens emitted tokenIndex] in Hk.
      apply (Halone k t); [lia|exact Ht].
  - exfalso. apply lookup_ge_None in Htok.
    unfold isAtEnd in Hend. apply Nat.eqb_neq in Hend. lia.
Qed.

(** The loop of [processTagIntro] over tokens that are left alone. *)
Lemma processTagIntro_loop_copies fuel : forall introEnd (st st' : RunState E),
  inSourceOrder (tokens (tokensOf st)) ->
  introEnd <= length (tokens (tokensOf st)) ->
  (forall k token, tokenIndex (tokensOf st) <= k < introEnd ->
     tokens (tokensOf st) !! k = Some token -> leftAlone E token) ->
  processTagIntro_loop E fuel introEnd st = OK st' ->
  copiedUpTo st st'
  /\ tokenIndex (tokensOf st') = max (tokenIndex (tokensOf st)) introEnd.
Proof.
  induction fuel as [|fuel IH]; intros introEnd st st' Horder Hbound Halone H; [discriminate|].
  cbn [processTagIntro_loop] in H. unfold currentIndex in H.
  destruct (Nat.ltb_spec (tokenIndex (tokensOf st)) introEnd) as [Hlt|Hge].
  - destruct fuel as [|fuel]; [discriminate|].
    destruct (lookup_lt_is_Some_2 (tokens (tokensOf st)) (tokenIndex (tokensOf st)))
      as [token Htok]; [lia|].
    rewrite (processToken_copies E fuel st token Horder Htok) in H
      by (eapply Halone; [|eassumption]; lia).
    cbn [bind] in H.
    apply IH in H as [Hcopied Hidx].
    + split; [eapply copiedUpTo_step; eassumption|].
      rewrite Hidx. cbn [tokensOf with_tokens emitted tokenIndex]. lia.
    + exact Horder.
    + exact Hbound.
    + intros k t Hk Ht. cbn [tokensOf with_tokens emitted tokenIndex] in Hk.
      apply (Halone k t); [lia|exact Ht].
  - apply OK_inj in H. subst. split; [apply copiedUpTo_refl|lia].
Qed.
End CopyRuns.

(** X7. Where no transformer has anything to rewrite, the balanced walk
    reproduces the source: if the tokens from the cursor on are left alone by
    every transformer and lie in source order, the walk changes nothing but
    the cursor and the emitted text, and what it emits is the source from the
    end of the last token consumed before the walk to the end of the last
    token it consumed, white space and comments between tokens included. *)
Theorem source_is_copied_through (E : Env) (fuel : nat) (st st' : RunState E) :
  inSourceOrder (tokens (tokensOf st)) ->
  tokenIndex (tokensOf st) <= length (tokens (tokensOf st)) ->
  (forall k token, tokenIndex (tokensOf st) <= k ->
     tokens (tokensOf st) !! k = Some token -> leftAlone E token) ->
  processBalancedCode E fuel st = OK st' ->
  copiedUpTo st st'
  /\ resultCode (tokensOf st')
     = resultCode (tokensOf st)
       ++ slice (code (tokensOf st)) (consumedEnd (tokensOf st)) (consumedEnd (tokensOf st')).
Proof.
  intros Horder Hbound Halone H.
  assert (Hc : copiedUpTo st st')
    by (eapply processBalancedCode_loop_copies; eassumption).
  split; [exact Hc|].
  destruct Hc as (_ & _ & Heq). rewrite Heq at 1. reflexivity.
Qed.

Lemma plainEnv_leftAlone classInfo token :
  type token <> tt._class -> type token <> tt.jsxTagStart ->
  leftAlone (plainEnv classInfo) token.
Proof. intros H1 H2. split_and!; [assumption|assumption|reflexivity]. Qed.

(** Case analysis on the index of a token in a list that is written out. *)
Ltac token_at H :=
  lazymatch type of H with
  | (_ :: _) !! ?k = Some _ =>
      destruct k; cbn [lookup list_lookup] in H;
      [apply (inj Some) in H; subst|token_at H]
  | _ => first [discriminate H | rewrite lookup_nil in H; discriminate H]
  end.

Lemma source_is_copied_through_witness :
  exists st', processBalancedCode _ 10 sumSource = OK st'
    /\ resultCode (tokensOf st') = str "a + (b)".
Proof.
  assert (H : processBalancedCode _ 10 sumSource
              = OK (with_tokens sumSource
                      {| code := str "a + (b)"; tokens := tokens (tokensOf sumSource);
                         resultCode := str "a + (b)"; tokenIndex := 5 |}))
    by (vm_compute; reflexivity).
  assert (Horder : inSourceOrder (tokens (tokensOf sumSource))).
  { split.
    - intros k t Hk. cbn [sumSource plainState cursorOn tokensOf tokens] in Hk.
      token_at Hk; cbn; lia.
    - intros k t u Hk Hu. cbn [sumSource plainState cursorOn tokensOf tokens] in Hk, Hu.
      token_at Hk; cbn in Hu; first [discriminate Hu|apply (inj Some) in Hu; subst; cbn; lia]. }
  assert (Hbound : tokenIndex (tokensOf sumSource) <= length (tokens (tokensOf sumSource)))
    by (cbn; lia).
  assert (Halone : forall k token, tokenIndex (tokensOf sumSource) <= k ->
            tokens (tokensOf sumSource) !! k = Some token ->
            leftAlone (plainEnv noClassInfo) token).
  { intros k t _ Hk. cbn [sumSource plainState cursorOn tokensOf tokens] in Hk.
    token_at Hk; apply plainEnv_leftAlone; discriminate. }
  eexists. split; [exact H|].
  destruct (source_is_copied_through _ 10 sumSource _ Horder Hbound Halone H) as [_ Hout].
  rewrite Hout. vm_compute. reflexivity.
Defined.

(* ===================================================================== *)
(** * Further properties: the JSX transformer *)
(* ===================================================================== *)

(** ** Line numbers *)

Lemma countOf_cons c d rest :
  countOf c (d :: rest) = (if bool_decide (d = c) then 1 else 0) + countOf c rest.
Proof.
  unfold countOf. simpl. destruct (N.eq_dec d c) as [->|Hne].
  - rewrite bool_decide_eq_true_2 by reflexivity. reflexivity.
  - rewrite bool_decide_eq_false_2 by assumption. reflexivity.
Qed.

Lemma countOf_app c a b : countOf c (a ++ b) = countOf c a + countOf c b.
Proof. unfold countOf. apply count_occ_app. Qed.

Lemma getLineNumberForIndex_loop_spec steps : forall code index li ln,
  index - li <= steps ->
  getLineNumberForIndex_loop steps code index li ln
  = (ln + countOf c_lf (slice code li index), max li (min index (length code))).
Proof.
  induction steps as [|steps IH]; intros code index li ln Hsteps.
  - simpl. unfold slice. replace (index - li) with 0 by lia.
    simpl. f_equal; [unfold countOf; simpl; lia|lia].
  - cbn [getLineNumberForIndex_loop].
    destruct (Nat.ltb_spec li index) as [Hlt|Hge]; cbn [andb].
    + destruct (Nat.ltb_spec li (length code)) as [Hin|Hout].
      * destruct (lookup_lt_is_Some_2 code li Hin) as [c Hc].
        rewrite IH by lia. rewrite Hc.
        unfold slice. replace (index - li) with (S (index - (li + 1))) by lia.
        rewrite (drop_S _ _ _ Hc). cbn [take]. rewrite countOf_cons.
        replace (S li) with (li + 1) by lia.
        f_equal; [|lia].
        destruct (decide (c = c_lf)) as [->|Hne].
        -- rewrite !bool_decide_eq_true_2 by reflexivity. lia.
        -- rewrite !bool_decide_eq_false_2 by congruence. lia.
      * unfold slice. rewrite drop_ge by lia. rewrite take_nil.
        f_equal; [unfold countOf; simpl; lia|lia].
    + unfold slice. replace (index - li) with 0 by lia.
      simpl. f_equal; [unfold countOf; simpl; lia|lia].
Qed.

Lemma with_line_same {NM IP PV} (st : State NM IP PV) :
  with_line st (lastLineNumber st) (lastIndex st) = st.
Proof. destruct st. reflexivity. Qed.

(** X8. [getLineNumberForIndex] adds to the line it remembers the line feeds
    between the index it remembers and the index asked for, and remembers the
    further of the two.  So, asked in increasing order of index, it answers
    with the line of the index, counted from 1; asked for an index before the
    one it remembers, it answers with the remembered line and changes
    nothing. *)
Theorem line_number_counts_line_feeds (E : Env) (index : nat) (st : RunState E) :
  let source := code (tokensOf st) in
  let line := lastLineNumber st + countOf c_lf (slice source (lastIndex st) index) in
  let furthest := max (lastIndex st) (min index (length source)) in
  getLineNumberForIndex E index st = (line, with_line st line furthest)
  /\ (lastLineNumber st = 1 + countOf c_lf (take (lastIndex st) source) ->
      lastIndex st <= index ->
      line = 1 + countOf c_lf (take index source)
      /\ line = 1 + countOf c_lf (take furthest source))
  /\ (index <= lastIndex st -> getLineNumberForIndex E index st = (lastLineNumber st, st)).
Proof.
  intros source line furthest.
  assert (Hcall : getLineNumberForIndex E index st = (line, with_line st line furthest)).
  { unfold getLineNumberForIndex. rewrite getLineNumberForIndex_loop_spec by lia.
    reflexivity. }
  split_and!; [exact Hcall| |].
  - intros Hsync Hle. subst line. rewrite Hsync.
    assert (Htake : take index source
                    = take (lastIndex st) source ++ slice source (lastIndex st) index).
    { unfold slice. rewrite take_take_drop. f_equal. lia. }
    assert (Hcount : 1 + countOf c_lf (take (lastIndex st) source)
                     + countOf c_lf (slice source (lastIndex st) index)
                     = 1 + countOf c_lf (take index source))
      by (rewrite Htake, countOf_app; lia).
    split; [exact Hcount|]. rewrite Hcount. do 2 f_equal.
    subst furthest. destruct (Nat.le_gt_cases index (length source)) as [Hin|Hout].
    + f_equal. lia.
    + rewrite !take_ge by lia. reflexivity.
  - intros Hle. rewrite Hcall. subst line furthest.
    unfold slice. replace (index - lastIndex st) with 0 by lia.
    cbn [take]. replace (countOf c_lf []) with 0 by reflexivity.
    rewrite Nat.add_0_r.
    replace (max (lastIndex st) (min index (length source))) with (lastIndex st) by lia.
    rewrite with_line_same. reflexivity.
Qed.

Lemma line_number_counts_line_feeds_witness :
  (getLineNumberForIndex _ 4 thirdLine).1 = 3
  /\ getLineNumberForIndex _ 2 (getLineNumberForIndex _ 4 thirdLine).2
     = (3, (getLineNumberForIndex _ 4 thirdLine).2).
Proof.
  destruct (line_number_counts_line_feeds _ 4 thirdLine) as (Hcall & Hsync & _).
  destruct (line_number_counts_line_feeds _ 2 (getLineNumberForIndex _ 4 thirdLine).2)
    as (_ & _ & Hstale).
  split.
  - rewrite Hcall. cbn [fst].
    destruct Hsync as [-> _]; [vm_compute; reflexivity|vm_compute; lia|].
    vm_compute. reflexivity.
  - rewrite Hstale; [vm_compute; reflexivity|]. vm_compute. lia.
Defined.

(** ** The variable that holds the file name *)

(** X9. The name of the variable that holds the file name is claimed once: a
    call of [getFilenameVarName] that answers a non-empty name leaves a run in
    which every further call answers the same name and changes nothing, and
    in which the prefix of the transformer declares exactly that variable,
    with the file path (or the empty text, when there is none) as a JSON
    string. *)
Theorem file_name_variable_is_claimed_once (E : Env) (st st1 : RunState E) (n : jsstring) :
  getFilenameVarName E st = (n, st1) ->
  n <> [] ->
  getFilenameVarName E st1 = (n, st1)
  /\ tokensOf st1 = tokensOf st
  /\ getPrefixCode_JSX E st1
     = str "const " ++ n ++ str " = " ++ JSON_stringify (orElse (filePath st) []) ++ str ";".
Proof.
  unfold getFilenameVarName, getPrefixCode_JSX. intros H Hn.
  destruct (filenameVarName st) as [[|c rest]|] eqn:Hname.
  - destruct (claimFreeName E (str "_jsxFileName") (nameManager st)) as [n' nm].
    injection H as <- <-. destruct n' as [|c rest]; [congruence|].
    cbn [filenameVarName filePath with_filenameVarName with_nameManager tokensOf].
    auto.
  - injection H as <- <-. rewrite Hname. auto.
  - destruct (claimFreeName E (str "_jsxFileName") (nameManager st)) as [n' nm].
    injection H as <- <-. destruct n' as [|c rest]; [congruence|].
    cbn [filenameVarName filePath with_filenameVarName with_nameManager tokensOf].
    auto.
Qed.

Lemma file_name_variable_is_claimed_once_witness :
  getFilenameVarName _ (getFilenameVarName _ thirdLine).2
  = (str "_jsxFileName", (getFilenameVarName _ thirdLine).2)
  /\ getPrefixCode_JSX _ (getFilenameVarName _ thirdLine).2
     = str "const _jsxFileName = " ++ [c_quote; c_quote] ++ str ";".
Proof.
  destruct (file_name_variable_is_claimed_once _ thirdLine
              (getFilenameVarName _ thirdLine).2 (str "_jsxFileName"))
    as (Hagain & _ & Hprefix); [vm_compute; reflexivity|discriminate|].
  split; [exact Hagain|]. rewrite Hprefix. vm_compute. reflexivity.
Defined.

(** ** Attribute values *)

(** X10. The value of an attribute that is written on one line without
    ampersand: whatever its first and last character are (the quotes are not
    looked at), the text between them is emitted as a JSON string, so that a
    value in single quotes comes out in double quotes with the double quotes
    inside it escaped, followed by as many spaces as the value holds. *)
Theorem one_line_attribute_value (E : Env) (st : RunState E) (token : Token) :
  currentToken (tokensOf st) = OK token ->
  0 < end_ token ->
  let value := slice (code (tokensOf st)) (start token + 1) (end_ token - 1) in
  c_lf ∉ value -> c_amp ∉ value ->
  processStringPropValue E st
  = onTokens (fun tp => replaceToken tp
                          (JSON_stringify value
                             ++ repeat_char c_space (countOf c_space value))) st.
Proof.
  intros Htok _ value Hlf Hamp. unfold processStringPropValue.
  rewrite Htok. cbn [bind]. fold value.
  unfold formatJSXStringValueLiteral.
  rewrite (value_loop_single_line _ _ value 0 []) by (assumption || lia).
  cbn [bind app]. rewrite drop_0.
  rewrite (formatJSXTextReplacement_single_line value Hlf). reflexivity.
Qed.

Lemma one_line_attribute_value_witness :
  exists st', processStringPropValue _ quotedValue = OK st'
    /\ resultCode (tokensOf st')
       = str "React.createElement('a', {b: "
         ++ [c_quote] ++ str "x " ++ [c_backslash; c_quote] ++ str "y"
         ++ [c_backslash; c_quote] ++ [c_quote] ++ str " ".
Proof.
  rewrite (one_line_attribute_value _ quotedValue (tok tt.string 5 12));
    [|reflexivity|cbn; lia|vm_compute; list_not_mem|vm_compute; list_not_mem].
  eexists. split; [vm_compute; reflexivity|vm_compute; reflexivity].
Defined.

(** ** Element names *)

Lemma processTagIntro_scan_result fuel : forall tp k r,
  processTagIntro_scan fuel tp k = OK r -> introEnds tp r = true /\ k <= r.
Proof.
  induction fuel as [|fuel IH]; intros tp k r H; cbn [processTagIntro_scan] in H;
    destruct (introEnds tp k) eqn:Hk.
  - apply OK_inj in H. subst. auto.
  - discriminate.
  - apply OK_inj in H. subst. auto.
  - apply IH in H as [H1 H2]. split; [assumption|lia].
Qed.

Lemma matchesAtIndex_bound tp k t rest :
  matchesAtIndex tp k (t :: rest) = true -> k < length (tokens tp).
Proof.
  cbn [matchesAtIndex]. destruct (tokens tp !! k) eqn:Hk; [|discriminate].
  intros _. eapply lookup_lt_Some. eassumption.
Qed.

Lemma introEnds_bound tp k : introEnds tp k = true -> k < length (tokens tp).
Proof.
  unfold introEnds. intros H.
  repeat (apply orb_true_iff in H as [H|H]);
    try (eapply matchesAtIndex_bound; eassumption).
  cbn [matchesAtIndex] in H.
  destruct (tokens tp !! (k - 1)) eqn:H1; [|discriminate].
  apply andb_true_iff in H as [_ H].
  destruct (tokens tp !! (k - 1 + 1)) eqn:H2; [|discriminate].
  apply lookup_lt_Some in H1, H2. lia.
Qed.

(** X11. A name of more than one token, as in a member expression, is never
    turned into a string: when the token after the first name token does not
    end the name, [processTagIntro] hands every token of the name to the
    per-token dispatch; if the transformers leave these tokens alone, the name
    is emitted as it stands in the source, and the cursor is left where the
    name ends. *)
Theorem member_tag_name_is_copied (E : Env) (fuel : nat) (st st' : RunState E)
    (introEnd : nat) :
  inSourceOrder (tokens (tokensOf st)) ->
  introEnds (tokensOf st) (tokenIndex (tokensOf st) + 1) = false ->
  processTagIntro_scan fuel (tokensOf st) (tokenIndex (tokensOf st) + 1) = OK introEnd ->
  (forall k token, tokenIndex (tokensOf st) <= k < introEnd ->
     tokens (tokensOf st) !! k = Some token -> leftAlone E token) ->
  processTagIntro E (S fuel) st = OK st' ->
  processTagIntro E (S fuel) st = processTagIntro_loop E fuel introEnd st
  /\ copiedUpTo st st'
  /\ tokenIndex (tokensOf st') = introEnd.
Proof.
  intros Horder Hmore Hscan Halone H.
  apply processTagIntro_scan_result in Hscan as Hend. destruct Hend as [Hend Hle].
  assert (Hne : introEnd <> tokenIndex (tokensOf st) + 1) by congruence.
  assert (Hstep : processTagIntro E (S fuel) st = processTagIntro_loop E fuel introEnd st).
  { cbn [processTagIntro]. unfold currentIndex. rewrite Hscan. cbn [bind].
    unfold processTagIntro_name, currentIndex.
    rewrite (proj2 (Nat.eqb_neq _ _) Hne). reflexivity. }
  split; [exact Hstep|]. rewrite Hstep in H.
  apply processTagIntro_loop_copies in H as [Hcopied Hidx];
    [|assumption|apply introEnds_bound in Hend; lia|assumption].
  split; [exact Hcopied|]. rewrite Hidx. lia.
Qed.

Lemma member_tag_name_is_copied_witness :
  exists st', processTagIntro _ 6 memberTag = OK st'
    /\ resultCode (tokensOf st') = str "React.createElement(ui.Box"
    /\ tokenIndex (tokensOf st') = 4.
Proof.
  assert (H : processTagIntro _ 6 memberTag
              = OK (with_tokens memberTag
                      {| code := code (tokensOf memberTag);
                         tokens := tokens (tokensOf memberTag);
                         resultCode := str "React.createElement(ui.Box";
                         tokenIndex := 4 |}))
    by (vm_compute; reflexivity).
  assert (Horder : inSourceOrder (tokens (tokensOf memberTag))).
  { split.
    - intros k t Hk. cbn [memberTag plainState tokensOf tokens] in Hk.
      token_at Hk; cbn; lia.
    - intros k t u Hk Hu. cbn [memberTag plainState tokensOf tokens] in Hk, Hu.
      token_at Hk; cbn in Hu;
        first [discriminate Hu|apply (inj Some) in Hu; subst; cbn; lia]. }
  assert (Halone : forall k token, tokenIndex (tokensOf memberTag) <= k < 4 ->
            tokens (tokensOf memberTag) !! k = Some token ->
            leftAlone (plainEnv noClassInfo) token).
  { intros k t [Hlo Hhi] Hk. cbn [memberTag plainState tokensOf tokens tokenIndex] in Hk, Hlo.
    token_at Hk; try lia; apply plainEnv_leftAlone; discriminate. }
  eexists. split; [exact H|].
  destruct (member_tag_name_is_copied _ 5 memberTag _ 4 Horder eq_refl eq_refl Halone H)
    as (_ & _ & Hidx).
  split; [reflexivity|exact Hidx].
Defined.

(** X12. What decides whether a name of one token is quoted is its first code
    unit alone, compared with its lower-case form: among the ASCII characters
    only the upper-case letters keep a name from being quoted, so a name that
    starts with [_], [$] or a digit is quoted like one that starts with a
    lower-case letter.  A name token with an empty text makes the call
    fail with a [TypeError]. *)
Theorem tag_name_first_character (E : Env) (fuel : nat) (st : RunState E)
    (nameToken : Token) :
  tokens (tokensOf st) !! tokenIndex (tokensOf st) = Some nameToken ->
  introEnds (tokensOf st) (tokenIndex (tokensOf st) + 1) = true ->
  (forall c rest,
     tokenText (tokensOf st) nameToken = c :: rest ->
     (c < 128)%N -> ~ (65 <= c <= 90)%N ->
     processTagIntro E (S (S fuel)) st
     = OK (with_tokens st
             (emitted (tokensOf st)
                (previousWhitespace (tokensOf st) nameToken
                   ++ str "'" ++ (c :: rest) ++ str "'") 1)))
  /\ (tokenText (tokensOf st) nameToken = [] ->
      processTagIntro E (S (S fuel)) st = Throw TypeError).
Proof.
  intros Htok Hends.
  assert (Hstep : processTagIntro E (S (S fuel)) st
                  = (let* st1 := processTagIntro_name E (tokenIndex (tokensOf st) + 1) st in
                     processTagIntro_loop E (S fuel) (tokenIndex (tokensOf st) + 1) st1)).
  { change (processTagIntro E (S (S fuel)) st)
      with (let* introEnd := processTagIntro_scan (S fuel) (tokensOf st)
                               (currentIndex (tokensOf st) + 1) in
            let* st := processTagIntro_name E introEnd st in
            processTagIntro_loop E (S fuel) introEnd st).
    unfold currentIndex. rewrite (processTagIntro_scan_stops _ _ _ Hends). reflexivity. }
  split.
  - intros c rest Htext Hascii Hupper. rewrite Hstep.
    unfold processTagIntro_name, currentIndex. rewrite Nat.eqb_refl.
    unfold identifierName, identifierNameAtIndex. rewrite Htok, Htext. cbn [bind].
    assert (Hlower : startsWithLowerCase (lowerOther E) (c :: rest) = OK true).
    { unfold startsWithLowerCase, toLowerCase1. cbn [lookup list_lookup].
      replace ((65 <=? c) && (c <=? 90))%N with false.
      2:{ symmetry. apply andb_false_iff.
          destruct (N.leb_spec 65 c); [|left; reflexivity].
          destruct (N.leb_spec c 90); [|right; reflexivity]. lia. }
      replace (c <? 128)%N with true by (symmetry; apply N.ltb_lt; assumption).
      cbn [jsstring_eqb]. unfold char_eqb. rewrite N.eqb_refl. reflexivity. }
    rewrite Hlower. cbn [bind].
    unfold onTokens. rewrite (replaceToken_lookup _ _ _ Htok). cbn [bind].
    cbn [processTagIntro_loop]. unfold currentIndex.
    cbn [tokensOf with_tokens emitted tokenIndex].
    rewrite (proj2 (Nat.ltb_ge _ _)) by lia. reflexivity.
  - intros Htext. rewrite Hstep.
    unfold processTagIntro_name, currentIndex. rewrite Nat.eqb_refl.
    unfold identifierName, identifierNameAtIndex. rewrite Htok, Htext. reflexivity.
Qed.

Lemma tag_name_first_character_witness :
  resultCode (tokensOf (resultOr (tagName "") (processTagIntro _ 2 (tagName "<_ab/>"))))
  = str "React.createElement('_ab'".
Proof.
  destruct (tag_name_first_character _ 0 (tagName "<_ab/>") (tok tt.jsxName 1 4)
              eq_refl eq_refl) as [Hquoted _].
  rewrite (Hquoted 95%N (str "ab")); [vm_compute; reflexivity|reflexivity|reflexivity|].
  intros [_ H]. vm_compute in H. apply H. reflexivity.
Defined.

(** ** Children and whole elements *)

(** X13. [processChildren] returns in one situation only: with the cursor on
    the [<] of a closing tag, that is a [jsxTagStart] token followed by a
    slash. *)
Theorem children_end_at_closing_tag (E : Env) (fuel : nat) : forall (st st' : RunState E),
  processChildren E fuel st = OK st' ->
  matches2 (tokensOf st') tt.jsxTagStart tt.slash = true.
Proof.
  induction fuel as [|fuel IH]; intros st st' H; [discriminate|].
  cbn [processChildren] in H.
  destruct (matches2 (tokensOf st) tt.jsxTagStart tt.slash) eqn:Hclose.
  { apply OK_inj in H. subst. exact Hclose. }
  open_call H; try (eapply IH; eassumption).
Qed.

Lemma children_end_at_closing_tag_witness :
  matches2 (tokensOf (resultOr nestedTag
                        (processChildren _ 12
                           (with_tokens nestedTag (emitted (tokensOf nestedTag) [] 3)))))
    tt.jsxTagStart tt.slash = true
  /\ tokenIndex (tokensOf (resultOr nestedTag
                             (processChildren _ 12
                                (with_tokens nestedTag (emitted (tokensOf nestedTag) [] 3)))))
     = 8.
Proof.
  split; [|vm_compute; reflexivity].
  apply (children_end_at_closing_tag _ 12
           (with_tokens nestedTag (emitted (tokensOf nestedTag) [] 3))).
  vm_compute. reflexivity.
Defined.

Lemma skipToTagEnd_stops (E : Env) fuel : forall (st st' : RunState E),
  skipToTagEnd E fuel st = OK st' -> matches1 (tokensOf st') tt.jsxTagEnd = true.
Proof.
  induction fuel as [|fuel IH]; intros st st' H; cbn [skipToTagEnd] in H;
    destruct (matches1 (tokensOf st) tt.jsxTagEnd) eqn:Hm;
    try (apply OK_inj in H; subst; exact Hm); [discriminate|].
  open_call H. eapply IH. eassumption.
Qed.

Lemma matches1_token tp t :
  matches1 tp t = true ->
  exists token, tokens tp !! tokenIndex tp = Some token /\ type token = t.
Proof.
  unfold matches1. cbn [matchesAtIndex].
  destruct (tokens tp !! tokenIndex tp) as [token|]; [|discriminate].
  rewrite andb_true_r. intros H. apply bool_decide_eq_true in H. eauto.
Qed.

(** What the closing parenthesis is put in place of. *)
Lemma closing_parenthesis (E : Env) (st st' : RunState E) :
  matches1 (tokensOf st) tt.jsxTagEnd = true ->
  onTokens (fun tp => replaceToken tp (str ")")) st = OK st' ->
  (exists gap, resultCode (tokensOf st') = resultCode (tokensOf st) ++ gap ++ str ")")
  /\ exists k last, tokenIndex (tokensOf st') = S k
       /\ tokens (tokensOf st') !! k = Some last /\ type last = tt.jsxTagEnd.
Proof.
  intros Hm H. apply matches1_token in Hm as (last & Hlast & Htype).
  unfold onTokens in H. rewrite (replaceToken_lookup _ _ _ Hlast) in H.
  cbn [bind] in H. apply OK_inj in H. subst st'.
  cbn [tokensOf with_tokens emitted resultCode tokenIndex tokens]. split.
  - eexists. reflexivity.
  - exists (tokenIndex (tokensOf st)), last.
    split_and!; [lia|assumption|assumption].
Qed.

(** X14. A JSX element becomes one call: when [processJSXTag] returns, what
    it has added to the output starts with the source that stood before the
    element, the name of the factory object (the replacement the import
    processor has for [React], or [React]) and [.createElement(], and ends
    with [)]; the last token it has consumed is the [>] that ends the
    element. *)
Theorem element_becomes_one_call (E : Env) (HE : AppendOnly E) (fuel : nat)
    (st st' : RunState E) :
  processJSXTag E fuel st = OK st' ->
  exists token middle k last,
    currentToken (tokensOf st) = OK token
    /\ resultCode (tokensOf st')
       = resultCode (tokensOf st) ++ previousWhitespace (tokensOf st) token
         ++ orElse (getIdentifierReplacement E (importProcessor st) (str "React"))
              (str "React")
         ++ str ".createElement(" ++ middle ++ str ")"
    /\ tokenIndex (tokensOf st') = S k
    /\ tokens (tokensOf st') !! k = Some last
    /\ type last = tt.jsxTagEnd.
Proof.
  destruct fuel as [|fuel]; [discriminate|].
  intros H. cbn [processJSXTag] in H.
  destruct (currentToken (tokensOf st)) as [token| |] eqn:Htok; cbn [bind] in H;
    try discriminate.
  unfold onTokens at 1 in H. unfold replaceToken at 1 in H.
  rewrite Htok in H. cbn [bind] in H.
  set (factory := orElse (getIdentifierReplacement E (importProcessor st) (str "React"))
                    (str "React")) in *.
  set (st1 := with_tokens st _) in H.
  assert (Hst1 : resultCode (tokensOf st1)
                 = resultCode (tokensOf st) ++ previousWhitespace (tokensOf st) token
                   ++ factory ++ str ".createElement(").
  { subst st1. cbn [tokensOf with_tokens emitted resultCode].
    rewrite <- ?app_assoc. reflexivity. }
  clearbody st1.
  destruct (walk_extends E HE fuel)
    as (_ & _ & _ & _ & _ & _ & _ & Hintro & _ & Hprops & _ & Hchildren).
  destruct (processTagIntro E fuel st1) as [st2| |] eqn:H2; cbn [bind] in H;
    try discriminate.
  apply Hintro in H2.
  destruct (processProps E fuel (start token) st2) as [st3| |] eqn:H3; cbn [bind] in H;
    try discriminate.
  apply Hprops in H3.
  assert (H13 : extends st1 st3) by (etrans; eassumption).
  enough (Hgoal : exists middle k last,
            resultCode (tokensOf st')
            = resultCode (tokensOf st) ++ previousWhitespace (tokensOf st) token
              ++ factory ++ str ".createElement(" ++ middle ++ str ")"
            /\ tokenIndex (tokensOf st') = S k
            /\ tokens (tokensOf st') !! k = Some last
            /\ type last = tt.jsxTagEnd).
  { destruct Hgoal as (middle & k & last & Hgoal).
    exists token, middle, k, last. split; [reflexivity|exact Hgoal]. }
  assert (Hfinal : forall st4, extends st3 st4 ->
            matches1 (tokensOf st4) tt.jsxTagEnd = true ->
            onTokens (fun tp => replaceToken tp (str ")")) st4 = OK st' ->
            exists middle k last,
              resultCode (tokensOf st')
              = resultCode (tokensOf st) ++ previousWhitespace (tokensOf st) token
                ++ factory ++ str ".createElement(" ++ middle ++ str ")"
              /\ tokenIndex (tokensOf st') = S k
              /\ tokens (tokensOf st') !! k = Some last
              /\ type last = tt.jsxTagEnd).
  { intros st4 H34 Hm Hlast.
    destruct (closing_parenthesis E st4 st' Hm Hlast) as ([gap Hout] & k & last & Hk).
    assert (H14 : extends st1 st4) by (etrans; eassumption).
    destruct H14 as [more Hmore].
    exists (more ++ gap), k, last. split; [|exact Hk].
    rewrite Hout, Hmore, Hst1. rewrite <- !app_assoc. reflexivity. }
  destruct (matches2 (tokensOf st3) tt.slash tt.jsxTagEnd) eqn:Hself.
  - (* self-closing *)
    destruct (onTokens (fun tp => replaceToken tp []) st3) as [st4| |] eqn:H4;
      cbn [bind] in H; try discriminate.
    unfold matches2 in Hself. cbn [matchesAtIndex] in Hself.
    destruct (tokens (tokensOf st3) !! tokenIndex (tokensOf st3)) as [slashToken|] eqn:Hslash;
      [|discriminate].
    apply andb_true_iff in Hself as [_ Hnext].
    unfold onTokens in H4. rewrite (replaceToken_lookup _ _ _ Hslash) in H4.
    cbn [bind] in H4. apply OK_inj in H4. subst st4.
    apply (Hfinal _ ) in H; [exact H| |].
    + unfold extends. cbn [tokensOf with_tokens emitted resultCode].
      apply prefix_app_r. reflexivity.
    + unfold matches1. cbn [tokensOf with_tokens emitted tokens tokenIndex].
      exact Hnext.
  - destruct (matches1 (tokensOf st3) tt.jsxTagEnd) eqn:Hopen; [|discriminate].
    destruct (onTokens (fun tp => replaceToken tp []) st3) as [st4| |] eqn:H4;
      cbn [bind] in H; try discriminate.
    apply onTokens_extends in H4; [|intros tp tp'; apply replaceToken_prefix].
    destruct (processChildren E fuel st4) as [st5| |] eqn:H5; cbn [bind] in H;
      try discriminate.
    apply Hchildren in H5.
    destruct (skipToTagEnd E fuel st5) as [st6| |] eqn:H6; cbn [bind] in H;
      try discriminate.
    pose proof (skipToTagEnd_stops _ _ _ _ H6) as Hm.
    apply skipToTagEnd_extends in H6.
    apply (Hfinal st6) in H; [exact H| |exact Hm].
    etrans; [exact H4|]. etrans; eassumption.
Qed.

Lemma element_becomes_one_call_witness :
  exists st' middle,
    processJSXTag _ 12 nestedTag = OK st'
    /\ resultCode (tokensOf st') = str "React.createElement(" ++ middle ++ str ")"
    /\ resultCode (tokensOf st')
       = str "React.createElement('a', {__self: this, __source: {fileName: _jsxFileName, lineNumber: 1}}, React.createElement('b', {__self: this, __source: {fileName: _jsxFileName, lineNumber: 1}}), "
         ++ JSON_stringify (str "t") ++ str ")".
Proof.
  assert (H : exists st', processJSXTag _ 12 nestedTag = OK st'
              /\ resultCode (tokensOf st')
                 = str "React.createElement('a', {__self: this, __source: {fileName: _jsxFileName, lineNumber: 1}}, React.createElement('b', {__self: this, __source: {fileName: _jsxFileName, lineNumber: 1}}), "
                   ++ JSON_stringify (str "t") ++ str ")").
  { eexists. split; [vm_compute; reflexivity|vm_compute; reflexivity]. }
  destruct H as (st' & Hrun & Hout).
  destruct (element_becomes_one_call _ (plainEnv_AppendOnly noClassInfo) 12 nestedTag st' Hrun)
    as (token & middle & k & last & Htok & Hshape & _).
  exists st', middle. split_and!; [exact Hrun| |exact Hout].
  rewrite Hshape. apply OK_inj in Htok. subst token. vm_compute. reflexivity.
Defined.

(** ** Attributes *)

(** X25. The attributes of an element become one object literal, and the two
    development properties come last in it, after whatever the attributes
    have produced: [__self: this] and [__source] with the variable that holds
    the file name and the line of the element.  An element without attributes
    gets the object of these two alone, and no token is consumed for it. *)
Theorem props_end_with_dev_props (E : Env) (HE : AppendOnly E) (fuel : nat)
    (firstTokenStart : nat) (st st' : RunState E) :
  processProps E fuel firstTokenStart st = OK st' ->
  let line := (getLineNumberForIndex E firstTokenStart st).1 in
  let name := (getFilenameVarName E (getLineNumberForIndex E firstTokenStart st).2).1 in
  exists middle,
    resultCode (tokensOf st')
    = resultCode (tokensOf st) ++ str ", {" ++ middle
      ++ str "__self: this, __source: {fileName: " ++ name ++ str ", lineNumber: "
      ++ number_to_string line ++ str "}}"
    /\ (matches1 (tokensOf st) tt.jsxName = false ->
        matches1 (tokensOf st) tt.braceL = false ->
        middle = [] /\ tokenIndex (tokensOf st') = tokenIndex (tokensOf st)).
Proof.
  destruct fuel as [|fuel]; [discriminate|].
  intros H line name. cbn [processProps] in H. subst line name.
  pose proof (getLineNumberForIndex_tokens E firstTokenStart st) as T1.
  destruct (getLineNumberForIndex E firstTokenStart st) as [line st1].
  cbn [fst snd] in T1 |- *.
  pose proof (getFilenameVarName_tokens E st1) as T2.
  destruct (getFilenameVarName E st1) as [name st2]. cbn [fst snd] in T2 |- *.
  assert (T : tokensOf st2 = tokensOf st) by congruence.
  destruct (negb (matches1 (tokensOf st2) tt.jsxName)
            && negb (matches1 (tokensOf st2) tt.braceL)) eqn:Hnone.
  - apply OK_inj in H. subst st'. exists [].
    cbn [tokensOf append with_tokens appendCode resultCode tokenIndex]. rewrite T.
    split; [|auto].
    rewrite <- ?app_assoc. cbn [app]. rewrite <- ?app_assoc. reflexivity.
  - destruct (processProps_loop E fuel (append st2 (str ", {"))) as [st3| |] eqn:Hloop;
      cbn [bind] in H; try discriminate.
    apply OK_inj in H. subst st'.
    destruct (walk_extends E HE fuel) as (_ & _ & _ & _ & _ & _ & _ & _ & _ & _ & Hprops & _).
    apply Hprops in Hloop. destruct Hloop as [more Hmore].
    cbn [tokensOf append with_tokens appendCode resultCode] in Hmore.
    exists (more ++ str " ").
    cbn [tokensOf append with_tokens appendCode resultCode tokenIndex].
    rewrite Hmore, T. split.
    + rewrite <- ?app_assoc. reflexivity.
    + rewrite T in Hnone. intros H1 H2. rewrite H1, H2 in Hnone. discriminate Hnone.
Qed.

Lemma props_end_with_dev_props_witness :
  exists st' middle,
    processProps _ 10 0 (with_tokens memberTag (emitted (tokensOf memberTag) (str "ui.Box") 3))
    = OK st'
    /\ resultCode (tokensOf st')
       = str "React.createElement(ui.Box, {" ++ middle
         ++ str "__self: this, __source: {fileName: _jsxFileName, lineNumber: 1}}"
    /\ resultCode (tokensOf st')
       = str "React.createElement(ui.Box, { p: true, __self: this, __source: {fileName: _jsxFileName, lineNumber: 1}}".
Proof.
  assert (H : exists st',
            processProps (plainEnv noClassInfo) 10 0
              (with_tokens memberTag (emitted (tokensOf memberTag) (str "ui.Box") 3))
            = OK st'
            /\ resultCode (tokensOf st')
               = str "React.createElement(ui.Box, { p: true, __self: this, __source: {fileName: _jsxFileName, lineNumber: 1}}").
  { eexists. split; vm_compute; reflexivity. }
  destruct H as (st' & H & Hall).
  destruct (props_end_with_dev_props _ (plainEnv_AppendOnly noClassInfo) 10 0 _ st' H)
    as (middle & Hout & _).
  exists st', middle. split_and!; [exact H| |exact Hall].
  rewrite Hout. vm_compute. reflexivity.
Defined.

(* ===================================================================== *)
(** * Further properties: the orchestrator *)
(* ===================================================================== *)

(** ** Registration *)

(** X15. Which transformers are registered depends on which transforms are
    asked for and on nothing else: neither the order of the transforms in the
    configuration nor a transform that is named twice makes a difference, and
    a configuration is rejected or accepted along with every configuration
    that names the same transforms. *)
Theorem registration_ignores_order_and_repetition (a b : list Transform) :
  (forall t, t ∈ a <-> t ∈ b) ->
  registeredTransformers a = registeredTransformers b.
Proof.
  intros Hsame.
  assert (H : forall t, includesTransform a t = includesTransform b t).
  { intros t. unfold includesTransform. apply bool_decide_ext. apply Hsame. }
  unfold registeredTransformers. rewrite !H. reflexivity.
Qed.

Lemma registration_ignores_order_and_repetition_witness :
  registeredTransformers [typescript; jsx; imports; jsx]
  = registeredTransformers [imports; jsx; typescript].
Proof.
  apply registration_ignores_order_and_repetition.
  intros t. destruct t; split; intros H; first [solve [list_mem] | exfalso; revert H; list_not_mem].
Defined.

(** X16. The transformers are registered in one fixed order, each at most
    once: the two that are always there first, then the JSX transformer with
    the display-name transformer right behind it, then the import, the flow
    and the TypeScript transformer, each exactly when its transform is asked
    for. *)
Theorem registration_order (transforms : list Transform) (ts : list Transformer) :
  registeredTransformers transforms = OK ts ->
  ts `sublist_of` constructionOrder
  /\ NumericSeparatorTransformer ∈ ts
  /\ OptionalCatchBindingTransformer ∈ ts
  /\ (JSXTransformer ∈ ts <-> jsx ∈ transforms)
  /\ (ReactDisplayNameTransformer ∈ ts <-> jsx ∈ transforms)
  /\ (ImportTransformer ∈ ts <-> imports ∈ transforms)
  /\ (FlowTransformer ∈ ts <-> flow ∈ transforms)
  /\ (TypeScriptTransformer ∈ ts <-> typescript ∈ transforms).
Proof.
  unfold registeredTransformers, includesTransform, constructionOrder.
  destruct (bool_decide_reflect (jsx ∈ transforms)) as [Hjsx|Hjsx];
    destruct (bool_decide_reflect (imports ∈ transforms)) as [Himports|Himports];
    destruct (bool_decide_reflect (flow ∈ transforms)) as [Hflow|Hflow];
    destruct (bool_decide_reflect (typescript ∈ transforms)) as [Hts|Hts];
    cbn [negb app]; intros H; try discriminate; apply OK_inj in H; subst ts;
    (split_and!;
     [ repeat first [apply sublist_nil | apply sublist_skip | apply sublist_cons]
     | list_mem | list_mem | | | | | ]);
    (split; [intros Hin|intros Hx]);
    first [ assumption | contradiction | solve [list_mem]
          | exfalso; revert Hin; list_not_mem ].
Qed.

Lemma registration_order_witness :
  registeredTransformers [flow; jsx]
  = OK [NumericSeparatorTransformer; OptionalCatchBindingTransformer; JSXTransformer;
        ReactDisplayNameTransformer; FlowTransformer]
  /\ [NumericSeparatorTransformer; OptionalCatchBindingTransformer; JSXTransformer;
      ReactDisplayNameTransformer; FlowTransformer] `sublist_of` constructionOrder.
Proof.
  split; [reflexivity|].
  apply (registration_order [flow; jsx]). reflexivity.
Defined.

(** ** Dispatch *)

(** X17. The transformers are asked in the order of registration and the
    first that claims the token ends the dispatch: when those before it
    decline and leave the run as it is, the outcome is the run it leaves, no
    later transformer is asked, and the token is not copied. *)
Theorem first_claim_wins (E : Env) (processJSX : RunState E -> Result (bool * RunState E))
    (before after : list Transformer) (t : Transformer) (st st1 : RunState E) :
  (forall u, u ∈ before -> processOf E processJSX u st = OK (false, st)) ->
  processOf E processJSX t st = OK (true, st1) ->
  dispatch E processJSX (before ++ t :: after) st = OK st1.
Proof.
  induction before as [|u before IH]; intros Hdecline Hclaim.
  - cbn [app dispatch]. change (match t with
                                | JSXTransformer => processJSX st
                                | _ => processOther E t st
                                end) with (processOf E processJSX t st).
    rewrite Hclaim. reflexivity.
  - cbn [app dispatch]. change (match u with
                                | JSXTransformer => processJSX st
                                | _ => processOther E u st
                                end) with (processOf E processJSX u st).
    rewrite (Hdecline u) by apply list_elem_of_here. cbn [bind fst snd].
    apply IH; [|assumption].
    intros v Hv. apply Hdecline. apply list_elem_of_further. assumption.
Qed.

Lemma processToken_dispatch (E : Env) fuel (st : RunState E) :
  matches1 (tokensOf st) tt._class = false ->
  processToken E (S fuel) st = dispatch E (process_JSX E fuel) (transformers st) st.
Proof. intros H. cbn [processToken]. rewrite H. reflexivity. Qed.

(** On the name of [<Foo/>] the four transformers registered first decline,
    the import transformer claims the token and the TypeScript transformer,
    registered after it, would have claimed it too: the outcome is the import
    transformer's.  With the two asked in the other order it is the other
    one's. *)
Lemma first_claim_wins_witness :
  exists st1 st2,
    processOf renamingEnv (process_JSX renamingEnv 0) ImportTransformer renamedTag
    = OK (true, st1)
    /\ processOf renamingEnv (process_JSX renamingEnv 0) TypeScriptTransformer renamedTag
       = OK (true, st2)
    /\ resultCode (tokensOf st1) = str "React.createElement(_m.Foo"
    /\ resultCode (tokensOf st2) = str "React.createElement("
    /\ processToken renamingEnv 1 renamedTag = OK st1
    /\ dispatch renamingEnv (process_JSX renamingEnv 0)
         ([NumericSeparatorTransformer; OptionalCatchBindingTransformer; JSXTransformer;
           ReactDisplayNameTransformer] ++ TypeScriptTransformer :: [ImportTransformer])
         renamedTag
       = OK st2.
Proof.
  assert (H1 : exists st1, processOf renamingEnv (process_JSX renamingEnv 0)
                             ImportTransformer renamedTag = OK (true, st1)
                           /\ resultCode (tokensOf st1) = str "React.createElement(_m.Foo")
    by (eexists; split; vm_compute; reflexivity).
  assert (H2 : exists st2, processOf renamingEnv (process_JSX renamingEnv 0)
                             TypeScriptTransformer renamedTag = OK (true, st2)
                           /\ resultCode (tokensOf st2) = str "React.createElement(")
    by (eexists; split; vm_compute; reflexivity).
  destruct H1 as (st1 & Himport & Hcode1). destruct H2 as (st2 & Hts & Hcode2).
  assert (Hdecline : forall u,
            u ∈ [NumericSeparatorTransformer; OptionalCatchBindingTransformer;
                 JSXTransformer; ReactDisplayNameTransformer] ->
            processOf renamingEnv (process_JSX renamingEnv 0) u renamedTag
            = OK (false, renamedTag)).
  { intros u Hu.
    repeat (apply elem_of_cons in Hu as [->|Hu]; [reflexivity|]).
    apply elem_of_nil in Hu. contradiction. }
  exists st1, st2. split_and!; try assumption.
  - rewrite processToken_dispatch by (vm_compute; reflexivity).
    change (transformers renamedTag)
      with ([NumericSeparatorTransformer; OptionalCatchBindingTransformer; JSXTransformer;
             ReactDisplayNameTransformer] ++ ImportTransformer :: [TypeScriptTransformer]).
    apply first_claim_wins; assumption.
  - apply first_claim_wins; assumption.
Defined.

(* ===================================================================== *)
(** * Further properties: source, tokens and cursor *)
(* ===================================================================== *)

#[global] Instance advances_PreOrder : PreOrder advances.
Proof.
  split.
  - intros tp. unfold advances. auto.
  - intros a b c (H1 & H2 & H3) (H4 & H5 & H6). unfold advances.
    split_and!; [congruence|congruence|lia].
Qed.

#[global] Instance forward_PreOrder {NM IP PV} : PreOrder (@forward NM IP PV).
Proof.
  split.
  - intros st. unfold forward. reflexivity.
  - intros a b c Hab Hbc. unfold forward in *. etrans; eassumption.
Qed.

Section Forwards.
Variable E : Env.
Hypothesis HE : Forward E.

Lemma copyToken_advances tp tp' : copyToken tp = OK tp' -> advances tp tp'.
Proof.
  unfold copyToken. intros H. open_call H. subst. unfold advances. simpl.
  split_and!; [reflexivity|reflexivity|lia].
Qed.

Lemma replaceToken_advances tp newCode tp' :
  replaceToken tp newCode = OK tp' -> advances tp tp'.
Proof.
  unfold replaceToken. intros H. open_call H. subst. unfold advances. simpl.
  split_and!; [reflexivity|reflexivity|lia].
Qed.

Lemma copyExpectedToken_advances tp t tp' :
  copyExpectedToken tp t = OK tp' -> advances tp tp'.
Proof.
  unfold copyExpectedToken. intros H. open_call H. eapply copyToken_advances; eassumption.
Qed.

Lemma onTokens_forward (f : TokenProcessor -> Result TokenProcessor) (st st' : RunState E) :
  (forall tp tp', f tp = OK tp' -> advances tp tp') ->
  onTokens f st = OK st' -> forward st st'.
Proof.
  intros Hf H. unfold onTokens in H. open_call H. subst. unfold forward. simpl.
  apply Hf. assumption.
Qed.

Lemma synthesizedConstructor_forward classInfo (st : RunState E) :
  forward st (synthesizedConstructor E classInfo st).
Proof.
  unfold synthesizedConstructor, forward.
  destruct (constructorInsertPos classInfo); [reflexivity|].
  destruct (0 <? length (initializerStatements classInfo)); [|reflexivity].
  destruct (hasSuperclass (headerInfo classInfo)).
  - destruct (claimFreeName E _ _). unfold advances. simpl. auto.
  - unfold advances. simpl. auto.
Qed.

Lemma processStringPropValue_forward (st st' : RunState E) :
  processStringPropValue E st = OK st' -> forward st st'.
Proof.
  unfold processStringPropValue. intros H. open_call H.
  eapply onTokens_forward; [|eassumption].
  intros tp tp'. apply replaceToken_advances.
Qed.

Lemma processChildTextElement_forward (st st' : RunState E) :
  processChildTextElement E st = OK st' -> forward st st'.
Proof.
  unfold processChildTextElement. intros H. open_call H;
    (eapply onTokens_forward; [|eassumption]);
    intros tp tp'; apply replaceToken_advances.
Qed.

Lemma processTagIntro_name_forward introEnd (st st' : RunState E) :
  processTagIntro_name E introEnd st = OK st' -> forward st st'.
Proof.
  unfold processTagIntro_name. intros H. open_call H; subst; try reflexivity.
  eapply onTokens_forward; [|eassumption].
  intros tp tp'. apply replaceToken_advances.
Qed.

Lemma skipToTagEnd_forward fuel : forall (st st' : RunState E),
  skipToTagEnd E fuel st = OK st' -> forward st st'.
Proof.
  induction fuel as [|fuel IH]; intros st st' H; simpl in H; open_call H; subst;
    try reflexivity.
  etrans; [|apply IH; eassumption].
  eapply onTokens_forward; [|eassumption].
  intros tp tp'. apply replaceToken_advances.
Qed.

Lemma removeFieldTokens_forward fuel rangeEnd : forall (st st' : RunState E),
  removeFieldTokens E fuel rangeEnd st = OK st' -> forward st st'.
Proof.
  induction fuel as [|fuel IH]; intros st st' H; simpl in H; open_call H; subst;
    try reflexivity.
  etrans; [|apply IH; eassumption].
  eapply onTokens_forward; [|eassumption].
  apply (removeToken_advances E HE).
Qed.

Lemma dispatch_forward (processJSX : RunState E -> Result (bool * RunState E)) :
  (forall st b st', processJSX st = OK (b, st') -> forward st st') ->
  forall ts st st', dispatch E processJSX ts st = OK st' -> forward st st'.
Proof.
  intros HJSX. induction ts as [|t ts IH]; intros st st' H; simpl in H.
  - eapply onTokens_forward; [|eassumption]. apply copyToken_advances.
  - destruct (match t with JSXTransformer => processJSX st | _ => processOther E t st end)
      as [[b st1]| |] eqn:Ht; cbn [bind] in H; try discriminate.
    assert (Hst1 : forward st st1).
    { destruct t; try (eapply (processOther_advances E HE); eassumption).
      eapply HJSX; eassumption. }
    simpl in H. destruct b.
    + injection H as <-. assumption.
    + etrans; [exact Hst1|]. apply IH. assumption.
Qed.

(** Chains of [forward] facts. *)
Ltac forward_chain :=
  unfold forward, advances in *; simpl in *;
  repeat match goal with
    | H : _ /\ _ |- _ => destruct H
    end;
  split_and!; [congruence|congruence|lia].

Ltac forward_op H :=
  apply onTokens_forward in H;
  [| solve [ intros ? ?;
             first [ apply copyToken_advances | apply replaceToken_advances
                   | apply copyExpectedToken_advances
                   | apply (removeInitialToken_advances E HE)
                   | apply (removeToken_advances E HE) ] ] ].

Ltac forward_helper H :=
  first [ apply processStringPropValue_forward in H
        | apply processChildTextElement_forward in H
        | apply processTagIntro_name_forward in H
        | apply skipToTagEnd_forward in H
        | apply removeFieldTokens_forward in H
        | forward_op H ].

Ltac forward_step :=
  repeat match goal with
    | Hc : _ = OK _ |- _ =>
        first [ match goal with
                | IHx : forall _, _ |- _ => apply IHx in Hc
                end
              | forward_helper Hc ]
    end.

Lemma walk_forward fuel :
  (forall braceDepth parenDepth st st',
     processBalancedCode_loop E fuel braceDepth parenDepth st = OK st' -> forward st st')
  /\ (forall st st', processToken E fuel st = OK st' -> forward st st')
  /\ (forall st st', processClass E fuel st = OK st' -> forward st st')
  /\ (forall contextId st st',
        processClass_header E fuel contextId st = OK st' -> forward st st')
  /\ (forall classInfo st st',
        processClassBody E fuel classInfo st = OK st' -> forward st st')
  /\ (forall classInfo classContextId fieldIndex st st',
        processClassBody_loop E fuel classInfo classContextId fieldIndex st = OK st' ->
        forward st st')
  /\ (forall st st', processJSXTag E fuel st = OK st' -> forward st st')
  /\ (forall st st', processTagIntro E fuel st = OK st' -> forward st st')
  /\ (forall introEnd st st',
        processTagIntro_loop E fuel introEnd st = OK st' -> forward st st')
  /\ (forall firstTokenStart st st',
        processProps E fuel firstTokenStart st = OK st' -> forward st st')
  /\ (forall st st', processProps_loop E fuel st = OK st' -> forward st st')
  /\ (forall st st', processChildren E fuel st = OK st' -> forward st st').
Proof.
  induction fuel as [|fuel IH].
  { split_and!; intros; discriminate. }
  destruct IH as (IHloop & IHtoken & IHclass & IHheader & IHbody & IHbodyloop
                  & IHtag & IHintro & IHintroloop & IHprops & IHpropsloop & IHchildren).
  split_and!.
  - intros bd pd st st' H. cbn [processBalancedCode_loop] in H.
    open_call H; subst; try reflexivity. forward_step. forward_chain.
  - intros st st' H. cbn [processToken] in H.
    destruct (matches1 (tokensOf st) tt._class); [apply IHclass; assumption|].
    eapply dispatch_forward; [|eassumption].
    intros s b s' Hs. cbn beta in Hs. open_call Hs; subst; [|reflexivity].
    apply IHtag. assumption.
  - intros st st' H. cbn [processClass] in H.
    destruct (getClassInfo E st) as [[classInfo st0]| |] eqn:Hinfo; cbn [bind] in H;
      try discriminate.
    apply (getClassInfo_advances E HE) in Hinfo.
    cbn [fst snd] in H.
    destruct (isExpression (headerInfo classInfo)
              && (0 <? length (staticInitializerSuffixes classInfo))).
    + destruct (claimFreeName E (str "_class") (nameManager st0)) as [name nm].
      cbn [fst snd] in H. open_call H; subst. forward_step. forward_chain.
    + cbn [fst snd] in H. open_call H; subst; forward_step; forward_chain.
  - intros id st st' H. cbn [processClass_header] in H.
    open_call H; subst; try reflexivity. forward_step. forward_chain.
  - intros classInfo st st' H. cbn [processClassBody] in H.
    open_call H; subst. forward_step.
    match goal with
    | Hx : forward (synthesizedConstructor E _ ?r) _ |- _ =>
        pose proof (synthesizedConstructor_forward classInfo r)
    end.
    forward_chain.
  - intros classInfo id k st st' H. cbn [processClassBody_loop] in H.
    destruct (0 <? length (initializerStatements classInfo));
      open_call H; subst; try reflexivity; forward_step; forward_chain.
  - intros st st' H. cbn [processJSXTag] in H.
    open_call H; subst; forward_step; forward_chain.
  - intros st st' H. cbn [processTagIntro] in H.
    open_call H; subst; forward_step; forward_chain.
  - intros n st st' H. cbn [processTagIntro_loop] in H.
    open_call H; subst; try reflexivity; forward_step; forward_chain.
  - intros n st st' H. cbn [processProps] in H.
    pose proof (getLineNumberForIndex_tokens E n st) as T1.
    destruct (getLineNumberForIndex E n st) as [line st1]. cbn [snd] in T1.
    pose proof (getFilenameVarName_tokens E st1) as T2.
    destruct (getFilenameVarName E st1) as [fileName st2]. cbn [snd] in T2.
    open_call H; subst; forward_step; unfold forward, advances in *; simpl in *;
      rewrite ?T2, ?T1 in *;
      repeat match goal with
        | Hx : _ /\ _ |- _ => destruct Hx
        end;
      split_and!; first [congruence|lia].
  - intros st st' H. cbn [processProps_loop] in H.
    open_call H; subst; try reflexivity; forward_step; forward_chain.
  - intros st st' H. cbn [processChildren] in H.
    open_call H; subst; try reflexivity; forward_step; forward_chain.
Qed.
End Forwards.

Lemma plainEnv_Forward classInfo : Forward (plainEnv classInfo).
Proof.
  split.
  - intros st ci st' H. injection H as _ <-. reflexivity.
  - intros t st b st' H. injection H as _ <-. reflexivity.
  - intros tp tp'. apply replaceToken_advances.
  - intros tp tp' H. simpl in H.
    destruct (currentToken tp); cbn [bind] in H; try discriminate.
    injection H as <-. unfold advances. simpl. split_and!; [reflexivity|reflexivity|lia].
Qed.

(** X18. Nothing in the walk touches the source text or the token sequence,
    and nothing moves the cursor back: if the collaborators that are
    parameters keep to that, then so does every function of the walk, in
    particular the four that other transformers call ([processBalancedCode],
    [processToken], [processClass]) or that [process] runs
    ([processJSXTag]). *)
Theorem source_and_tokens_are_kept (E : Env) (HE : Forward E) (fuel : nat)
    (st st' : RunState E) :
  processBalancedCode E fuel st = OK st' \/ processToken E fuel st = OK st'
  \/ processClass E fuel st = OK st' \/ processJSXTag E fuel st = OK st' ->
  code (tokensOf st') = code (tokensOf st)
  /\ tokens (tokensOf st') = tokens (tokensOf st)
  /\ tokenIndex (tokensOf st) <= tokenIndex (tokensOf st').
Proof.
  destruct (walk_forward E HE fuel)
    as (Hloop & Htoken & Hclass & _ & _ & _ & Htag & _).
  intros [H|[H|[H|H]]].
  - apply (Hloop 0 0 st st' H).
  - apply (Htoken st st' H).
  - apply (Hclass st st' H).
  - apply (Htag st st' H).
Qed.

Lemma source_and_tokens_are_kept_witness :
  exists st', processJSXTag _ 12 nestedTag = OK st'
    /\ tokens (tokensOf st') = tokens (tokensOf nestedTag)
    /\ 0 <= tokenIndex (tokensOf st').
Proof.
  assert (H : exists st', processJSXTag (plainEnv noClassInfo) 12 nestedTag = OK st')
    by (eexists; vm_compute; reflexivity).
  destruct H as [st' H]. exists st'. split; [exact H|].
  destruct (source_and_tokens_are_kept _ (plainEnv_Forward noClassInfo) 12 nestedTag st')
    as (_ & Htokens & Hindex); [right; right; right; exact H|].
  split; [exact Htokens|exact Hindex].
Defined.

(* ===================================================================== *)
(** * Further properties: ranges of type tokens *)
(* ===================================================================== *)

Section TypeRanges.
Variable E : Env.
Hypothesis Hinitial : forall tp tp',
  removeInitialToken E tp = OK tp' ->
  tokens tp' = tokens tp /\ tokenIndex tp' = tokenIndex tp + 1.
Hypothesis Hremove : forall tp tp',
  removeToken E tp = OK tp' ->
  tokens tp' = tokens tp /\ tokenIndex tp' = tokenIndex tp + 1.

Lemma currentToken_OK tp token :
  currentToken tp = OK token -> tokens tp !! tokenIndex tp = Some token.
Proof.
  unfold currentToken. destruct (tokens tp !! tokenIndex tp); [|discriminate].
  intros H. apply OK_inj in H. congruence.
Qed.

Lemma removeTypeTokens_spec fuel : forall (st st' : RunState E),
  removeTypeTokens E fuel st = OK st' ->
  (exists after, currentToken (tokensOf st') = OK after /\ isType after = false)
  /\ tokens (tokensOf st') = tokens (tokensOf st)
  /\ tokenIndex (tokensOf st) <= tokenIndex (tokensOf st')
  /\ (forall k, tokenIndex (tokensOf st) <= k < tokenIndex (tokensOf st') ->
      exists t, tokens (tokensOf st) !! k = Some t /\ isType t = true).
Proof.
  induction fuel as [|fuel IH]; intros st st' H; cbn [removeTypeTokens] in H;
    destruct (currentToken (tokensOf st)) as [token| |] eqn:Htok; cbn [bind] in H;
    try discriminate;
    destruct (isType token) eqn:Htype; try discriminate.
  - apply OK_inj in H. subst st'.
    split_and!; [eauto|reflexivity|lia|intros k Hk; lia].
  - destruct (onTokens (removeToken E) st) as [st1| |] eqn:H1; cbn [bind] in H;
      try discriminate.
    unfold onTokens in H1.
    destruct (removeToken E (tokensOf st)) as [tp1| |] eqn:Hrm; cbn [bind] in H1;
      try discriminate.
    apply OK_inj in H1. subst st1.
    apply Hremove in Hrm as [Htokens Hindex].
    apply IH in H as (Hafter & Hsame & Hle & Hall).
    cbn [tokensOf with_tokens] in Hsame, Hle, Hall.
    split_and!; [exact Hafter|congruence|lia|].
    intros k Hk. destruct (decide (k = tokenIndex (tokensOf st))) as [->|Hne].
    + exists token. split; [apply currentToken_OK; assumption|assumption].
    + rewrite <- Htokens. apply Hall. lia.
  - apply OK_inj in H. subst st'.
    split_and!; [eauto|reflexivity|lia|intros k Hk; lia].
Qed.

(** X19. [processPossibleTypeRange] answers whether the token under the
    cursor is a type token.  If it is not, nothing changes.  If it is, the
    whole run of type tokens that starts there is removed, one token at a
    time: the cursor is left on the first token after it that is not a type
    token.  (The removals are those of the token cursor, each taken to move
    the cursor by one and to leave the tokens alone.) *)
Theorem type_range_is_removed (fuel : nat) (st st' : RunState E) (b : bool) :
  processPossibleTypeRange E fuel st = OK (b, st') ->
  (exists after, currentToken (tokensOf st') = OK after /\ isType after = false)
  /\ (b = false -> st' = st)
  /\ (b = true ->
      tokens (tokensOf st') = tokens (tokensOf st)
      /\ tokenIndex (tokensOf st) < tokenIndex (tokensOf st')
      /\ forall k, tokenIndex (tokensOf st) <= k < tokenIndex (tokensOf st') ->
           exists t, tokens (tokensOf st) !! k = Some t /\ isType t = true).
Proof.
  unfold processPossibleTypeRange. intros H.
  destruct (currentToken (tokensOf st)) as [token| |] eqn:Htok; cbn [bind] in H;
    try discriminate.
  destruct (isType token) eqn:Htype.
  - destruct (onTokens (removeInitialToken E) st) as [st1| |] eqn:H1; cbn [bind] in H;
      try discriminate.
    destruct (removeTypeTokens E fuel st1) as [st2| |] eqn:H2; cbn [bind] in H;
      try discriminate.
    apply OK_inj in H. injection H as <- <-.
    unfold onTokens in H1.
    destruct (removeInitialToken E (tokensOf st)) as [tp1| |] eqn:Hrm; cbn [bind] in H1;
      try discriminate.
    apply OK_inj in H1. subst st1.
    apply Hinitial in Hrm as [Htokens Hindex].
    apply removeTypeTokens_spec in H2 as (Hafter & Hsame & Hle & Hall).
    cbn [tokensOf with_tokens] in Hsame, Hle, Hall.
    split_and!; [exact Hafter|discriminate|intros _].
    split_and!; [congruence|lia|].
    intros k Hk. destruct (decide (k = tokenIndex (tokensOf st))) as [->|Hne].
    + exists token. split; [apply currentToken_OK; assumption|assumption].
    + rewrite <- Htokens. apply Hall. lia.
  - apply OK_inj in H. injection H as <- <-.
    split_and!; [eauto|reflexivity|discriminate].
Qed.
End TypeRanges.

Lemma type_range_is_removed_witness :
  exists st' after,
    processPossibleTypeRange _ 5 typedField = OK (true, st')
    /\ resultCode (tokensOf st') = str "a"
    /\ currentToken (tokensOf st') = OK after /\ isType after = false
    /\ tokenIndex (tokensOf typedField) < tokenIndex (tokensOf st').
Proof.
  assert (H : exists st', processPossibleTypeRange (plainEnv noClassInfo) 5 typedField
                          = OK (true, st')
              /\ resultCode (tokensOf st') = str "a").
  { eexists. split; vm_compute; reflexivity. }
  destruct H as (st' & Hrun & Hout).
  assert (Hinitial : forall tp tp',
            removeInitialToken (plainEnv noClassInfo) tp = OK tp' ->
            tokens tp' = tokens tp /\ tokenIndex tp' = tokenIndex tp + 1).
  { intros tp tp' Hf. cbn [removeInitialToken plainEnv] in Hf. unfold replaceToken in Hf.
    destruct (currentToken tp); cbn [bind] in Hf; try discriminate.
    apply OK_inj in Hf. subst tp'. split; reflexivity. }
  assert (Hremove : forall tp tp',
            removeToken (plainEnv noClassInfo) tp = OK tp' ->
            tokens tp' = tokens tp /\ tokenIndex tp' = tokenIndex tp + 1).
  { intros tp tp' Hf. cbn [removeToken plainEnv] in Hf.
    destruct (currentToken tp); cbn [bind] in Hf; try discriminate.
    apply OK_inj in Hf. subst tp'. split; reflexivity. }
  destruct (type_range_is_removed (plainEnv noClassInfo) Hinitial Hremove
              5 typedField st' true Hrun)
    as ([after [Hafter Hnot]] & _ & Htrue).
  destruct (Htrue eq_refl) as (_ & Hlt & _).
  exists st', after. split_and!; assumption.
Defined.

(* ===================================================================== *)
(** * Further properties: the JSX tokenizer *)
(* ===================================================================== *)

Lemma set_pos_set_pos {Rest} (st : LexState Rest) a b :
  set_pos (set_pos st a) b = set_pos st b.
Proof. reflexivity. Qed.

Lemma set_pos_same {Rest} (st : LexState Rest) : set_pos st (pos st) = st.
Proof. destruct st. reflexivity. Qed.

Section Readers.
Variable L : LexerEnv.

(** ** Strings *)

Lemma jsxReadString_loop_finds quote body : forall pre post (st : LState L) fuel,
  input st = pre ++ body ++ quote :: post ->
  pos st = length pre ->
  quote ∉ body ->
  length body <= fuel ->
  jsxReadString_loop L fuel quote st = OK (set_pos st (length pre + length body + 1)).
Proof.
  induction body as [|c body IH]; intros pre post st fuel Hinput Hpos Hno Hfuel.
  - destruct fuel; cbn [jsxReadString_loop]; rewrite Hinput, Hpos;
      cbn [app]; rewrite list_lookup_middle by reflexivity;
      unfold char_eqb; rewrite N.eqb_refl; cbn [length]; do 2 f_equal; lia.
  - apply not_elem_of_cons in Hno as [Hc Hno].
    destruct fuel as [|fuel]; [simpl in Hfuel; lia|].
    cbn [jsxReadString_loop]. rewrite Hinput, Hpos.
    cbn [app]. rewrite list_lookup_middle by reflexivity.
    unfold char_eqb. destruct (N.eqb_spec c quote) as [|_]; [congruence|].
    rewrite (IH (pre ++ [c]) post (set_pos st (length pre + 1)) fuel).
    + rewrite set_pos_set_pos, length_app. cbn [length]. do 2 f_equal. lia.
    + cbn [set_pos input]. rewrite Hinput, <- app_assoc. reflexivity.
    + cbn [set_pos pos]. rewrite length_app. reflexivity.
    + assumption.
    + simpl in Hfuel. lia.
Qed.

Lemma jsxReadString_loop_unterminated quote fuel : forall (st : LState L),
  quote ∉ drop (pos st) (input st) ->
  length (input st) - pos st <= fuel ->
  jsxReadString_loop L fuel quote st = Throw (SyntaxError (lex_start st)).
Proof.
  induction fuel as [|fuel IH]; intros st Hno Hfuel; cbn [jsxReadString_loop];
    destruct (input st !! pos st) as [c|] eqn:Hc; try reflexivity.
  - apply lookup_lt_Some in Hc. lia.
  - rewrite (drop_S _ _ _ Hc) in Hno. apply not_elem_of_cons in Hno as [Hq Hno].
    unfold char_eqb. destruct (N.eqb_spec c quote) as [|_]; [congruence|].
    apply lookup_lt_Some in Hc.
    rewrite IH; [reflexivity| |]; cbn [set_pos input pos].
    + replace (pos st + 1) with (S (pos st)) by lia. assumption.
    + lia.
Qed.

(** X20. A string in a JSX tag ends at the next occurrence of the character
    that [jsxReadString] was given as quote, whatever stands before it: there
    is no escape, a backslash is a character like any other, and the
    character at the start of the token is not looked at.  The token is
    finished just after that quote.  Without such a quote in the rest of the
    input, the call raises a syntax error at the start of the token. *)
Theorem string_ends_at_next_quote (quote : char) (st : LState L) :
  (forall before opening body after,
     input st = before ++ opening :: body ++ quote :: after ->
     pos st = length before ->
     quote ∉ body ->
     jsxReadString L quote st
     = finishToken L tt.string None (set_pos st (length before + length body + 2)))
  /\ (quote ∉ drop (pos st + 1) (input st) ->
      jsxReadString L quote st = Throw (SyntaxError (lex_start st))).
Proof.
  split.
  - intros before opening body after Hinput Hpos Hno. unfold jsxReadString.
    rewrite (jsxReadString_loop_finds quote body (before ++ [opening]) after).
    + cbn [bind]. rewrite set_pos_set_pos, length_app. cbn [length].
      do 2 f_equal. lia.
    + cbn [set_pos input]. rewrite Hinput, <- app_assoc. reflexivity.
    + cbn [set_pos pos]. rewrite Hpos, length_app. reflexivity.
    + assumption.
    + cbn [set_pos input pos]. rewrite Hinput, Hpos, length_app. cbn [length].
      rewrite length_app. cbn [length]. lia.
  - intros Hno. unfold jsxReadString.
    rewrite jsxReadString_loop_unterminated; [reflexivity|exact Hno|].
    cbn [set_pos input pos]. lia.
Qed.

(** ** Text *)

Lemma jsxReadToken_loop_finds c text : forall pre post (st : LState L) fuel,
  input st = pre ++ text ++ c :: post ->
  pos st = length pre ->
  forallb (fun d => negb (endsText d)) text = true ->
  endsText c = true ->
  length text <= fuel ->
  jsxReadToken_loop L fuel st
  = let st' := set_pos st (length pre + length text) in
    if length pre + length text =? lex_start st then
      if char_eqb c c_lessThan
      then finishToken L tt.jsxTagStart None (set_pos st (length pre + length text + 1))
      else getTokenFromCode L c st'
    else finishToken L tt.jsxText None st'.
Proof.
  induction text as [|d text IH]; intros pre post st fuel Hinput Hpos Htext Hc Hfuel.
  - cbn [length]. rewrite Nat.add_0_r. cbn zeta.
    rewrite <- Hpos, set_pos_same.
    destruct fuel; cbn [jsxReadToken_loop]; rewrite Hinput, Hpos at 1;
      cbn [app]; rewrite list_lookup_middle by reflexivity;
      fold (endsText c); rewrite Hc; reflexivity.
  - cbn [forallb] in Htext. apply andb_true_iff in Htext as [Hd Htext].
    apply negb_true_iff in Hd.
    destruct fuel as [|fuel]; [simpl in Hfuel; lia|].
    cbn [jsxReadToken_loop]. rewrite Hinput, Hpos at 1.
    cbn [app]. rewrite list_lookup_middle by reflexivity.
    fold (endsText d). rewrite Hd.
    rewrite (IH (pre ++ [d]) post (set_pos st (pos st + 1)) fuel).
    + cbn zeta. rewrite !set_pos_set_pos, length_app. cbn [length set_pos lex_start].
      replace (length pre + 1 + length text) with (length pre + S (length text)) by lia.
      reflexivity.
    + cbn [set_pos input]. rewrite Hinput, <- app_assoc. reflexivity.
    + cbn [set_pos pos]. rewrite Hpos, length_app. reflexivity.
    + assumption.
    + assumption.
    + simpl in Hfuel. lia.
Qed.

Lemma jsxReadToken_loop_unterminated fuel : forall (st : LState L),
  forallb (fun d => negb (endsText d)) (drop (pos st) (input st)) = true ->
  length (input st) - pos st <= fuel ->
  jsxReadToken_loop L fuel st = Throw (SyntaxError (lex_start st)).
Proof.
  induction fuel as [|fuel IH]; intros st Hno Hfuel; cbn [jsxReadToken_loop];
    destruct (input st !! pos st) as [c|] eqn:Hc; try reflexivity.
  - apply lookup_lt_Some in Hc. lia.
  - rewrite (drop_S _ _ _ Hc) in Hno. cbn [forallb] in Hno.
    apply andb_true_iff in Hno as [Hd Hno]. apply negb_true_iff in Hd.
    fold (endsText c). rewrite Hd.
    apply lookup_lt_Some in Hc.
    rewrite IH; [reflexivity| |]; cbn [set_pos input pos].
    + replace (pos st + 1) with (S (pos st)) by lia. assumption.
    + lia.
Qed.

(** X21. The token that [nextJSXExprToken] reads inside JSX contents: if the
    input goes on with a [<], it is the start of a tag, one character long; if
    it goes on with a [{], it is the token the ordinary tokenizer reads there;
    otherwise, if a [<] or a [{] follows somewhere, it is a text token that
    runs up to the first of them, so a text token is never empty and never
    holds one of the two characters; and if neither follows, the call raises a
    syntax error at the position where the contents were to start. *)
Theorem text_token_ends_at_tag_or_brace (st : LState L) :
  let st0 := set_start (set_rest st (pushToken L st)) (pos st) in
  (forall before text c after,
     input st = before ++ text ++ c :: after ->
     pos st = length before ->
     forallb (fun d => negb (endsText d)) text = true ->
     endsText c = true ->
     nextJSXExprToken L st
     = match text with
       | [] =>
           if char_eqb c c_lessThan
           then finishToken L tt.jsxTagStart None (set_pos st0 (pos st + 1))
           else getTokenFromCode L c st0
       | _ :: _ => finishToken L tt.jsxText None (set_pos st0 (pos st + length text))
       end)
  /\ (forallb (fun d => negb (endsText d)) (drop (pos st) (input st)) = true ->
      nextJSXExprToken L st = Throw (SyntaxError (pos st))).
Proof.
  intros st0. split.
  - intros before text c after Hinput Hpos Htext Hc.
    unfold nextJSXExprToken, jsxReadToken. fold st0.
    rewrite (jsxReadToken_loop_finds c text before after st0); try assumption;
      [|subst st0; cbn [set_start set_rest input pos]; rewrite Hinput, Hpos;
        rewrite !length_app; cbn [length]; lia].
    cbn zeta. subst st0. cbn [set_start set_rest lex_start]. rewrite <- Hpos.
    destruct text as [|d text].
    + cbn [length]. rewrite Nat.add_0_r, Nat.eqb_refl.
      destruct (char_eqb c c_lessThan); reflexivity.
    + cbn [length]. rewrite (proj2 (Nat.eqb_neq _ _)) by lia. reflexivity.
  - intros Hno. unfold nextJSXExprToken, jsxReadToken. fold st0.
    rewrite jsxReadToken_loop_unterminated; [reflexivity|exact Hno|lia].
Qed.

(** ** Names *)

Lemma jsxReadWord_loop_reads body : forall pre post (st : LState L) fuel,
  input st = pre ++ body ++ post ->
  pos st + 1 = length pre ->
  forallb (fun c => isWordChar L (Some c)) body = true ->
  isWordChar L (head post) = false ->
  length body < fuel ->
  jsxReadWord_loop L fuel st = OK (set_pos st (length pre + length body)).
Proof.
  induction body as [|c body IH]; intros pre post st fuel Hinput Hpos Hbody Hpost Hfuel;
    (destruct fuel as [|fuel]; [simpl in Hfuel; lia|]);
    cbn [jsxReadWord_loop set_pos input pos]; rewrite Hinput, Hpos.
  - cbn [app length]. rewrite Nat.add_0_r.
    replace ((pre ++ post) !! length pre) with (head post).
    2:{ rewrite lookup_app_r by lia. rewrite Nat.sub_diag. destruct post; reflexivity. }
    fold (isWordChar L (head post)). rewrite Hpost. reflexivity.
  - cbn [forallb] in Hbody. apply andb_true_iff in Hbody as [Hc Hbody].
    cbn [app]. rewrite list_lookup_middle by reflexivity.
    fold (isWordChar L (Some c)). rewrite Hc.
    rewrite (IH (pre ++ [c]) post (set_pos st (length pre)) fuel).
    + rewrite set_pos_set_pos, length_app. cbn [length]. do 2 f_equal. lia.
    + cbn [set_pos input]. rewrite Hinput, <- app_assoc. reflexivity.
    + cbn [set_pos pos]. rewrite length_app. reflexivity.
    + assumption.
    + assumption.
    + simpl in Hfuel. lia.
Qed.

(** X22. A JSX name is the character under the cursor, which is taken as it
    is, and after it the longest run of identifier characters and dashes: the
    token is finished where that run ends, with the text from the start of the
    name to there as its value. *)
Theorem name_is_longest_run (fuel : nat) (st : LState L)
    (before : jsstring) (first : char) (body after : jsstring) :
  input st = before ++ first :: body ++ after ->
  pos st = length before ->
  forallb (fun c => isWordChar L (Some c)) body = true ->
  isWordChar L (head after) = false ->
  length body < fuel ->
  jsxReadWord L fuel st
  = finishToken L tt.jsxName (Some (first :: body))
      (set_pos st (length before + 1 + length body)).
Proof.
  intros Hinput Hpos Hbody Hafter Hfuel. unfold jsxReadWord.
  rewrite (jsxReadWord_loop_reads body (before ++ [first]) after st fuel);
    [|rewrite Hinput, <- app_assoc; reflexivity
     |rewrite Hpos, length_app; reflexivity|assumption|assumption|assumption].
  cbn [bind set_pos input pos]. rewrite length_app. cbn [length]. do 2 f_equal.
  rewrite Hinput, Hpos. unfold slice.
  rewrite drop_app_length.
  replace (length before + 1 + length body - length before) with (S (length body)) by lia.
  cbn [take]. f_equal. apply take_app_length.
Qed.
End Readers.

Lemma string_ends_at_next_quote_witness :
  jsxReadString plainLexer c_apostrophe (lexerOn "<a b='c\d' e>" 5)
  = OK {| input := str "<a b='c\d' e>"; pos := 10; lex_start := 5;
          lex_rest := [(tt.string, None, 5, 10)] |}
  /\ jsxReadString plainLexer c_quotationMark (lexerOn "<a b='c\d' e>" 5)
     = Throw (SyntaxError 5).
Proof.
  destruct (string_ends_at_next_quote plainLexer c_apostrophe (lexerOn "<a b='c\d' e>" 5))
    as [Hfound _].
  destruct (string_ends_at_next_quote plainLexer c_quotationMark
              (lexerOn "<a b='c\d' e>" 5)) as [_ Hnone].
  split.
  - rewrite (Hfound (str "<a b=") c_apostrophe (str "c\d") (str " e>"));
      [vm_compute; reflexivity|vm_compute; reflexivity|reflexivity
      |vm_compute; list_not_mem].
  - rewrite Hnone; [reflexivity|]. vm_compute. list_not_mem.
Defined.

Lemma text_token_ends_at_tag_or_brace_witness :
  nextJSXExprToken plainLexer (lexerOn "<p>some text{x}</p>" 3)
  = OK {| input := str "<p>some text{x}</p>"; pos := 12; lex_start := 3;
          lex_rest := [(tt.jsxText, None, 3, 12)] |}
  /\ nextJSXExprToken plainLexer (lexerOn "<p>some text" 3) = Throw (SyntaxError 3).
Proof.
  destruct (text_token_ends_at_tag_or_brace plainLexer (lexerOn "<p>some text{x}</p>" 3))
    as [Hfound _].
  destruct (text_token_ends_at_tag_or_brace plainLexer (lexerOn "<p>some text" 3))
    as [_ Hnone].
  split.
  - rewrite (Hfound (str "<p>") (str "some text") c_leftCurlyBrace (str "x}</p>"));
      [vm_compute; reflexivity|vm_compute; reflexivity|reflexivity
      |vm_compute; reflexivity|vm_compute; reflexivity].
  - rewrite Hnone; [reflexivity|]. vm_compute. reflexivity.
Defined.

Lemma name_is_longest_run_witness :
  jsxReadWord plainLexer 20 (lexerOn "<div data-id=x>" 5)
  = OK {| input := str "<div data-id=x>"; pos := 12; lex_start := 5;
          lex_rest := [(tt.jsxName, Some (str "data-id"), 5, 12)] |}.
Proof.
  rewrite (name_is_longest_run plainLexer 20 (lexerOn "<div data-id=x>" 5)
             (str "<div ") 100%N (str "ata-id") (str "=x>"));
    [vm_compute; reflexivity|vm_compute; reflexivity|reflexivity
    |vm_compute; reflexivity|vm_compute; reflexivity|vm_compute; lia].
Defined.

(* ===================================================================== *)
(** * Further properties: binding lists *)
(* ===================================================================== *)

Section BindingLists.
Variable P : ParserEnv.

Lemma parseBindingList_loop_closes fuel : forall close isBlockScope allowEmpty
    allowModifiers first hasRemovedComma firstItemTokenIndex (st st' : PState P),
  parseBindingList_loop P fuel close isBlockScope allowEmpty allowModifiers
    first hasRemovedComma firstItemTokenIndex st = OK st' ->
  exists s, eat P close s = OK (true, st') \/ expect P close s = OK st'.
Proof.
  induction fuel as [|fuel IH];
    intros close b allowEmpty allowModifiers first removed index st st' H;
    [discriminate|].
  cbn [parseBindingList_loop] in H.
  destruct (eat P close st) as [[eaten st1]| |] eqn:Heat; cbn [bind fst snd] in H;
    try discriminate.
  destruct eaten.
  { apply OK_inj in H. subst st1. exists st. left. assumption. }
  destruct (if first then OK (removed, st1) else expectComma P removed index st1)
    as [[removed' st2]| |]; cbn [bind fst snd] in H; try discriminate.
  destruct (allowEmpty && matchType P tt.comma st2); [eapply IH; eassumption|].
  destruct (eat P close st2) as [[eaten st3]| |] eqn:Heat2; cbn [bind fst snd] in H;
    try discriminate.
  destruct eaten.
  { apply OK_inj in H. subst st3. exists st2. left. assumption. }
  destruct (matchType P tt.ellipsis st3).
  - destruct (parseRest P fuel b st3) as [st4| |]; cbn [bind] in H; try discriminate.
    destruct (parseAssignableListItemTypes P st4) as [st5| |]; cbn [bind] in H;
      try discriminate.
    exists st5. right. assumption.
  - destruct (parseAssignableListItem P fuel allowModifiers b st3) as [st4| |];
      cbn [bind] in H; try discriminate.
    eapply IH; eassumption.
Qed.

Lemma parseBindingList_eq fuel close isBlockScope allowEmpty allowModifiers (st : PState P) :
  parseBindingList P (S fuel) close isBlockScope allowEmpty allowModifiers st
  = parseBindingList_loop P fuel close isBlockScope allowEmpty allowModifiers
      true false (length (state_tokens st)) st.
Proof. reflexivity. Qed.

(** X23. A binding list ends at its closing token, and a rest element is the
    last thing in its list.  [parseBindingList] returns in two ways only: when
    [eat] has taken the closing token, or, after a rest element, when [expect]
    has.  And when a turn of the loop finds [...] where an item may start (the
    closing token is not there, and neither is the comma of a hole), the
    outcome of the list is the outcome of parsing the rest element and its
    type annotation and then expecting the closing token: nothing else is
    accepted after a rest element, and the error of [expect] is the error of
    the list. *)
Theorem binding_list_is_closed (fuel : nat) (close : TokenType) (isBlockScope allowEmpty : bool)
    (allowModifiers : option bool) (st st' : PState P) :
  (parseBindingList P fuel close isBlockScope allowEmpty allowModifiers st = OK st' ->
   exists s, eat P close s = OK (true, st') \/ expect P close s = OK st')
  /\ (forall (first hasRemovedComma : bool) (firstItemTokenIndex : nat)
         (st1 : PState P) (removed : bool) (st2 st3 : PState P),
        eat P close st = OK (false, st1) ->
        (if first then OK (hasRemovedComma, st1)
         else expectComma P hasRemovedComma firstItemTokenIndex st1) = OK (removed, st2) ->
        allowEmpty && matchType P tt.comma st2 = false ->
        eat P close st2 = OK (false, st3) ->
        matchType P tt.ellipsis st3 = true ->
        parseBindingList_loop P (S fuel) close isBlockScope allowEmpty allowModifiers
          first hasRemovedComma firstItemTokenIndex st
        = (let* st4 := parseRest P fuel isBlockScope st3 in
           let* st5 := parseAssignableListItemTypes P st4 in
           expect P close st5)).
Proof.
  split.
  - destruct fuel as [|fuel]; [discriminate|].
    cbn [parseBindingList]. apply parseBindingList_loop_closes.
  - intros first removed0 index st1 removed st2 st3 Heat Hcomma Hhole Heat2 Hrest.
    cbn [parseBindingList_loop]. rewrite Heat. cbn [bind fst snd].
    destruct first.
    + apply OK_inj in Hcomma. injection Hcomma as <- <-. cbn [bind fst snd].
      rewrite Hhole, Heat2. cbn [bind fst snd]. rewrite Hrest. reflexivity.
    + rewrite Hcomma. cbn [bind fst snd].
      rewrite Hhole, Heat2. cbn [bind fst snd]. rewrite Hrest. reflexivity.
Qed.
End BindingLists.

(** [[...a]] is accepted and leaves the parser after the bracket; in
    [[...a, b]] the comma after the rest element is refused. *)
Lemma binding_list_is_closed_witness :
  (exists s st',
     parseBindingList listParser 20 tt.bracketR true true None restLast = OK st'
     /\ (eat listParser tt.bracketR s = OK (true, st')
         \/ expect listParser tt.bracketR s = OK st')
     /\ state_type st' = tt.eq)
  /\ parseBindingList listParser 20 tt.bracketR true true None restThenItem
     = Throw (SyntaxError 3).
Proof.
  split.
  - assert (H : exists st',
              parseBindingList listParser 20 tt.bracketR true true None restLast = OK st'
              /\ state_type st' = tt.eq).
    { eexists. split; vm_compute; reflexivity. }
    destruct H as (st' & Hrun & Htype).
    destruct (binding_list_is_closed listParser 20 tt.bracketR true true None restLast st')
      as [Hclosed _].
    destruct (Hclosed Hrun) as [s Hs].
    exists s, st'. split_and!; assumption.
  - destruct (binding_list_is_closed listParser 18 tt.bracketR true true None
                restThenItem restThenItem) as [_ Hlast].
    rewrite parseBindingList_eq.
    rewrite (Hlast true false (length (state_tokens restThenItem))
               restThenItem false restThenItem restThenItem);
      vm_compute; reflexivity.
Defined.

(* ===================================================================== *)
(** * Further properties: one declaration kind per pattern *)
(* ===================================================================== *)

Lemma declaresOnly_set_identifierRole r t : declaresOnly r (set_identifierRole r t).
Proof. right. right. reflexivity. Qed.

Lemma declaresOnly_set_isType r b t : declaresOnly r t -> declaresOnly r (set_isType b t).
Proof. intros H. exact H. Qed.

Lemma updateLastToken_keeps {Rest} r (f : Token -> Token) (st st' : ParserState Rest) :
  (forall t, declaresOnly r t -> declaresOnly r (f t)) ->
  updateLastToken f st = OK st' -> rolesAre r st -> rolesAre r st'.
Proof.
  intros Hf H Hst. apply updateLastToken_OK in H as (before & t & Hts & ->).
  unfold rolesAre in *. cbn [set_tokens state_tokens]. rewrite Hts in Hst.
  apply Forall_app in Hst as [Hbefore Hlast]. apply Forall_app. split; [assumption|].
  apply Forall_singleton. apply (proj1 (Forall_singleton _ _)) in Hlast. apply Hf. assumption.
Qed.

Lemma updateLastToken_role {Rest} r (st st' : ParserState Rest) :
  updateLastToken (set_identifierRole r) st = OK st' -> rolesAre r st -> rolesAre r st'.
Proof.
  intros H Hst. apply updateLastToken_OK in H as (before & t & Hts & ->).
  unfold rolesAre in *. cbn [set_tokens state_tokens]. rewrite Hts in Hst.
  apply Forall_app in Hst as [Hbefore _]. apply Forall_app. split; [assumption|].
  apply Forall_singleton. apply declaresOnly_set_identifierRole.
Qed.

Section Roles.
Variable P : ParserEnv.
Variable isBlockScope : bool.
Hypothesis HP : KeepsRoles P isBlockScope.
Local Abbreviation keeps := (rolesAre (roleOf isBlockScope)).

Lemma parseAssignableListItemTypes_keeps (st st' : PState P) :
  parseAssignableListItemTypes P st = OK st' -> keeps st -> keeps st'.
Proof.
  unfold parseAssignableListItemTypes.
  destruct (hasPlugin P "flow" st);
    [apply (flowParseAssignableListItemTypes_keeps P isBlockScope HP)|].
  destruct (hasPlugin P "typescript" st);
    [apply (tsParseAssignableListItemTypes_keeps P isBlockScope HP)|].
  intros H. apply OK_inj in H. subst. auto.
Qed.

Lemma expectComma_keeps removed index (st : PState P) removed' st' :
  expectComma P removed index st = OK (removed', st') -> keeps st -> keeps st'.
Proof.
  unfold expectComma. intros H Hst.
  destruct (expect P tt.comma st) as [st1| |] eqn:He; cbn [bind] in H; try discriminate.
  apply (expect_keeps P isBlockScope HP) in He; [|assumption].
  destruct removed; [apply OK_inj in H; injection H as _ <-; assumption|].
  destruct (state_tokens st1 !! index) as [firstItem|]; [|discriminate].
  destruct (isType firstItem); [|apply OK_inj in H; injection H as _ <-; assumption].
  destruct (updateLastToken (set_isType true) st1) as [st2| |] eqn:Hu; cbn [bind] in H;
    try discriminate.
  apply OK_inj in H. injection H as _ <-.
  eapply updateLastToken_keeps; [|eassumption|assumption].
  intros t Ht. apply declaresOnly_set_isType. assumption.
Qed.

Lemma lval_keeps_roles fuel :
  (forall st st', parseBindingAtom P fuel isBlockScope st = OK st' -> keeps st -> keeps st')
  /\ (forall st st', parseRest P fuel isBlockScope st = OK st' -> keeps st -> keeps st')
  /\ (forall close allowEmpty allowModifiers st st',
        parseBindingList P fuel close isBlockScope allowEmpty allowModifiers st = OK st' ->
        keeps st -> keeps st')
  /\ (forall close allowEmpty allowModifiers first removed index st st',
        parseBindingList_loop P fuel close isBlockScope allowEmpty allowModifiers
          first removed index st = OK st' ->
        keeps st -> keeps st')
  /\ (forall allowModifiers st st',
        parseAssignableListItem P fuel allowModifiers isBlockScope st = OK st' ->
        keeps st -> keeps st')
  /\ (forall leftAlreadyParsed st st',
        parseMaybeDefault P fuel isBlockScope leftAlreadyParsed st = OK st' ->
        keeps st -> keeps st').
Proof.
  induction fuel as [|fuel IH].
  { split_and!; intros; discriminate. }
  destruct IH as (IHatom & IHrest & IHlist & IHloop & IHitem & IHdefault).
  split_and!.
  - (* parseBindingAtom *)
    intros st st' H Hst. cbn [parseBindingAtom] in H.
    destruct (state_type st) eqn:Htype; try discriminate.
    + (* { *)
      eapply (parseObj_keeps P isBlockScope HP); eassumption.
    + (* [ *)
      destruct (next P st) as [st1| |] eqn:Hn; cbn [bind] in H; try discriminate.
      apply (next_keeps P isBlockScope HP) in Hn; [|assumption].
      eapply IHlist; eassumption.
    + (* this *)
      eapply (runInTypeContext_keeps P isBlockScope HP); [|eassumption|assumption].
      intros s s'. apply (next_keeps P isBlockScope HP).
    + (* yield *)
      unfold parseBindingIdentifier in H.
      destruct (parseIdentifier P (set_type st tt.name)) as [st1| |] eqn:Hi;
        cbn [bind] in H; try discriminate.
      apply (parseIdentifier_keeps P isBlockScope HP) in Hi; [|exact Hst].
      eapply updateLastToken_role; eassumption.
    + (* name *)
      unfold parseBindingIdentifier in H.
      destruct (parseIdentifier P (set_type st tt.name)) as [st1| |] eqn:Hi;
        cbn [bind] in H; try discriminate.
      apply (parseIdentifier_keeps P isBlockScope HP) in Hi; [|exact Hst].
      eapply updateLastToken_role; eassumption.
  - (* parseRest *)
    intros st st' H Hst. cbn [parseRest] in H.
    destruct (next P st) as [st1| |] eqn:Hn; cbn [bind] in H; try discriminate.
    apply (next_keeps P isBlockScope HP) in Hn; [|assumption].
    eapply IHatom; eassumption.
  - (* parseBindingList *)
    intros close allowEmpty allowModifiers st st' H Hst. cbn [parseBindingList] in H.
    eapply IHloop; eassumption.
  - (* parseBindingList_loop *)
    intros close allowEmpty allowModifiers first removed index st st' H Hst.
    cbn [parseBindingList_loop] in H.
    destruct (eat P close st) as [[eaten st1]| |] eqn:Heat; cbn [bind fst snd] in H;
      try discriminate.
    apply (eat_keeps P isBlockScope HP) in Heat; [|assumption].
    destruct eaten; [apply OK_inj in H; subst; assumption|].
    assert (Hcomma : forall r,
              (if first then OK (removed, st1) else expectComma P removed index st1) = OK r ->
              keeps r.2).
    { intros [removed' st2] Hr. destruct first.
      - apply OK_inj in Hr. injection Hr as _ <-. assumption.
      - eapply expectComma_keeps; eassumption. }
    destruct (if first then OK (removed, st1) else expectComma P removed index st1)
      as [[removed' st2]| |]; cbn [bind fst snd] in H; try discriminate.
    specialize (Hcomma _ eq_refl). cbn [snd] in Hcomma.
    destruct (allowEmpty && matchType P tt.comma st2); [eapply IHloop; eassumption|].
    destruct (eat P close st2) as [[eaten st3]| |] eqn:Heat2; cbn [bind fst snd] in H;
      try discriminate.
    apply (eat_keeps P isBlockScope HP) in Heat2; [|assumption].
    destruct eaten; [apply OK_inj in H; subst; assumption|].
    destruct (matchType P tt.ellipsis st3).
    + destruct (parseRest P fuel isBlockScope st3) as [st4| |] eqn:Hrest; cbn [bind] in H;
        try discriminate.
      apply IHrest in Hrest; [|assumption].
      destruct (parseAssignableListItemTypes P st4) as [st5| |] eqn:Htypes;
        cbn [bind] in H; try discriminate.
      apply parseAssignableListItemTypes_keeps in Htypes; [|assumption].
      eapply (expect_keeps P isBlockScope HP); eassumption.
    + destruct (parseAssignableListItem P fuel allowModifiers isBlockScope st3)
        as [st4| |] eqn:Hitem; cbn [bind] in H; try discriminate.
      apply IHitem in Hitem; [|assumption].
      eapply IHloop; eassumption.
  - (* parseAssignableListItem *)
    intros allowModifiers st st' H Hst. cbn [parseAssignableListItem] in H.
    assert (Hmods : forall st1,
              (if default false allowModifiers
               then let* st0 := tsParseAccessModifier P st in tsParseModifier P [_readonly] st0
               else OK st) = OK st1 -> keeps st1).
    { intros st1 H1. destruct (default false allowModifiers).
      - destruct (tsParseAccessModifier P st) as [st0| |] eqn:Ha; cbn [bind] in H1;
          try discriminate.
        apply (tsParseAccessModifier_keeps P isBlockScope HP) in Ha; [|assumption].
        eapply (tsParseModifier_keeps P isBlockScope HP); eassumption.
      - apply OK_inj in H1. subst. assumption. }
    destruct (if default false allowModifiers
              then let* st0 := tsParseAccessModifier P st in tsParseModifier P [_readonly] st0
              else OK st) as [st1| |]; cbn [bind] in H; try discriminate.
    specialize (Hmods _ eq_refl).
    destruct (parseMaybeDefault P fuel isBlockScope false st1) as [st2| |] eqn:H2;
      cbn [bind] in H; try discriminate.
    apply IHdefault in H2; [|assumption].
    destruct (parseAssignableListItemTypes P st2) as [st3| |] eqn:H3; cbn [bind] in H;
      try discriminate.
    apply parseAssignableListItemTypes_keeps in H3; [|assumption].
    eapply IHdefault; eassumption.
  - (* parseMaybeDefault *)
    intros leftAlreadyParsed st st' H Hst. cbn [parseMaybeDefault] in H.
    assert (Hleft : forall st1,
              (if negb leftAlreadyParsed then parseBindingAtom P fuel isBlockScope st
               else OK st) = OK st1 -> keeps st1).
    { intros st1 H1. destruct (negb leftAlreadyParsed).
      - eapply IHatom; eassumption.
      - apply OK_inj in H1. subst. assumption. }
    destruct (if negb leftAlreadyParsed then parseBindingAtom P fuel isBlockScope st
              else OK st) as [st1| |]; cbn [bind] in H; try discriminate.
    specialize (Hleft _ eq_refl).
    destruct (eat P tt.eq st1) as [[eaten st2]| |] eqn:Heat; cbn [bind fst snd] in H;
      try discriminate.
    apply (eat_keeps P isBlockScope HP) in Heat; [|assumption].
    destruct eaten; cbn [negb] in H.
    + eapply (parseMaybeAssign_keeps P isBlockScope HP); eassumption.
    + apply OK_inj in H. subst. assumption.
Qed.
End Roles.

(** X24. A pattern declares names of one kind: if, before a binding atom or a
    binding list is parsed, every token that declares a name does so with the
    role that goes with [isBlockScope], then the same holds afterwards, however
    deeply the pattern nests arrays, defaults and rest elements.  (The parser
    functions that are parameters are taken to give no token another
    declaration role.) *)
Theorem pattern_declares_one_kind (P : ParserEnv) (isBlockScope : bool)
    (HP : KeepsRoles P isBlockScope) (fuel : nat) (st st' : PState P) :
  rolesAre (roleOf isBlockScope) st ->
  (parseBindingAtom P fuel isBlockScope st = OK st'
   \/ exists close allowEmpty allowModifiers,
        parseBindingList P fuel close isBlockScope allowEmpty allowModifiers st = OK st') ->
  rolesAre (roleOf isBlockScope) st'.
Proof.
  intros Hst H.
  destruct (lval_keeps_roles P isBlockScope HP fuel) as (Hatom & _ & Hlist & _).
  destruct H as [H|(close & allowEmpty & allowModifiers & H)].
  - eapply Hatom; eassumption.
  - eapply Hlist; eassumption.
Qed.

Lemma listParser_KeepsRoles isBlockScope : KeepsRoles listParser isBlockScope.
Proof.
  assert (Hpush : forall (st : PState listParser) t,
            rolesAre (roleOf isBlockScope) st ->
            Forall (declaresOnly (roleOf isBlockScope)) (state_tokens st ++ [tok t 0 0])).
  { intros st t Hst. apply Forall_app. split; [exact Hst|].
    apply Forall_singleton. left. reflexivity. }
  split.
  - intros st st' H Hst. cbn in H. apply OK_inj in H. subst st'. apply Hpush. assumption.
  - intros t st b st' H Hst. cbn in H.
    match type of H with (if ?c then _ else _) = _ => destruct c end;
      apply OK_inj in H; injection H as _ <-; [apply Hpush|]; assumption.
  - intros t st st' H Hst. cbn in H.
    match type of H with (if ?c then _ else _) = _ => destruct c end; [|discriminate].
    apply OK_inj in H. subst st'. apply Hpush. assumption.
  - intros n f st st' Hf H Hst. cbn in H. eapply Hf; eassumption.
  - intros st st' H Hst. cbn in H. apply OK_inj in H. subst st'. apply Hpush. assumption.
  - intros noIn st st' H Hst. cbn in H. apply OK_inj in H. subst. assumption.
  - intros isPattern st st' H Hst. cbn in H. apply OK_inj in H. subst. assumption.
  - intros st st' H Hst. cbn in H. apply OK_inj in H. subst. assumption.
  - intros st st' H Hst. cbn in H. apply OK_inj in H. subst. assumption.
  - intros st st' H Hst. cbn in H. apply OK_inj in H. subst. assumption.
  - intros ms st st' H Hst. cbn in H. apply OK_inj in H. subst. assumption.
Qed.

Lemma pattern_declares_one_kind_witness :
  exists st', parseBindingAtom listParser 20 false nestedPattern = OK st'
    /\ List.map identifierRole (state_tokens st')
       = [None; Some FunctionScopedDeclaration; None; None;
          Some FunctionScopedDeclaration; None; None; None;
          Some FunctionScopedDeclaration; None]
    /\ rolesAre FunctionScopedDeclaration st'.
Proof.
  assert (H : exists st', parseBindingAtom listParser 20 false nestedPattern = OK st'
              /\ List.map identifierRole (state_tokens st')
                 = [None; Some FunctionScopedDeclaration; None; None;
                    Some FunctionScopedDeclaration; None; None; None;
                    Some FunctionScopedDeclaration; None]).
  { eexists. split; vm_compute; reflexivity. }
  destruct H as (st' & Hrun & Hroles). exists st'.
  split_and!; [exact Hrun|exact Hroles|].
  apply (pattern_declares_one_kind listParser false (listParser_KeepsRoles false) 20
           nestedPattern st'); [apply Forall_nil; exact I|left; exact Hrun].
Defined.
